(** * newsbot.py: normalisation, duplicate detection, resilient parsing,
      digest reconciliation and history retention; the sheets of settings,
      the feeds and the candidates of a run

    A shallow embedding of the decision logic of [newsbot.py] together with
    the properties its specification states about it and further
    properties that the code shows.  Python values are
    modelled directly: a [str] is its sequence of Unicode code points, a
    [dict] is an insertion-ordered association list with unique keys, a
    raised exception is an explicit [Raise] result. *)

From Stdlib Require Import ZArith NArith QArith List String Ascii Bool Lia.
From Stdlib Require Import DecimalString Sorted Permutation.
From stdpp Require Import base list gmap sets.

Set Default Proof Using "Type".
Open Scope N_scope.

(** ** Python built-ins used by the program *)

Module Py.

(** A Python [str]: a sequence of code points. *)
Definition str : Type := list N.

(** An ASCII literal as a [str]. *)
Definition lit (s : String.string) : str :=
  map N_of_ascii (list_ascii_of_string s).

(** The text [s] between two double quotes. *)
Definition quoted (s : String.string) : str := 34 :: lit s ++ [34].

(** [str.isspace] on one code point (the set used by [str.split],
    [str.strip] and by [\s] in a [str] pattern). *)
Definition isspace (c : N) : bool :=
  ((9 <=? c) && (c <=? 13)) || ((28 <=? c) && (c <=? 32))
  || (c =? 133) || (c =? 160) || (c =? 5760)
  || ((8192 <=? c) && (c <=? 8202))
  || (c =? 8232) || (c =? 8233) || (c =? 8239) || (c =? 8287) || (c =? 12288).

(** [str.lower], per code point, on ASCII and Latin-1 letters; the model
    leaves every other code point unchanged. *)
Definition lower_char (c : N) : N :=
  if (65 <=? c) && (c <=? 90) then c + 32
  else if (192 <=? c) && (c <=? 222) && negb (c =? 215) then c + 32
  else c.

Definition lower (s : str) : str := map lower_char s.

(** [s.split()]: maximal runs of non-whitespace, in order.  [cur] holds the
    run being read, reversed. *)
Fixpoint split_from (cur : str) (s : str) : list str :=
  match s with
  | [] => match cur with [] => [] | _ => [rev cur] end
  | c :: r =>
      if isspace c
      then match cur with [] => split_from [] r | _ => rev cur :: split_from [] r end
      else split_from (c :: cur) r
  end.

Definition split (s : str) : list str := split_from [] s.

(** [sep.join(parts)]. *)
Fixpoint join (sep : str) (parts : list str) : str :=
  match parts with
  | [] => []
  | [x] => x
  | x :: rest => x ++ sep ++ join sep rest
  end.

(** [s.lstrip(chars)], [s.rstrip(chars)] and [s.strip()], the set of
    characters given as a predicate. *)
Fixpoint lstrip (p : N -> bool) (s : str) : str :=
  match s with
  | c :: r => if p c then lstrip p r else s
  | [] => []
  end.

Definition rstrip (p : N -> bool) (s : str) : str := rev (lstrip p (rev s)).

Definition strip (s : str) : str := rstrip isspace (lstrip isspace s).

(** [s.count(c)] for a one-character [c]. *)
Fixpoint count (c : N) (s : str) : nat :=
  match s with
  | [] => 0%nat
  | x :: r => if x =? c then S (count c r) else count c r
  end.

(** [s[:-k]] for [k > 0]: all but the last [k] characters, empty when
    [k] reaches the length. *)
Definition drop_last (k : nat) (s : str) : str := take (length s - k) s.

(** [c * n] for a one-character [c]. *)
Definition repeat_char (c : N) (n : nat) : str := replicate n c.

(** [s.startswith(p)] and [s.endswith(p)]. *)
Fixpoint startswith (p s : str) : bool :=
  match p, s with
  | [], _ => true
  | a :: p', b :: s' => (a =? b) && startswith p' s'
  | _ :: _, [] => false
  end.

Definition endswith (p s : str) : bool := startswith (rev p) (rev s).

(** Exceptions the program can meet, all subclasses of [Exception]. *)
Inductive exn : Set :=
| JSONDecodeError | ValueError | SyntaxError | ZeroDivisionError | OSError.

(** The outcome of evaluating an expression: a value or a raised
    exception. *)
Inductive result (A : Type) : Type :=
| Return (a : A)
| Raise (e : exn).
Arguments Return {A} a.
Arguments Raise {A} e.

Definition bind {A B} (m : result A) (k : A -> result B) : result B :=
  match m with Return a => k a | Raise e => Raise e end.

(** Values produced by [json.loads] and [ast.literal_eval].  A float is
    kept as the text of its literal. *)
#[warnings="-register-all"]
Inductive value : Type :=
| VNone
| VBool (b : bool)
| VInt (z : Z)
| VFloat (text : str)
| VStr (s : str)
| VList (items : list value)
| VTuple (items : list value)
| VDict (items : list (value * value)).

(** An insertion-ordered [dict] with keys of type [K]. *)
Definition dict (K V : Type) : Type := list (K * V).

Section Dict.
Context {K V : Type} `{EqDecision K}.

(** [d.get(k)] *)
Fixpoint dict_get (d : dict K V) (k : K) : option V :=
  match d with
  | [] => None
  | (k', v) :: r => if decide (k' = k) then Some v else dict_get r k
  end.

(** [d[k] = v]: replaces the value in place, or appends a new key. *)
Fixpoint dict_set (d : dict K V) (k : K) (v : V) : dict K V :=
  match d with
  | [] => [(k, v)]
  | (k', v') :: r =>
      if decide (k' = k) then (k', v) :: r else (k', v') :: dict_set r k v
  end.

(** [del d[k]] *)
Fixpoint dict_del (d : dict K V) (k : K) : dict K V :=
  match d with
  | [] => []
  | (k', v') :: r => if decide (k' = k) then r else (k', v') :: dict_del r k
  end.

Definition dict_keys (d : dict K V) : list K := d.*1.
Definition dict_values (d : dict K V) : list V := d.*2.

End Dict.

(** [sub in s] on two [str]: [sub] starts at some position of [s]. *)
Fixpoint contains (sub s : str) : bool :=
  startswith sub s
  || match s with
     | [] => false
     | _ :: r => contains sub r
     end.

(** [s.split(sep)] for a one-character [sep]: the pieces between the
    separators, the empty ones too.  [cur] holds the piece being read,
    reversed. *)
Fixpoint split_at (sep : N) (cur : str) (s : str) : list str :=
  match s with
  | [] => [rev cur]
  | c :: r =>
      if c =? sep then rev cur :: split_at sep [] r
      else split_at sep (c :: cur) r
  end.

(** [str(z)] for an [int], as an f-string writes it. *)
Definition str_of_int (z : Z) : str := lit (NilZero.string_of_int (Z.to_int z)).


End Py.

Import Py.

Notation "x <- m ;; k" := (bind m (fun x => k))
  (at level 100, m at next level, right associativity).

(** ** Reference models of the libraries the program calls *)

(** *** [json.loads] (CPython's [json] with its C scanner, default options) *)

Module Json.

Inductive token : Type :=
| TLBrace | TRBrace | TLBracket | TRBracket | TComma | TColon
| TString (s : str)
| TAtom (v : value)
| TRaise (e : exn)
| TBad.

(** JSON white space, digits and hexadecimal digits. *)
Definition is_ws (c : N) : bool :=
  (c =? 32) || (c =? 9) || (c =? 10) || (c =? 13).

Definition is_digit (c : N) : bool := (48 <=? c) && (c <=? 57).

Definition hex_digit (c : N) : option N :=
  if is_digit c then Some (c - 48)
  else if (97 <=? c) && (c <=? 102) then Some (c - 87)
  else if (65 <=? c) && (c <=? 70) then Some (c - 55)
  else None.

Definition hex4 (a b c d : N) : option N :=
  match hex_digit a, hex_digit b, hex_digit c, hex_digit d with
  | Some a, Some b, Some c, Some d => Some (((a * 16 + b) * 16 + c) * 16 + d)
  | _, _, _, _ => None
  end.

(** The one-character escapes of a JSON string. *)
Definition unescape (c : N) : option N :=
  if c =? 34 then Some 34 else if c =? 92 then Some 92
  else if c =? 47 then Some 47 else if c =? 98 then Some 8
  else if c =? 102 then Some 12 else if c =? 110 then Some 10
  else if c =? 114 then Some 13 else if c =? 116 then Some 9
  else None.

Definition is_high_surrogate (u : N) : bool := (55296 <=? u) && (u <=? 56319).
Definition is_low_surrogate (u : N) : bool := (56320 <=? u) && (u <=? 57343).
Definition join_surrogates (hi lo : N) : N :=
  65536 + (hi - 55296) * 1024 + (lo - 56320).

(** [scanstring] in strict mode, from the character after the opening
    quote: the decoded string and the number of characters read, closing
    quote included; [None] for an unterminated string, a control character
    or an invalid escape. *)
Fixpoint scanstring (s : str) (acc : str) (n : nat) : option (str * nat) :=
  match s with
  | [] => None
  | c :: r =>
      if c =? 34 then Some (rev acc, S n)
      else if c =? 92 then
        match r with
        | [] => None
        | e :: r1 =>
            if e =? 117 then
              match r1 with
              | h1 :: h2 :: h3 :: h4 :: r2 =>
                  match hex4 h1 h2 h3 h4 with
                  | None => None
                  | Some u =>
                      match r2 with
                      | b :: v :: l1 :: l2 :: l3 :: l4 :: r3 =>
                          if is_high_surrogate u && (b =? 92) && (v =? 117) then
                            match hex4 l1 l2 l3 l4 with
                            | None => None
                            | Some u2 =>
                                if is_low_surrogate u2
                                then scanstring r3 (join_surrogates u u2 :: acc) (12 + n)
                                else scanstring r2 (u :: acc) (6 + n)
                            end
                          else scanstring r2 (u :: acc) (6 + n)
                      | _ => scanstring r2 (u :: acc) (6 + n)
                      end
                  end
              | _ => None
              end
            else
              match unescape e with
              | Some d => scanstring r1 (d :: acc) (2 + n)
              | None => None
              end
        end
      else if c <=? 31 then None
      else scanstring r (c :: acc) (S n)
  end.

(** The leading run of digits of [s]. *)
Fixpoint digits (s : str) : str :=
  match s with
  | c :: r => if is_digit c then c :: digits r else []
  | [] => []
  end.

(** [int(text)] for a run of digits. *)
Definition int_of_digits (ds : str) : Z :=
  fold_left (fun z c => (10 * z + Z.of_N (c - 48))%Z) ds 0%Z.

(** The interpreter's limit on the length of a decimal integer string. *)
Definition int_max_str_digits : nat := 4300.

(** A number at the head of [s]: an optional minus sign, then [0] or a run
    of digits that starts with a non-zero digit, then an optional fraction
    (a dot and digits) and an optional exponent ([e] or [E], an optional
    sign, digits); the value and the number of characters read.  An integer longer than
    [int_max_str_digits] makes [int] raise [ValueError]. *)
Definition scan_number (s : str) : option (result value * nat) :=
  let '(neg, body) :=
    match s with
    | c :: r => if c =? 45 then (true, r) else (false, s)
    | [] => (false, s)
    end in
  let int_part :=
    match body with
    | c :: r => if c =? 48 then [c] else digits body
    | [] => []
    end in
  match int_part with
  | [] => None
  | _ =>
      let after_int := drop (length int_part) body in
      let frac :=
        match after_int with
        | c :: r => if (c =? 46) then
                      match digits r with [] => [] | ds => c :: ds end
                    else []
        | [] => []
        end in
      let after_frac := drop (length frac) after_int in
      let exp :=
        match after_frac with
        | c :: r =>
            if (c =? 101) || (c =? 69) then
              match r with
              | sg :: r' =>
                  if (sg =? 43) || (sg =? 45) then
                    match digits r' with [] => [] | ds => c :: sg :: ds end
                  else match digits r with [] => [] | ds => c :: ds end
              | [] => []
              end
            else []
        | [] => []
        end in
      let sign := if neg then [45] else [] in
      let n := (length sign + length int_part + length frac + length exp)%nat in
      match frac, exp with
      | [], [] =>
          if (int_max_str_digits <? length int_part)%nat
          then Some (Raise ValueError, n)
          else let z := int_of_digits int_part in
               Some (Return (VInt (if neg then (- z)%Z else z)), n)
      | _, _ => Some (Return (VFloat (sign ++ int_part ++ frac ++ exp)), n)
      end
  end.

(** The tokens of a document.  [skip] counts the characters that the
    token read last still covers.  A number whose conversion raises is
    the token [TRaise]. *)
Fixpoint lex (skip : nat) (s : str) : list token :=
  match s with
  | [] => []
  | c :: r =>
      match skip with
      | S k => lex k r
      | O =>
          if is_ws c then lex 0 r
          else if c =? 123 then TLBrace :: lex 0 r
          else if c =? 125 then TRBrace :: lex 0 r
          else if c =? 91 then TLBracket :: lex 0 r
          else if c =? 93 then TRBracket :: lex 0 r
          else if c =? 44 then TComma :: lex 0 r
          else if c =? 58 then TColon :: lex 0 r
          else if c =? 34 then
            match scanstring r [] 0 with
            | Some (str, n) => TString str :: lex n r
            | None => [TBad]
            end
          else if startswith (lit "null") s then TAtom VNone :: lex 3 r
          else if startswith (lit "true") s then TAtom (VBool true) :: lex 3 r
          else if startswith (lit "false") s then TAtom (VBool false) :: lex 4 r
          else
            match scan_number s with
            | Some (Return v, n) => TAtom v :: lex (n - 1) r
            | Some (Raise e, n) => TRaise e :: lex (n - 1) r
            | None =>
                if startswith (lit "NaN") s
                then TAtom (VFloat (lit "NaN")) :: lex 2 r
                else if startswith (lit "Infinity") s
                then TAtom (VFloat (lit "Infinity")) :: lex 7 r
                else if startswith (lit "-Infinity") s
                then TAtom (VFloat (lit "-Infinity")) :: lex 8 r
                else [TBad]
            end
      end
  end.

(** The parser is a machine over the tokens: a stack of the containers
    being read and what may come next.  [EError] is a syntax error, which
    [loads] reports as [JSONDecodeError]; [ERaise] is an exception raised
    while a value was being read.  Both are final. *)
Inductive frame : Type :=
| FArray (items : list value)
| FObject (pairs : dict str value) (key : option str).

Inductive expect : Type :=
| EValue | EValueOrEnd | EKeyOrEnd | EKey | EColon | ECommaOrEnd
| EDone (v : value)
| EError
| ERaise (e : exn).

(** A complete value goes to the container on top of the stack. *)
Definition push_value (v : value) (stack : list frame) : expect * list frame :=
  match stack with
  | [] => (EDone v, [])
  | FArray items :: st => (ECommaOrEnd, FArray (v :: items) :: st)
  | FObject pairs (Some k) :: st =>
      (ECommaOrEnd, FObject (dict_set pairs k v) None :: st)
  | FObject _ None :: _ => (EError, stack)
  end.

Definition as_dict (pairs : dict str value) : value :=
  VDict (map (fun kv => (VStr kv.1, kv.2)) pairs).

Definition start_value (t : token) (stack : list frame) : expect * list frame :=
  match t with
  | TString s => push_value (VStr s) stack
  | TAtom v => push_value v stack
  | TRaise e => (ERaise e, stack)
  | TLBracket => (EValueOrEnd, FArray [] :: stack)
  | TLBrace => (EKeyOrEnd, FObject [] None :: stack)
  | _ => (EError, stack)
  end.

Definition set_key (k : str) (stack : list frame) : expect * list frame :=
  match stack with
  | FObject pairs None :: st => (EColon, FObject pairs (Some k) :: st)
  | _ => (EError, stack)
  end.

Definition step (st : expect * list frame) (t : token) : expect * list frame :=
  let '(e, stack) := st in
  match e, t, stack with
  | ERaise _, _, _ => st
  | EValue, _, _ => start_value t stack
  | EValueOrEnd, TRBracket, FArray [] :: rest => push_value (VList []) rest
  | EValueOrEnd, _, _ => start_value t stack
  | EKeyOrEnd, TRBrace, FObject pairs None :: rest => push_value (as_dict pairs) rest
  | EKeyOrEnd, TString k, _ => set_key k stack
  | EKey, TString k, _ => set_key k stack
  | EColon, TColon, _ => (EValue, stack)
  | ECommaOrEnd, TComma, FArray _ :: _ => (EValue, stack)
  | ECommaOrEnd, TRBracket, FArray items :: rest => push_value (VList (rev items)) rest
  | ECommaOrEnd, TComma, FObject _ None :: _ => (EKey, stack)
  | ECommaOrEnd, TRBrace, FObject pairs None :: rest => push_value (as_dict pairs) rest
  | _, _, _ => (EError, stack)
  end.

(** [json.loads(s)] *)
Definition loads (s : str) : result value :=
  match fold_left step (lex 0 s) (EValue, []) with
  | (EDone v, _) => Return v
  | (ERaise e, _) => Raise e
  | _ => Raise JSONDecodeError
  end.

End Json.

(** *** [ast.literal_eval], on a fragment of Python's literals

    The model reads displays of [dict] (with [str] keys), [list] and
    [tuple], [str] literals in either quote with the common one-character
    escapes, decimal numbers, [True], [False] and [None], with optional
    trailing commas.  Any other text is answered with [SyntaxError]; Python
    accepts more literals than these (sets, bytes, prefixed, triple-quoted
    and adjacent strings, other number forms). *)

Module Ast.

Inductive token : Type :=
| TLBrace | TRBrace | TLBracket | TRBracket | TLParen | TRParen
| TComma | TColon
| TValue (v : value)
| TBad.

Definition is_ws (c : N) : bool :=
  (c =? 32) || (c =? 9) || (c =? 12) || (c =? 10) || (c =? 13).

Definition is_name_char (c : N) : bool :=
  Json.is_digit c || ((97 <=? c) && (c <=? 122)) || ((65 <=? c) && (c <=? 90))
  || (c =? 95) || (128 <=? c).

Definition unescape (c : N) : option N :=
  if c =? 92 then Some 92 else if c =? 39 then Some 39
  else if c =? 34 then Some 34 else if c =? 110 then Some 10
  else if c =? 114 then Some 13 else if c =? 116 then Some 9
  else if c =? 97 then Some 7 else if c =? 98 then Some 8
  else if c =? 102 then Some 12 else if c =? 118 then Some 11
  else None.

(** A string literal from the character after its opening [quote]. *)
Fixpoint scan_str (quote : N) (s : str) (acc : str) (n : nat)
  : option (str * nat) :=
  match s with
  | [] => None
  | c :: r =>
      if c =? quote then Some (rev acc, S n)
      else if c =? 92 then
        match r with
        | e :: r1 =>
            match unescape e with
            | Some d => scan_str quote r1 (d :: acc) (2 + n)
            | None => None
            end
        | [] => None
        end
      else if (c =? 10) || (c =? 13) then None
      else scan_str quote r (c :: acc) (S n)
  end.

(** The keyword [kw] stands at the head of [s]. *)
Definition keyword (kw : str) (s : str) : bool :=
  startswith kw s &&
  match drop (length kw) s with
  | c :: _ => negb (is_name_char c)
  | [] => true
  end.

Fixpoint lex (skip : nat) (s : str) : list token :=
  match s with
  | [] => []
  | c :: r =>
      match skip with
      | S k => lex k r
      | O =>
          if is_ws c then lex 0 r
          else if c =? 123 then TLBrace :: lex 0 r
          else if c =? 125 then TRBrace :: lex 0 r
          else if c =? 91 then TLBracket :: lex 0 r
          else if c =? 93 then TRBracket :: lex 0 r
          else if c =? 40 then TLParen :: lex 0 r
          else if c =? 41 then TRParen :: lex 0 r
          else if c =? 44 then TComma :: lex 0 r
          else if c =? 58 then TColon :: lex 0 r
          else if (c =? 34) || (c =? 39) then
            match scan_str c r [] 0 with
            | Some (str, n) => TValue (VStr str) :: lex n r
            | None => [TBad]
            end
          else if keyword (lit "None") s then TValue VNone :: lex 3 r
          else if keyword (lit "True") s then TValue (VBool true) :: lex 3 r
          else if keyword (lit "False") s then TValue (VBool false) :: lex 4 r
          else
            match Json.scan_number s with
            | Some (Return v, n) =>
                match drop n s with
                | d :: _ => if is_name_char d || (d =? 46) then [TBad]
                            else TValue v :: lex (n - 1) r
                | [] => [TValue v]
                end
            | _ => [TBad]
            end
      end
  end.

Inductive frame : Type :=
| FList (items : list value)
| FTuple (items : list value) (comma : bool)
| FDict (pairs : dict str value) (key : option str).

Inductive expect : Type :=
| EValue | EValueOrEnd | EKeyOrEnd | EColon | ECommaOrEnd
| EDone (v : value)
| EError.

Definition push_value (v : value) (stack : list frame) : expect * list frame :=
  match stack with
  | [] => (EDone v, [])
  | FList items :: st => (ECommaOrEnd, FList (v :: items) :: st)
  | FTuple items comma :: st => (ECommaOrEnd, FTuple (v :: items) comma :: st)
  | FDict pairs (Some k) :: st =>
      (ECommaOrEnd, FDict (dict_set pairs k v) None :: st)
  | FDict _ None :: _ => (EError, stack)
  end.

Definition start_value (t : token) (stack : list frame) : expect * list frame :=
  match t with
  | TValue v => push_value v stack
  | TLBracket => (EValueOrEnd, FList [] :: stack)
  | TLParen => (EValueOrEnd, FTuple [] false :: stack)
  | TLBrace => (EKeyOrEnd, FDict [] None :: stack)
  | _ => (EError, stack)
  end.

Definition step (st : expect * list frame) (t : token) : expect * list frame :=
  let '(e, stack) := st in
  match e, t, stack with
  | EValue, _, _ => start_value t stack
  | EValueOrEnd, TRBracket, FList items :: rest =>
      push_value (VList (rev items)) rest
  | EValueOrEnd, TRParen, FTuple items _ :: rest =>
      push_value (VTuple (rev items)) rest
  | EValueOrEnd, _, _ => start_value t stack
  | EKeyOrEnd, TRBrace, FDict pairs None :: rest =>
      push_value (Json.as_dict pairs) rest
  | EKeyOrEnd, TValue (VStr k), FDict pairs None :: rest =>
      (EColon, FDict pairs (Some k) :: rest)
  | EColon, TColon, _ => (EValue, stack)
  | ECommaOrEnd, TComma, FList _ :: _ => (EValueOrEnd, stack)
  | ECommaOrEnd, TComma, FTuple items _ :: rest =>
      (EValueOrEnd, FTuple items true :: rest)
  | ECommaOrEnd, TComma, FDict _ None :: _ => (EKeyOrEnd, stack)
  | ECommaOrEnd, TRBracket, FList items :: rest =>
      push_value (VList (rev items)) rest
  | ECommaOrEnd, TRParen, FTuple items true :: rest =>
      push_value (VTuple (rev items)) rest
  | ECommaOrEnd, TRParen, FTuple [v] false :: rest => push_value v rest
  | ECommaOrEnd, TRBrace, FDict pairs None :: rest =>
      push_value (Json.as_dict pairs) rest
  | _, _, _ => (EError, stack)
  end.

(** [ast.literal_eval(s)] *)
Definition literal_eval (s : str) : result value :=
  let s := lstrip (fun c => (c =? 32) || (c =? 9)) s in
  match fold_left step (lex 0 s) (EValue, []) with
  | (EDone v, _) => Return v
  | _ => Raise SyntaxError
  end.

End Ast.

(** *** [nltk.stem.PorterStemmer] in its default mode, [NLTK_EXTENSIONS] *)

Module Porter.

Definition is_vowel (c : N) : bool :=
  (c =? 97) || (c =? 101) || (c =? 105) || (c =? 111) || (c =? 117).

(** [_is_consonant(word, i)] for every [i], from left to right: a [y] is
    a consonant at the start of the word and after a vowel. *)
Fixpoint consonant_flags_from (prev : option bool) (word : str) : list bool :=
  match word with
  | [] => []
  | c :: r =>
      let k := if is_vowel c then false
               else if c =? 121 then
                 match prev with None => true | Some p => negb p end
               else true in
      k :: consonant_flags_from (Some k) r
  end.

Definition consonant_flags (word : str) : list bool :=
  consonant_flags_from None word.

(** The number of [vc] in the word's sequence of [c] and [v]. *)
Fixpoint count_vc (flags : list bool) : nat :=
  match flags with
  | [] => 0%nat
  | false :: r =>
      match r with
      | true :: _ => S (count_vc r)
      | _ => count_vc r
      end
  | true :: r => count_vc r
  end.

Definition measure (stem : str) : nat := count_vc (consonant_flags stem).

Definition has_positive_measure (stem : str) : bool := (0 <? measure stem)%nat.

Definition contains_vowel (stem : str) : bool :=
  existsb negb (consonant_flags stem).

Definition ends_double_consonant (word : str) : bool :=
  match rev word, rev (consonant_flags word) with
  | a :: b :: _, k :: _ => (a =? b) && k
  | _, _ => false
  end.

Definition ends_cvc (word : str) : bool :=
  match rev word, rev (consonant_flags word) with
  | a :: _, k1 :: k2 :: k3 :: _ =>
      k3 && negb k2 && k1 && negb ((a =? 119) || (a =? 120) || (a =? 121))
  | _, [k1; k2] => negb k2 && k1
  | _, _ => false
  end.

Definition replace_suffix (word suffix replacement : str) : str :=
  take (length word - length suffix) word ++ replacement.

(** A rule [(suffix, replacement, condition)]; [None] is the condition
    that always holds. *)
Record rule : Type :=
  Rule { suffix : str; replacement : str; condition : option (str -> bool) }.

(** [_apply_rule_list(word, rules)]: the first rule whose suffix matches
    decides, whether or not its condition holds. *)
Fixpoint apply_rule_list (word : str) (rules : list rule) : str :=
  match rules with
  | [] => word
  | Rule suffix replacement condition :: rest =>
      let holds stem :=
        match condition with None => true | Some c => c stem end in
      if bool_decide (suffix = lit "*d") && ends_double_consonant word then
        let stem := drop_last 2 word in
        if holds stem then stem ++ replacement else word
      else if endswith suffix word then
        let stem := replace_suffix word suffix [] in
        if holds stem then stem ++ replacement else word
      else apply_rule_list word rest
  end.

Definition step1a (word : str) : str :=
  if endswith (lit "ies") word && (length word =? 4)%nat
  then replace_suffix word (lit "ies") (lit "ie")
  else apply_rule_list word
         [ Rule (lit "sses") (lit "ss") None;
           Rule (lit "ies") (lit "i") None;
           Rule (lit "ss") (lit "ss") None;
           Rule (lit "s") [] None ].

Definition step1b (word : str) : str :=
  if endswith (lit "ied") word then
    if (length word =? 4)%nat
    then replace_suffix word (lit "ied") (lit "ie")
    else replace_suffix word (lit "ied") (lit "i")
  else if endswith (lit "eed") word then
    let stem := replace_suffix word (lit "eed") [] in
    if (0 <? measure stem)%nat then stem ++ lit "ee" else word
  else
    let strip sfx :=
      if endswith sfx word then
        let intermediate_stem := replace_suffix word sfx [] in
        if contains_vowel intermediate_stem then Some intermediate_stem
        else None
      else None in
    let found :=
      match strip (lit "ed") with
      | Some st => Some st
      | None => strip (lit "ing")
      end in
    match found with
    | None => word
    | Some intermediate_stem =>
        let final := drop (length intermediate_stem - 1) intermediate_stem in
        apply_rule_list intermediate_stem
          [ Rule (lit "at") (lit "ate") None;
            Rule (lit "bl") (lit "ble") None;
            Rule (lit "iz") (lit "ize") None;
            Rule (lit "*d") final
              (Some (fun _ => negb (bool_decide (final ∈ [lit "l"; lit "s"; lit "z"]))));
            Rule [] (lit "e")
              (Some (fun stem => (measure stem =? 1)%nat && ends_cvc stem)) ]
    end.

Definition step1c (word : str) : str :=
  apply_rule_list word
    [ Rule (lit "y") (lit "i")
        (Some (fun stem => (1 <? length stem)%nat &&
                           nth (length stem - 1) (consonant_flags stem) true)) ].

Definition step2_rules (word : str) : str :=
  let m := Some has_positive_measure in
  apply_rule_list word
    [ Rule (lit "ational") (lit "ate") m;
      Rule (lit "tional") (lit "tion") m;
      Rule (lit "enci") (lit "ence") m;
      Rule (lit "anci") (lit "ance") m;
      Rule (lit "izer") (lit "ize") m;
      Rule (lit "bli") (lit "ble") m;
      Rule (lit "alli") (lit "al") m;
      Rule (lit "entli") (lit "ent") m;
      Rule (lit "eli") (lit "e") m;
      Rule (lit "ousli") (lit "ous") m;
      Rule (lit "ization") (lit "ize") m;
      Rule (lit "ation") (lit "ate") m;
      Rule (lit "ator") (lit "ate") m;
      Rule (lit "alism") (lit "al") m;
      Rule (lit "iveness") (lit "ive") m;
      Rule (lit "fulness") (lit "ful") m;
      Rule (lit "ousness") (lit "ous") m;
      Rule (lit "aliti") (lit "al") m;
      Rule (lit "iviti") (lit "ive") m;
      Rule (lit "biliti") (lit "ble") m;
      Rule (lit "fulli") (lit "ful") m;
      Rule (lit "logi") (lit "log")
        (Some (fun _ => has_positive_measure (drop_last 3 word))) ].

(** [_step2]: the rule for [alli] comes first and its result goes through
    the step once more (it no longer ends in [alli]). *)
Definition step2 (word : str) : str :=
  if endswith (lit "alli") word &&
     has_positive_measure (replace_suffix word (lit "alli") [])
  then step2_rules (replace_suffix word (lit "alli") (lit "al"))
  else step2_rules word.

Definition step3 (word : str) : str :=
  let m := Some has_positive_measure in
  apply_rule_list word
    [ Rule (lit "icate") (lit "ic") m;
      Rule (lit "ative") [] m;
      Rule (lit "alize") (lit "al") m;
      Rule (lit "iciti") (lit "ic") m;
      Rule (lit "ical") (lit "ic") m;
      Rule (lit "ful") [] m;
      Rule (lit "ness") [] m ].

Definition step4 (word : str) : str :=
  let measure_gt_1 := Some (fun stem => (1 <? measure stem)%nat) in
  apply_rule_list word
    [ Rule (lit "al") [] measure_gt_1;
      Rule (lit "ance") [] measure_gt_1;
      Rule (lit "ence") [] measure_gt_1;
      Rule (lit "er") [] measure_gt_1;
      Rule (lit "ic") [] measure_gt_1;
      Rule (lit "able") [] measure_gt_1;
      Rule (lit "ible") [] measure_gt_1;
      Rule (lit "ant") [] measure_gt_1;
      Rule (lit "ement") [] measure_gt_1;
      Rule (lit "ment") [] measure_gt_1;
      Rule (lit "ent") [] measure_gt_1;
      Rule (lit "ion") []
        (Some (fun stem => (1 <? measure stem)%nat &&
                           (endswith (lit "s") stem || endswith (lit "t") stem)));
      Rule (lit "ou") [] measure_gt_1;
      Rule (lit "ism") [] measure_gt_1;
      Rule (lit "ate") [] measure_gt_1;
      Rule (lit "iti") [] measure_gt_1;
      Rule (lit "ous") [] measure_gt_1;
      Rule (lit "ive") [] measure_gt_1;
      Rule (lit "ize") [] measure_gt_1 ].

Definition step5a (word : str) : str :=
  if endswith (lit "e") word then
    let stem := replace_suffix word (lit "e") [] in
    if (1 <? measure stem)%nat then stem
    else if (measure stem =? 1)%nat && negb (ends_cvc stem) then stem
    else word
  else word.

Definition step5b (word : str) : str :=
  apply_rule_list word
    [ Rule (lit "ll") (lit "l")
        (Some (fun _ => (1 <? measure (drop_last 1 word))%nat)) ].

(** The table of irregular forms, from a form to its stem. *)
Definition pool : dict str str :=
  [ (lit "sky", lit "sky"); (lit "skies", lit "sky");
    (lit "dying", lit "die"); (lit "lying", lit "lie");
    (lit "tying", lit "tie"); (lit "news", lit "news");
    (lit "innings", lit "inning"); (lit "inning", lit "inning");
    (lit "outings", lit "outing"); (lit "outing", lit "outing");
    (lit "cannings", lit "canning"); (lit "canning", lit "canning");
    (lit "howe", lit "howe"); (lit "proceed", lit "proceed");
    (lit "exceed", lit "exceed"); (lit "succeed", lit "succeed") ].

(** [stemmer.stem(word)] *)
Definition stem (word : str) : str :=
  let stem := lower word in
  match dict_get pool word with
  | Some irregular => irregular
  | None =>
      if (length word <=? 2)%nat then stem
      else
        let stem := step1a stem in
        let stem := step1b stem in
        let stem := step1c stem in
        let stem := step2 stem in
        let stem := step3 stem in
        let stem := step4 stem in
        let stem := step5a stem in
        let stem := step5b stem in
        stem
  end.

End Porter.

(** *** [nltk.stem.WordNetLemmatizer] over an excerpt of WordNet *)

Module WordNet.

(** The nouns of a WordNet database and its list of irregular nouns. *)
Record database : Type :=
  Database { nouns : list str; noun_exceptions : dict str (list str) }.

(** [MORPHOLOGICAL_SUBSTITUTIONS[NOUN]] *)
Definition substitutions : list (str * str) :=
  [ (lit "s", []); (lit "ses", lit "s"); (lit "ves", lit "f");
    (lit "xes", lit "x"); (lit "zes", lit "z"); (lit "ches", lit "ch");
    (lit "shes", lit "sh"); (lit "men", lit "man"); (lit "ies", lit "y") ].

Definition apply_rules (forms : list str) : list str :=
  flat_map (fun form =>
    flat_map (fun rule : str * str =>
      if endswith rule.1 form
      then [take (length form - length rule.1) form ++ rule.2] else [])
      substitutions) forms.

(** The forms that are nouns of the database, each once, at its first
    place. *)
Fixpoint filter_forms_from (db : database) (seen : list str)
    (forms : list str) : list str :=
  match forms with
  | [] => []
  | form :: rest =>
      if bool_decide (form ∈ nouns db) && negb (bool_decide (form ∈ seen))
      then form :: filter_forms_from db (form :: seen) rest
      else filter_forms_from db seen rest
  end.

Definition filter_forms (db : database) (forms : list str) : list str :=
  filter_forms_from db [] forms.

(** The loop of [_morphy]: rules are applied again until a form is found
    or none is left.  Every rule but [men -> man] shortens the form and no
    rule applies after that one, so [fuel] above the length of the word is
    never used up. *)
Fixpoint search (db : database) (fuel : nat) (forms : list str) : list str :=
  match fuel, forms with
  | O, _ | _, [] => []
  | S fuel, _ =>
      let forms := apply_rules forms in
      match filter_forms db forms with
      | [] => search db fuel forms
      | results => results
      end
  end.

Definition morphy (db : database) (form : str) : list str :=
  match dict_get (noun_exceptions db) form with
  | Some irregular => filter_forms db (form :: irregular)
  | None =>
      let forms := apply_rules [form] in
      match filter_forms db (form :: forms) with
      | [] => search db (S (length form)) forms
      | results => results
      end
  end.

(** [min(lemmas, key=len)]: the first of the shortest. *)
Fixpoint shortest (best : str) (rest : list str) : str :=
  match rest with
  | [] => best
  | x :: r => if (length x <? length best)%nat then shortest x r else shortest best r
  end.

(** [lemmatizer.lemmatize(word)], for the default part of speech. *)
Definition lemmatize (db : database) (word : str) : str :=
  match morphy db word with
  | [] => word
  | x :: r => shortest x r
  end.

(** Some nouns of WordNet 3.0 and some entries of its [noun.exc]. *)
Definition excerpt : database :=
  {| nouns := [ lit "a"; lit "run"; lit "launch"; lit "phone"; lit "market";
                lit "news"; lit "man"; lit "child"; lit "foot"; lit "shoe" ];
     noun_exceptions := [ (lit "men", [lit "man"]);
                          (lit "children", [lit "child"]);
                          (lit "feet", [lit "foot"]) ] |}.

(** The lemmatizer over the excerpt. *)
Definition lemmatizer : str -> str := lemmatize excerpt.

End WordNet.

(** *** [email.utils.parsedate_to_datetime], on RFC 2822 dates of the form
    [Tue, 03 Nov 2026 10:15:00 GMT]

    The model reads an optional day name, the day, the English month
    abbreviation, a four-digit year, [HH:MM:SS] and a zone that is [GMT],
    [UT], [UTC] or a numeric offset other than [-0000].  Other texts are
    answered with [None], which stands for a raised exception; Python reads
    more layouts than this one. *)

Module EmailUtils.

Definition months : list str :=
  [ lit "jan"; lit "feb"; lit "mar"; lit "apr"; lit "may"; lit "jun";
    lit "jul"; lit "aug"; lit "sep"; lit "oct"; lit "nov"; lit "dec" ].

Fixpoint index_of (x : str) (l : list str) (i : Z) : option Z :=
  match l with
  | [] => None
  | y :: r => if bool_decide (x = y) then Some i else index_of x r (i + 1)%Z
  end.

(** A non-empty run of digits as a number. *)
Definition number (s : str) : option Z :=
  match s with
  | [] => None
  | _ => if forallb Json.is_digit s then Some (Json.int_of_digits s) else None
  end.

(** [s.split(sep)] on a one-character separator. *)
Fixpoint split_on (sep : N) (cur : str) (s : str) : list str :=
  match s with
  | [] => [rev cur]
  | c :: r => if c =? sep then rev cur :: split_on sep [] r
              else split_on sep (c :: cur) r
  end.

Definition is_leap (y : Z) : bool :=
  ((y mod 4 =? 0) && negb (y mod 100 =? 0) || (y mod 400 =? 0))%Z.

Definition days_in_month (y m : Z) : Z :=
  (if m =? 2 then (if is_leap y then 29 else 28)
   else if (m =? 4) || (m =? 6) || (m =? 9) || (m =? 11) then 30 else 31)%Z.

(** Days from 1970-01-01 to the given date of the Gregorian calendar. *)
Definition days_from_civil (y m d : Z) : Z :=
  (let y' := if m <=? 2 then y - 1 else y in
   let era := y' / 400 in
   let yoe := y' - era * 400 in
   let doy := (153 * (if 2 <? m then m - 3 else m + 9) + 2) / 5 + d - 1 in
   let doe := yoe * 365 + yoe / 4 - yoe / 100 + doy in
   era * 146097 + doe - 719468)%Z.

(** The offset of a zone from UTC, in seconds. *)
Definition zone_offset (z : str) : option Z :=
  if bool_decide (z ∈ [lit "GMT"; lit "UT"; lit "UTC"]) then Some 0%Z
  else match z with
       | sg :: ds =>
           if ((sg =? 43) || (sg =? 45)) && (length ds =? 4)%nat
              && negb (bool_decide (z = lit "-0000")) then
             match number (take 2 ds), number (drop 2 ds) with
             | Some hh, Some mm =>
                 let off := (hh * 3600 + mm * 60)%Z in
                 Some (if sg =? 45 then (- off)%Z else off)
             | _, _ => None
             end
           else None
       | [] => None
       end.

(** [parsedate_to_datetime(data)] as microseconds since the epoch. *)
Definition parsedate_to_datetime (data : str) : option Z :=
  let fields := split data in
  let fields :=
    match fields with
    | day_name :: rest => if endswith (lit ",") day_name then rest else fields
    | [] => fields
    end in
  match fields with
  | [dd; mon; yyyy; time; zone] =>
      match number dd, index_of (lower mon) months 1%Z, number yyyy,
            map number (split_on 58 [] time), zone_offset zone with
      | Some d, Some m, Some y, [Some hh; Some mi; Some ss], Some off =>
          if ((length yyyy =? 4)%nat && (1 <=? d) && (d <=? days_in_month y m)
              && (hh <? 24) && (mi <? 60) && (ss <? 60))%Z
          then Some (((days_from_civil y m d * 86400
                       + hh * 3600 + mi * 60 + ss - off) * 1000000)%Z)
          else None
      | _, _, _, _, _ => None
      end
  | _ => None
  end.

End EmailUtils.

(** ** Membership steps of the proofs *)

(** The element is the one a loop has just visited, [done ++ [a]]. *)
Ltac elem_of_last := apply elem_of_app; right; now apply list_elem_of_singleton.

(** The element was among those visited before. *)
Ltac elem_of_front := apply elem_of_app; now left.

(** The element is the head of the list. *)
Ltac elem_of_head := apply elem_of_cons; now left.

(** ** The program *)

Section Newsbot.

(** The library functions the program calls: [stemmer.stem] and
    [lemmatizer.lemmatize] of NLTK, [json.loads], [ast.literal_eval], and
    [parsedate_to_datetime(...).astimezone(ZONE)] as microseconds since the
    epoch, [None] when it raises. *)
Variable stem : str -> str.
Variable lemmatize : str -> str.
Variable json_loads : str -> result value.
Variable literal_eval : str -> result value.
Variable parsedate : str -> option Z.

(** *** The Normalizer and the Similarity Matcher *)

(** [normalize(text)] *)
Definition normalize (text : str) : str :=
  let words := split (lower text) in
  let stemmed := map stem words in
  let lemmatized := map lemmatize stemmed in
  join (lit " ") lemmatized.

(** A history entry [{"title": ..., "pubDate": ...}] and a fetched article
    [{"title": ..., "link": ..., "pubDate": ...}]. *)
Record entry : Type := Entry { entry_title : str; entry_pubDate : str }.
Record article : Type := Article { title : str; link : str; pubDate : str }.

Definition history : Type := dict str (list entry).

(** [MATCH_THRESHOLD = 0.4] *)
Definition MATCH_THRESHOLD : Q := 4 # 10.

(** [set(normalize(t).split())] *)
Definition token_set (t : str) : gset str := list_to_set (split (normalize t)).

(** [len(overlap) / len(norm_title_tokens)]: true division of two
    integers raises [ZeroDivisionError] on a zero divisor.  The quotient is
    kept exact; the program's double agrees with it in every comparison
    against 0.4 as long as the divisor is below 2^54. *)
Definition true_div (a b : nat) : result Q :=
  match b with
  | O => Raise ZeroDivisionError
  | S _ => Return (Z.of_nat a # Pos.of_nat b)
  end.

(** The inner loop of [is_in_history] over one topic's articles:
    [Return true] when the function has returned [True], [Return false]
    when the loop has run to its end. *)
Fixpoint scan_articles (norm_title_tokens : gset str) (articles : list entry)
  : result bool :=
  match articles with
  | [] => Return false
  | a :: rest =>
      let past_tokens := token_set (entry_title a) in
      if decide (past_tokens = ∅) then scan_articles norm_title_tokens rest
      else
        let overlap := norm_title_tokens ∩ past_tokens in
        similarity <- true_div (size overlap) (size norm_title_tokens) ;;
        if Qle_bool MATCH_THRESHOLD similarity then Return true
        else scan_articles norm_title_tokens rest
  end.

(** The outer loop over [history.values()]. *)
Fixpoint scan_history (norm_title_tokens : gset str) (topics : list (list entry))
  : result bool :=
  match topics with
  | [] => Return false
  | articles :: rest =>
      found <- scan_articles norm_title_tokens articles ;;
      if found then Return true else scan_history norm_title_tokens rest
  end.

(** [is_in_history(article_title, history)] *)
Definition is_in_history (article_title : str) (h : history) : result bool :=
  let norm_title_tokens := token_set article_title in
  scan_history norm_title_tokens (dict_values h).

(** *** The Resilient Structured-Output Parser *)

(** [try: return body / except <catch>: ...] followed by [rest]: the value
    of [body] is returned, an exception of a caught class continues with
    [rest], any other exception propagates. *)
Definition try_return {A} (body : result A) (catch : exn -> bool)
    (rest : result A) : result A :=
  match body with
  | Return a => Return a
  | Raise e => if catch e then rest else Raise e
  end.

(** [except json.JSONDecodeError] and [except Exception]. *)
Definition except_JSONDecodeError (e : exn) : bool :=
  match e with JSONDecodeError => true | _ => false end.
Definition except_Exception (e : exn) : bool := true.

Definition fence : str := lit "```".

(** [re.sub(r"^```(?:json)?\s*", "", text)] *)
Definition sub_opening_fence (text : str) : str :=
  if startswith fence text then
    let t := drop 3 text in
    let t := if startswith (lit "json") t then drop 4 t else t in
    lstrip isspace t
  else text.

(** [re.sub(r"\s*```$", "", text)]: [$] also matches just before a final
    newline, which then stays. *)
Definition sub_closing_fence (text : str) : str :=
  let r := rev text in
  if startswith fence r then rev (lstrip isspace (drop 3 r))
  else match r with
       | 10 :: r' =>
           if startswith fence r' then rev (10 :: lstrip isspace (drop 3 r'))
           else text
       | _ => text
       end.

(** [strip_wrappers(text)] *)
Definition strip_wrappers (text : str) : str :=
  let text := strip text in
  let text := sub_opening_fence text in
  let text := sub_closing_fence text in
  text.

(** [balance_braces(text)] *)
Definition balance_braces (text : str) : str :=
  let open_braces := count 123 text in
  let close_braces := count 125 text in
  let text :=
    if (close_braces <? open_braces)%nat
    then text ++ repeat_char 125 (open_braces - close_braces)
    else if (open_braces <? close_braces)%nat
    then drop_last (close_braces - open_braces) (rstrip (N.eqb 125) text)
    else text in
  let open_brackets := count 91 text in
  let close_brackets := count 93 text in
  let text :=
    if (close_brackets <? open_brackets)%nat
    then text ++ repeat_char 93 (open_brackets - close_brackets)
    else if (open_brackets <? close_brackets)%nat
    then drop_last (close_brackets - open_brackets) (rstrip (N.eqb 93) text)
    else text in
  text.

(** The four [replace] calls on smart quotes. *)
Definition replace_smart_quotes (text : str) : str :=
  map (fun c => if (c =? 8220) || (c =? 8221) then 34
                else if (c =? 8216) || (c =? 8217) then 39 else c) text.

Definition is_closer (c : N) : bool := (c =? 93) || (c =? 125).

(** [\s*[\]}]] matches at the head of [s]. *)
Fixpoint closer_follows (s : str) : bool :=
  match s with
  | [] => false
  | c :: r => if is_closer c then true
              else if isspace c then closer_follows r else false
  end.

(** [re.sub(r",\s*([\]}])", r"\1", text)]: [dropping] is set between a
    matched comma and its closer. *)
Fixpoint sub_trailing_commas_from (dropping : bool) (s : str) : str :=
  match s with
  | [] => []
  | c :: r =>
      if dropping then
        if isspace c then sub_trailing_commas_from true r
        else c :: sub_trailing_commas_from false r
      else if (c =? 44) && closer_follows r then sub_trailing_commas_from true r
      else c :: sub_trailing_commas_from false r
  end.

Definition sub_trailing_commas (text : str) : str :=
  sub_trailing_commas_from false text.

(** The look-behind [(?<=[:\s])] on the previous character. *)
Definition after_colon_or_space (prev : option N) : bool :=
  match prev with
  | Some p => (p =? 58) || isspace p
  | None => false
  end.

(** [re.sub(r"(?<=[:\s])'([^']*?)'", r'"\1"', text)]: [inside] is set
    between a matched opening quote and its closing quote. *)
Fixpoint sub_single_quotes_from (prev : option N) (inside : bool) (s : str)
  : str :=
  match s with
  | [] => []
  | c :: r =>
      if inside then
        if c =? 39 then 34 :: sub_single_quotes_from (Some c) false r
        else c :: sub_single_quotes_from (Some c) true r
      else if (c =? 39) && after_colon_or_space prev && existsb (N.eqb 39) r
      then 34 :: sub_single_quotes_from (Some c) true r
      else c :: sub_single_quotes_from (Some c) false r
  end.

Definition sub_single_quotes (text : str) : str :=
  sub_single_quotes_from None false text.

Definition is_bracket (c : N) : bool := (c =? 91) || (c =? 93).

(** A closing brace comes in [s] before any bracket. *)
Fixpoint brace_before_bracket (s : str) : bool :=
  match s with
  | [] => false
  | c :: r => if c =? 125 then true
              else if is_bracket c then false else brace_before_bracket r
  end.

(** [\s*\}] matches at the head of [s]. *)
Fixpoint brace_follows (s : str) : bool :=
  match s with
  | [] => false
  | c :: r => if c =? 125 then true
              else if isspace c then brace_follows r else false
  end.

(** [re.sub(r'(\[[^\[\]]*?)\s*\}', r'\1]', text)]: [inside] is set
    between a matched opening bracket and the brace that closes it; the
    white space just before that brace is outside the group. *)
Fixpoint sub_array_brace_from (inside : bool) (s : str) : str :=
  match s with
  | [] => []
  | c :: r =>
      if inside then
        if c =? 125 then 93 :: sub_array_brace_from false r
        else if isspace c && brace_follows r then sub_array_brace_from true r
        else c :: sub_array_brace_from true r
      else if (c =? 91) && brace_before_bracket r
      then c :: sub_array_brace_from true r
      else c :: sub_array_brace_from false r
  end.

Definition sub_array_brace (text : str) : str :=
  sub_array_brace_from false text.

(** The class of control characters, byte-order marks and directional
    marks: U+0000-U+001F, U+007F, U+202A-U+202E, U+2060, U+FEFF. *)
Definition is_control (c : N) : bool :=
  (c <=? 31) || (c =? 127) || ((8234 <=? c) && (c <=? 8238))
  || (c =? 8288) || (c =? 65279).

Definition strip_control (text : str) : str :=
  List.filter (fun c => negb (is_control c)) text.

(** [fix_common_json_errors(text)] *)
Definition fix_common_json_errors (text : str) : str :=
  let text := replace_smart_quotes text in
  let text := sub_trailing_commas text in
  let text := sub_single_quotes text in
  let text := sub_array_brace text in
  let text := strip_control text in
  let text := balance_braces text in
  text.

(** [re.search(r"\{.*\}", cleaned, re.DOTALL)]: from the first opening
    brace to the last closing brace after it. *)
Definition search_braces (text : str) : option str :=
  match lstrip (fun c => negb (c =? 123)) text with
  | [] => None
  | b :: rest =>
      if existsb (N.eqb 125) rest
      then Some (rstrip (fun c => negb (c =? 125)) (b :: rest))
      else None
  end.

(** The regex fallback, the body of the last [try]. *)
Definition regex_fallback (cleaned : str) : result (option value) :=
  match search_braces cleaned with
  | Some candidate =>
      let candidate := fix_common_json_errors candidate in
      v <- json_loads candidate ;; Return (Some v)
  | None => Return None
  end.

(** [safe_parse_json(raw)] *)
Definition safe_parse_json (raw : str) : result value :=
  try_return (json_loads raw) except_JSONDecodeError (
    let raw := strip_wrappers raw in
    let cleaned := fix_common_json_errors raw in
    try_return (json_loads cleaned) except_JSONDecodeError (
      try_return (literal_eval cleaned) except_Exception (
        match regex_fallback cleaned with
        | Return (Some v) => Return v
        | Return None | Raise _ => Return (VDict [])
        end))).

(** The value is a mapping from strings to lists of strings. *)
Definition is_str (v : value) : bool :=
  match v with VStr _ => true | _ => false end.

Definition is_selection (v : value) : bool :=
  match v with
  | VDict items =>
      forallb (fun kv : value * value =>
        is_str kv.1 &&
        match kv.2 with VList titles => forallb is_str titles | _ => false end)
        items
  | _ => false
  end.

(** *** The Digest Reconciler ([main], from "Deduplicate headlines" to
    "Rebuild article entries") *)

(** One turn of [for title in titles] of the deduplication, on
    [(seen_normalized_titles, deduped_titles)]. *)
Definition dedup_title (st : gset str * list str) (t : str)
  : gset str * list str :=
  let '(seen_normalized_titles, deduped_titles) := st in
  let norm_title := normalize t in
  if decide (norm_title ∈ seen_normalized_titles) then st
  else ({[norm_title]} ∪ seen_normalized_titles, deduped_titles ++ [t]).

(** One turn of [for topic, titles in digest_titles.items()], on
    [(seen_normalized_titles, deduped_digest_titles)]. *)
Definition dedup_topic (st : gset str * dict str (list str))
    (item : str * list str) : gset str * dict str (list str) :=
  let '(seen_normalized_titles, deduped_digest_titles) := st in
  let '(topic, titles) := item in
  let '(seen_normalized_titles, deduped_titles) :=
    fold_left dedup_title titles (seen_normalized_titles, []) in
  (seen_normalized_titles,
   match deduped_titles with
   | [] => deduped_digest_titles
   | _ => dict_set deduped_digest_titles topic deduped_titles
   end).

(** The pass "Deduplicate headlines". *)
Definition deduplicate_headlines (digest_titles : dict str (list str))
  : dict str (list str) :=
  (fold_left dedup_topic digest_titles (∅, [])).2.

(** [for a in articles: if ...: ...; break]: the first article, if any,
    that passes the test. *)
Definition first_match (t : str) (seen_titles : gset str)
    (articles : list article) : option article :=
  List.find (fun a => bool_decide (normalize (title a) = normalize t)
                      && bool_decide (normalize t ∉ seen_titles)) articles.

(** One turn of [for title in titles] of the rebuild, on
    [(selected, seen_titles)]. *)
Definition rebuild_title (articles : list article)
    (st : list article * gset str) (t : str) : list article * gset str :=
  let '(selected, seen_titles) := st in
  match first_match t seen_titles articles with
  | Some a => (selected ++ [a], {[normalize t]} ∪ seen_titles)
  | None => st
  end.

(** One turn of [for topic, titles in digest_titles.items()], on [digest]. *)
Definition rebuild_topic (full_articles : dict str (list article))
    (digest : dict str (list article)) (item : str * list str)
  : dict str (list article) :=
  let '(topic, titles) := item in
  let articles := default [] (dict_get full_articles topic) in
  let '(selected, _) := fold_left (rebuild_title articles) titles ([], ∅) in
  match selected with
  | [] => digest
  | _ => dict_set digest topic selected
  end.

(** The pass "Rebuild article entries". *)
Definition rebuild_article_entries (full_articles : dict str (list article))
    (digest_titles : dict str (list str)) : dict str (list article) :=
  fold_left (rebuild_topic full_articles) digest_titles [].

(** Both passes: from the selection and the candidate articles to the
    digest. *)
Definition reconcile (full_articles : dict str (list article))
    (digest_titles : dict str (list str)) : dict str (list article) :=
  rebuild_article_entries full_articles (deduplicate_headlines digest_titles).

(** *** The History Store ([main], from the send to the save) *)

(** [topic.replace(" ", "_").lower()] *)
Definition topic_key (topic : str) : str :=
  lower (map (fun c => if c =? 32 then 95 else c) topic).

(** [l[-n:]] for [n > 0] *)
Definition last_n {A} (n : nat) (l : list A) : list A := drop (length l - n) l.

(** One turn of [for article in articles] on [history[key]]. *)
Definition append_article (existing_titles : gset str) (entries : list entry)
    (a : article) : list entry :=
  if decide (normalize (title a) ∈ existing_titles) then entries
  else entries ++ [Entry (title a) (pubDate a)].

(** One turn of [for topic, articles in digest.items()] on [history]. *)
Definition record_topic (h : history) (item : str * list article) : history :=
  let '(topic, articles) := item in
  let key := topic_key topic in
  let h := match dict_get h key with None => dict_set h key [] | Some _ => h end in
  let entries := default [] (dict_get h key) in
  let existing_titles : gset str :=
    list_to_set (map (fun e => normalize (entry_title e)) entries) in
  let entries := fold_left (append_article existing_titles) articles entries in
  dict_set h key (last_n 40 entries).

(** The loop that records a sent digest. *)
Definition record_sent (digest : dict str (list article)) (h : history)
  : history :=
  fold_left record_topic digest h.

(** [timedelta(days=30)] in microseconds. *)
Definition thirty_days : Z := (30 * 86400 * 1000000)%Z.

(** The test of the pruning loop on one entry, [now] being
    [datetime.now(ZONE)]: its date is read and is not before
    [one_month_ago]. *)
Definition is_recent (now : Z) (e : entry) : bool :=
  let one_month_ago := (now - thirty_days)%Z in
  match parsedate (entry_pubDate e) with
  | Some pub_date => (one_month_ago <=? pub_date)%Z
  | None => false
  end.

(** One turn of [for topic in list(history.keys())]. *)
Definition prune_topic (now : Z) (h : history) (topic : str) : history :=
  let new_articles :=
    List.filter (is_recent now) (default [] (dict_get h topic)) in
  match new_articles with
  | [] => dict_del h topic
  | _ => dict_set h topic new_articles
  end.

(** The loop "Remove articles older than 1 month from history". *)
Definition prune_history (now : Z) (h : history) : history :=
  fold_left (prune_topic now) (dict_keys h) h.

(** [main] from the send to the save: [send] is the outcome of the
    [with smtplib.SMTP(...)] block; the result is the history written to
    [history.json]. *)
Definition send_and_save (send : result unit) (now : Z)
    (digest : dict str (list article)) (h : history) : history :=
  let h :=
    match send with
    | Return _ => record_sent digest h
    | Raise _ => h
    end in
  prune_history now h.

(** [main] from the selection returned by [prioritize_with_gemini]:
    [None] when it returns before the save ("no digest-worthy content"),
    else the history written to [history.json]. *)
Definition main_from_selection (h : history)
    (full_articles : dict str (list article))
    (digest_titles : dict str (list str)) (send : result unit) (now : Z)
  : option history :=
  let digest := reconcile full_articles digest_titles in
  match digest with
  | [] => None
  | _ => Some (send_and_save send now digest h)
  end.

(** *** The sheets of settings *)

(** [int(s)] on a [str], [None] when it raises [ValueError], and whether
    [float(s)] returns rather than raises [ValueError]. *)
Variable py_int : str -> option Z.
Variable py_float : str -> bool.

(** What a loader gets from its sheet: the rows that [csv.reader] yields
    from the text of the response, the header first, or the exception
    raised by the request or by the reading. *)
Definition sheet : Type := result (list (list str)).

(** One turn of [for row in reader] of [load_config_from_sheet]; the
    value is an [int], a [float], kept as the text it is read from, or a
    [str]. *)
Definition config_row (config : dict str value) (row : list str)
  : dict str value :=
  match row with
  | c0 :: c1 :: _ =>
      let key := strip c0 in
      let val := strip c1 in
      if contains (lit ".") val then
        if py_float val then dict_set config key (VFloat val)
        else dict_set config key (VStr val)
      else
        match py_int val with
        | Some z => dict_set config key (VInt z)
        | None => dict_set config key (VStr val)
        end
  | _ => config
  end.

(** [load_config_from_sheet(url)]; [next(reader, None)] passes the first
    row. *)
Definition load_config_from_sheet (response : sheet)
  : option (dict str value) :=
  match response with
  | Return rows => Some (fold_left config_row (tail rows) [])
  | Raise _ => None
  end.

(** One turn of [for row in reader] of [load_csv_weights]. *)
Definition weights_row (weights : dict str Z) (row : list str) : dict str Z :=
  match row with
  | c0 :: c1 :: _ =>
      match py_int c1 with
      | Some z => dict_set weights (strip c0) z
      | None => weights
      end
  | _ => weights
  end.

(** [load_csv_weights(url)] *)
Definition load_csv_weights (response : sheet) : option (dict str Z) :=
  match response with
  | Return rows => Some (fold_left weights_row (tail rows) [])
  | Raise _ => None
  end.

(** One turn of [for row in reader] of [load_overrides]. *)
Definition overrides_row (overrides : dict str str) (row : list str)
  : dict str str :=
  match row with
  | c0 :: c1 :: _ => dict_set overrides (lower (strip c0)) (lower (strip c1))
  | _ => overrides
  end.

(** [load_overrides(url)] *)
Definition load_overrides (response : sheet) : option (dict str str) :=
  match response with
  | Return rows => Some (fold_left overrides_row (tail rows) [])
  | Raise _ => None
  end.

(** *** The preferences given to the model *)

(** [sorted(d.items(), key=lambda x: -x[1])]: a stable sort, which fixes
    its result: the items by decreasing score, those of one score in the
    order of the [dict]. *)
Fixpoint insert_by_score (x : str * Z) (l : list (str * Z)) : list (str * Z) :=
  match l with
  | [] => [x]
  | y :: r => if (- x.2 <=? - y.2)%Z then x :: y :: r
              else y :: insert_by_score x r
  end.

Definition sorted_by_score (items : list (str * Z)) : list (str * Z) :=
  foldr insert_by_score [] items.

(** [f"- {topic}: {score}"] and [f"- {term}"] *)
Definition score_line (item : str * Z) : str :=
  lit "- " ++ item.1 ++ lit ": " ++ str_of_int item.2.

Definition term_line (term : str) : str := lit "- " ++ term.

(** [[k for k, v in overrides.items() if v == action]] *)
Definition terms_with (action : str) (overrides : dict str str) : list str :=
  map fst (List.filter (fun kv : str * str => bool_decide (kv.2 = action)) overrides).

Section Preferences.

(** The global [DEMOTE_FACTOR] as an f-string writes it. *)
Variable DEMOTE_FACTOR_text : str.

Definition topics_header : str := lit "User topics (ranked 1-5 in importance):".
Definition keywords_header : str :=
  10 :: lit "Headline keywords (ranked 1-5 in importance):".
Definition banned_header : str :=
  10 :: lit "Banned terms (must not appear in topics or headlines):".
Definition demoted_header : str :=
  10 :: lit "Demoted terms (consider headlines with these terms "
     ++ DEMOTE_FACTOR_text
     ++ lit " times as important to the user, all else equal):".

(** The list [preferences] at the end of [build_user_preferences]. *)
Definition preference_lines (topics keywords : dict str Z)
    (overrides : dict str str) : list str :=
  let preferences := [] in
  let preferences :=
    match topics with
    | [] => preferences
    | _ => preferences ++ [topics_header]
             ++ map score_line (sorted_by_score topics)
    end in
  let preferences :=
    match keywords with
    | [] => preferences
    | _ => preferences ++ [keywords_header]
             ++ map score_line (sorted_by_score keywords)
    end in
  let banned := terms_with (lit "ban") overrides in
  let demoted := terms_with (lit "demote") overrides in
  let preferences :=
    match banned with
    | [] => preferences
    | _ => preferences ++ [banned_header] ++ map term_line banned
    end in
  let preferences :=
    match demoted with
    | [] => preferences
    | _ => preferences ++ [demoted_header] ++ map term_line demoted
    end in
  preferences.

(** [build_user_preferences(topics, keywords, overrides)] *)
Definition build_user_preferences (topics keywords : dict str Z)
    (overrides : dict str str) : str :=
  join [10] (preference_lines topics keywords overrides).

End Preferences.

(** *** The feed of a topic *)

(** An [item] of the feed, read through [findtext]: [None] when the item
    has no such element, the empty text when the element has no text. *)
Record rss_item : Type :=
  RssItem { item_title : option str;
            item_link : option str;
            item_pubDate : option str }.

(** An article as [fetch_articles_for_topic] returns it. *)
Record fetched_article : Type :=
  FetchedArticle { fetched_title : str;
                   fetched_link : option str;
                   fetched_pubDate : str }.

(** [for item in root.findall("./channel/item")], from the items still to
    read and the list [articles].  [parsedate_to_datetime] raises on
    [None] as on a date it cannot read. *)
Fixpoint fetch_loop (time_cutoff max_articles : Z) (items : list rss_item)
    (articles : list fetched_article) : list fetched_article :=
  match items with
  | [] => articles
  | item :: rest =>
      let title :=
        match item_title item with
        | Some (c :: t) => c :: t
        | Some [] | None => lit "No title"
        end in
      let link := item_link item in
      match item_pubDate item with
      | None => fetch_loop time_cutoff max_articles rest articles
      | Some pubDate =>
          match parsedate pubDate with
          | None => fetch_loop time_cutoff max_articles rest articles
          | Some pub_dt =>
              if (pub_dt <=? time_cutoff)%Z
              then fetch_loop time_cutoff max_articles rest articles
              else
                let articles := articles ++ [FetchedArticle title link pubDate] in
                if (max_articles <=? Z.of_nat (length articles))%Z then articles
                else fetch_loop time_cutoff max_articles rest articles
          end
      end
  end.

(** [fetch_articles_for_topic(topic, max_articles)]: [response] is what
    the request, its parse and [findall] give, the items of the feed or
    the exception raised; [time_cutoff] is
    [datetime.now(ZONE) - timedelta(hours=MAX_ARTICLE_HOURS)]. *)
Definition fetch_articles_for_topic (response : result (list rss_item))
    (time_cutoff max_articles : Z) : list fetched_article :=
  match response with
  | Return items => fetch_loop time_cutoff max_articles items []
  | Raise _ => []
  end.

(** *** The candidates of a run ([main], "Fetch all articles for all
    topics") *)

(** [contains_banned_keyword(text, banned_terms)] *)
Definition contains_banned_keyword (text : str) (banned_terms : list str)
  : bool :=
  let norm_text := normalize text in
  existsb (fun banned => contains banned norm_text) banned_terms.

Section Candidates.

(** The articles are read through their ["title"] only. *)
Context {A : Type} (title_of : A -> str).

(** The comprehension [allowed_articles]: an exception raised by the test
    of an article ends it. *)
Fixpoint allowed_articles (h : history) (banned_terms : list str)
    (articles : list A) : result (list A) :=
  match articles with
  | [] => Return []
  | a :: rest =>
      duplicate <- is_in_history (title_of a) h ;;
      let keep :=
        negb duplicate
        && negb (contains_banned_keyword (title_of a) banned_terms) in
      allowed <- allowed_articles h banned_terms rest ;;
      Return (if keep then a :: allowed else allowed)
  end.

(** One turn of [for topic in TOPIC_WEIGHTS], on
    [(headlines_to_send, full_articles)]; [fetch topic] is what
    [fetch_articles_for_topic(topic, 10)] returns. *)
Definition gather_topic (fetch : str -> list A) (h : history)
    (overrides : dict str str)
    (st : dict str (list str) * dict str (list A)) (topic : str)
  : result (dict str (list str) * dict str (list A)) :=
  let '(headlines_to_send, full_articles) := st in
  let articles := fetch topic in
  match articles with
  | [] => Return st
  | _ =>
      let banned_terms := terms_with (lit "ban") overrides in
      allowed <- allowed_articles h banned_terms articles ;;
      match allowed with
      | [] => Return st
      | _ => Return (dict_set headlines_to_send topic (map title_of allowed),
                     dict_set full_articles topic allowed)
      end
  end.

(** The loop over the topics, from a state. *)
Fixpoint gather_from (fetch : str -> list A) (h : history)
    (overrides : dict str str) (topics : list str)
    (st : dict str (list str) * dict str (list A))
  : result (dict str (list str) * dict str (list A)) :=
  match topics with
  | [] => Return st
  | topic :: rest =>
      st <- gather_topic fetch h overrides st topic ;;
      gather_from fetch h overrides rest st
  end.

(** The candidates of the run: [headlines_to_send] and [full_articles]. *)
Definition gather (topic_weights : dict str Z) (fetch : str -> list A)
    (h : history) (overrides : dict str str)
  : result (dict str (list str) * dict str (list A)) :=
  gather_from fetch h overrides (dict_keys topic_weights) ([], []).

(** [sum(len(v) for v in headlines_to_send.values())] *)
Definition total_headlines (headlines_to_send : dict str (list str)) : nat :=
  foldr Nat.add 0%nat (map (@length str) (dict_values headlines_to_send)).

End Candidates.

(** *** The answer of the model *)

(** [prioritize_with_gemini] from the answer of the model: [response] is
    [getattr(response, "text", None)], or the exception that
    [generate_content] or the reading of the text raised.  Without a text,
    [json.loads(None)] raises [TypeError] out of [safe_parse_json], which
    the handler catches as any other exception. *)
Definition prioritize_with_gemini (response : result (option str))
  : result value :=
  text <- response ;;
  match text with
  | Some raw =>
      let raw :=
        if negb (bool_decide (raw = [])) && startswith fence (strip raw) then
          let raw := sub_opening_fence (strip raw) in
          let raw := sub_closing_fence (strip raw) in
          raw
        else raw in
      try_return (safe_parse_json raw) except_Exception (Return (VDict []))
  | None => Return (VDict [])
  end.

(** *** The addresses of the message ([main], "Compose and send email") *)


(** [EMAIL_BCC_LIST], from the value of [MAILTO]. *)
Definition EMAIL_BCC_LIST (mailto : str) : list str :=
  let EMAIL_BCC := strip mailto in
  map strip
      (List.filter (fun email => negb (bool_decide (strip email = [])))
                   (split_at 44 [] EMAIL_BCC)).

(** [msg["Bcc"]] *)
Definition bcc_header (mailto : str) : str :=
  join (lit ", ") (EMAIL_BCC_LIST mailto).

(** *** Notions the properties are stated with *)

(** The test of [is_in_history] on one historical entry, for the token
    set [T] of the candidate: the entry has tokens, and the share of the
    candidate's tokens found among them reaches the threshold. *)
Definition overlaps (T : gset str) (e : entry) : Prop :=
  let H := token_set (entry_title e) in
  H <> ∅ /\ (MATCH_THRESHOLD <= Z.of_nat (size (T ∩ H)) # Pos.of_nat (size T))%Q.

(** The reduced tokens of a text: its lowercased words after the
    stemmer and the lemmatizer. *)
Definition reduced_tokens (text : str) : list str :=
  map lemmatize (map stem (split (lower text))).

(** A token as [str.split] yields them: not empty, free of white space. *)
Definition is_token (w : str) : bool :=
  negb (bool_decide (w = [])) && forallb (fun c => negb (isspace c)) w.

(** A token that lowercasing and the two-stage reduction leave as it is. *)
Definition is_stable (w : str) : bool :=
  bool_decide (lower w = w) && bool_decide (lemmatize (stem w) = w).

(** The sequence of a topic's key once the articles of a sent digest are
    appended to it, before it is truncated. *)
Definition appended_entries (h : history) (topic : str)
    (articles : list article) : list entry :=
  let entries := default [] (dict_get h (topic_key topic)) in
  let existing_titles : gset str :=
    list_to_set (map (fun e => normalize (entry_title e)) entries) in
  fold_left (append_article existing_titles) articles entries.

(** What pruning leaves of a topic key's sequence, if anything. *)
Definition pruned_entries (now : Z) (entries : option (list entry))
  : option (list entry) :=
  match entries with
  | Some es =>
      match List.filter (is_recent now) es with
      | [] => None
      | kept => Some kept
      end
  | None => None
  end.

(** Every topic key has entries and all of them pass the pruning test. *)
Definition all_recent (now : Z) (h : history) : Prop :=
  Forall (fun item : str * list entry =>
            item.2 <> [] /\ forallb (is_recent now) item.2 = true) h.

(** The value that [load_config_from_sheet] stores for the text of a
    cell. *)
Definition setting_of (val : str) : value :=
  if contains (lit ".") val then
    if py_float val then VFloat val else VStr val
  else
    match py_int val with
    | Some z => VInt z
    | None => VStr val
    end.

(** [ranked] holds the items of a [dict] by decreasing score, those of
    one score in the order the [dict] has them. *)
Definition ranked_by_score (ranked items : list (str * Z)) : Prop :=
  Permutation ranked items /\
  StronglySorted (fun x y : str * Z => (y.2 <= x.2)%Z) ranked /\
  forall score : Z,
    List.filter (fun x : str * Z => bool_decide (x.2 = score)) ranked =
    List.filter (fun x : str * Z => bool_decide (x.2 = score)) items.

(** The article that an item of the feed gives, if it gives one: its date
    is read and is after the cutoff. *)
Definition fresh_article (time_cutoff : Z) (item : rss_item)
  : option fetched_article :=
  match item_pubDate item with
  | Some pubDate =>
      match parsedate pubDate with
      | Some pub_dt =>
          if (pub_dt <=? time_cutoff)%Z then None
          else Some (FetchedArticle
                       (match item_title item with
                        | Some (c :: t) => c :: t
                        | Some [] | None => lit "No title"
                        end)
                       (item_link item) pubDate)
      | None => None
      end
  | None => None
  end.

(** The test of the comprehension [allowed_articles] on one article, when
    it raises nothing: the title is no duplicate of the history and holds
    no banned term. *)
Definition allowed_test {A : Type} (title_of : A -> str) (h : history)
    (banned_terms : list str) (a : A) : bool :=
  match is_in_history (title_of a) h with
  | Return false => negb (contains_banned_keyword (title_of a) banned_terms)
  | _ => false
  end.

(** The headlines of the candidate articles, topic by topic. *)
Definition headlines_of {A : Type} (title_of : A -> str)
    (full_articles : dict str (list A)) : dict str (list str) :=
  map (fun item : str * list A => (item.1, map title_of item.2)) full_articles.

(** What pruning leaves of an item of the history, if anything. *)
Definition pruned_item (now : Z) (item : str * list entry)
  : option (str * list entry) :=
  match List.filter (is_recent now) item.2 with
  | [] => None
  | kept => Some (item.1, kept)
  end.

(** No two entries of the sequence have the same normalized title. *)
Definition distinct_titles (entries : list entry) : Prop :=
  NoDup (map (fun e => normalize (entry_title e)) entries).

(** The cascade as the specification words it: four stages attempted in
    order, each only on failure of the previous one, and the empty mapping
    when all four fail.  A stage is [None] when it fails. *)
Definition succeeded {A} (r : result A) : option A :=
  match r with Return a => Some a | Raise _ => None end.

Definition stages (raw : str) : list (option value) :=
  let cleaned := fix_common_json_errors (strip_wrappers raw) in
  [ succeeded (json_loads raw);
    succeeded (json_loads cleaned);
    succeeded (literal_eval cleaned);
    match regex_fallback cleaned with Return (Some v) => Some v | _ => None end ].

Fixpoint first_success (l : list (option value)) : option value :=
  match l with
  | [] => None
  | Some v :: _ => Some v
  | None :: rest => first_success rest
  end.

Definition cascade (raw : str) : value :=
  default (VDict []) (first_success (stages raw)).

(** [json.loads] fails on [text] with no other exception than
    [JSONDecodeError]. *)
Definition decode_errors_only (text : str) : Prop :=
  forall e, json_loads text = Raise e -> e = JSONDecodeError.

(** *** Sample data *)

Definition chipmaker_entry : entry :=
  Entry (lit "Chipmaker posts record profit") (lit "Mon, 02 Nov 2026 09:00:00 GMT").

Definition sample_history : history :=
  [ (lit "technology", [ chipmaker_entry ]);
    (lit "business",
     [ Entry (lit "Retail sales slow") (lit "Thu, 01 Oct 2026 09:00:00 GMT");
       Entry (lit "Old story") (lit "not a date") ]) ].

(** 3 November 2026, 10:15:00 UTC. *)
Definition sample_now : Z := 1793700900000000%Z.

Definition sample_article (t : String.string) : article :=
  Article (lit t) (lit "https://news.example/item")
          (lit "Tue, 03 Nov 2026 08:00:00 GMT").

Definition sample_candidates : dict str (list article) :=
  [ (lit "Tech", [ sample_article "Apple launches phone";
                   sample_article "Markets rally" ]);
    (lit "Biz", [ sample_article "Markets Rally";
                  sample_article "Oil falls" ]) ].

Definition sample_selection : dict str (list str) :=
  [ (lit "Tech", [ lit "apple launch phones"; lit "Markets rally"; lit "made up" ]);
    (lit "Biz", [ lit "markets rallies"; lit "Oil falls" ]);
    (lit "Sci", [ lit "Oil falls" ]) ].

(** A key with 44 entries, numbered from the oldest. *)
Definition numbered_entry (i : nat) : entry :=
  Entry (lit "story " ++ [48 + N.of_nat (i / 10); 48 + N.of_nat (i mod 10)])
        (lit "Mon, 02 Nov 2026 09:00:00 GMT").

Definition full_history : history :=
  [ (lit "tech", map numbered_entry (seq 0 44)) ].

Definition one_more : dict str (list article) :=
  [ (lit "Tech", [ sample_article "Apple launches phone" ]) ].

(** [{"A": ["x"]}] and [{"A": "x"}] *)
Definition sample_json : str :=
  lit "{" ++ quoted "A" ++ lit ": [" ++ quoted "x" ++ lit "]}".

Definition sample_json_of_strings : str :=
  lit "{" ++ quoted "A" ++ lit ": " ++ quoted "x" ++ lit "}".

(** A history whose only title has no word. *)
Definition blank_history : history :=
  [ (lit "technology",
     [ Entry (lit "   ") (lit "Mon, 02 Nov 2026 09:00:00 GMT") ]) ].

(** A feed read on 3 November 2026 at 10:15 UTC with a cutoff of six
    hours: an item of the morning, an item of the day before, an item
    without date and an item of the morning without title. *)
Definition sample_feed : list rss_item :=
  [ RssItem (Some (lit "Apple launches phone"))
            (Some (lit "https://news.example/1"))
            (Some (lit "Tue, 03 Nov 2026 08:00:00 GMT"));
    RssItem (Some (lit "Old news"))
            (Some (lit "https://news.example/2"))
            (Some (lit "Mon, 02 Nov 2026 09:00:00 GMT"));
    RssItem (Some (lit "No date")) None None;
    RssItem (Some []) None (Some (lit "Tue, 03 Nov 2026 09:30:00 GMT")) ].

Definition sample_cutoff : Z := (sample_now - 6 * 3600 * 1000000)%Z.

(** The sheets of a run and what the feeds give for its topics: one
    article of [Tech] is in the sample history, one of [Biz] holds a
    banned term. *)
Definition sample_topic_weights : dict str Z :=
  [ (lit "Tech", 5%Z); (lit "Biz", 3%Z) ].

Definition sample_overrides : dict str str :=
  [ (lit "oil", lit "ban"); (lit "rally", lit "demote") ].

Definition sample_feeds : dict str (list article) :=
  [ (lit "Tech", [ sample_article "Apple launches phone";
                   sample_article "Chipmaker posts record profit";
                   sample_article "Markets rally" ]);
    (lit "Biz", [ sample_article "Markets Rally";
                  sample_article "Oil falls" ]) ].

Definition sample_fetch (topic : str) : list article :=
  default [] (dict_get sample_feeds topic).

Definition sample_full_articles : dict str (list article) :=
  [ (lit "Tech", [ sample_article "Apple launches phone";
                   sample_article "Markets rally" ]);
    (lit "Biz", [ sample_article "Markets Rally" ]) ].

(** A sheet of overrides with a blank term marked [Ban]. *)
Definition blank_ban_rows : list (list str) :=
  [ [ lit "oil"; lit "demote" ]; [ lit " "; lit "Ban" ] ].

(** ** Properties *)

(** *** Loops and dictionaries *)

(** An invariant of a loop holds after it: [P done state] relates the
    items already visited to the state they produced. *)
Lemma fold_left_invariant {A B : Type} (f : B -> A -> B) (b0 : B)
    (P : list A -> B -> Prop) :
  P [] b0 ->
  (forall done a b, P done b -> P (done ++ [a]) (f b a)) ->
  forall l, P l (fold_left f l b0).
Proof.
  intros Hinit Hturn l. induction l as [|a l IH] using rev_ind; [exact Hinit|].
  rewrite fold_left_app. cbn. now apply Hturn.
Qed.

Section DictFacts.
Context {K V : Type} `{EqDecision K}.
Implicit Types (d : dict K V) (k : K) (v : V).

Lemma dict_get_set_eq d k v : dict_get (dict_set d k v) k = Some v.
Proof.
  induction d as [|[k' v'] d IH]; cbn.
  - now rewrite decide_True.
  - destruct (decide (k' = k)) as [->|Hne]; cbn.
    + now rewrite decide_True.
    + now rewrite decide_False.
Qed.

Lemma dict_get_set_ne d k k' v :
  k <> k' -> dict_get (dict_set d k v) k' = dict_get d k'.
Proof.
  intros Hne. induction d as [|[k0 v0] d IH]; cbn.
  - now rewrite decide_False.
  - destruct (decide (k0 = k)) as [->|Hne0]; cbn.
    + now rewrite !decide_False.
    + now rewrite IH.
Qed.

Lemma dict_set_same d k v : dict_get d k = Some v -> dict_set d k v = d.
Proof.
  induction d as [|[k0 v0] d IH]; cbn; [discriminate|].
  destruct (decide (k0 = k)) as [->|Hne]; [congruence|].
  intros Hget. now rewrite IH.
Qed.

Lemma dict_get_None d k : dict_get d k = None <-> k ∉ dict_keys d.
Proof.
  unfold dict_keys. induction d as [|[k0 v0] d IH]; cbn.
  - split; [intros _; apply not_elem_of_nil | reflexivity].
  - rewrite not_elem_of_cons. destruct (decide (k0 = k)) as [->|Hne].
    + split; [discriminate | intros [Hk _]; congruence].
    + rewrite IH. split; [intros Hk; split; congruence | tauto].
Qed.

Lemma dict_get_elem_of d k v : dict_get d k = Some v -> (k, v) ∈ d.
Proof.
  induction d as [|[k0 v0] d IH]; cbn; [discriminate|].
  destruct (decide (k0 = k)) as [->|Hne].
  - intros [= ->]. elem_of_head.
  - intros Hget. apply elem_of_cons; right. now apply IH.
Qed.

Lemma elem_of_dict_get d k v :
  NoDup (dict_keys d) -> (k, v) ∈ d -> dict_get d k = Some v.
Proof.
  unfold dict_keys. induction d as [|[k0 v0] d IH]; cbn.
  - intros _ Hin. now apply elem_of_nil in Hin.
  - rewrite NoDup_cons. intros [Hfresh Hnd] Hin.
    apply elem_of_cons in Hin as [[= -> ->]|Hin].
    + now rewrite decide_True.
    + destruct (decide (k0 = k)) as [->|Hne]; [|now apply IH].
      exfalso. apply Hfresh. apply list_elem_of_fmap. now exists (k, v).
Qed.

Lemma dict_keys_set d k v :
  dict_keys (dict_set d k v) =
  if decide (k ∈ dict_keys d) then dict_keys d else dict_keys d ++ [k].
Proof.
  unfold dict_keys. induction d as [|[k0 v0] d IH]; cbn.
  - rewrite decide_False; [reflexivity | apply not_elem_of_nil].
  - destruct (decide (k0 = k)) as [->|Hne]; cbn.
    + rewrite decide_True; [reflexivity | elem_of_head].
    + rewrite IH. destruct (decide (k ∈ d.*1)) as [Hin|Hout].
      * rewrite decide_True; [reflexivity | apply elem_of_cons; now right].
      * rewrite decide_False; [reflexivity|].
        rewrite not_elem_of_cons. split; congruence.
Qed.

Lemma dict_set_NoDup d k v :
  NoDup (dict_keys d) -> NoDup (dict_keys (dict_set d k v)).
Proof.
  intros Hnd. rewrite dict_keys_set. destruct (decide (k ∈ dict_keys d)) as [|Hout];
    [assumption|].
  apply NoDup_app. repeat split; [assumption| |apply NoDup_singleton].
  intros x Hx Hx'. apply list_elem_of_singleton in Hx'. congruence.
Qed.

Lemma dict_keys_del d k : dict_keys (dict_del d k) ⊆ dict_keys d.
Proof.
  unfold dict_keys. induction d as [|[k0 v0] d IH]; cbn; [reflexivity|].
  destruct (decide (k0 = k)); cbn.
  - intros x Hx. apply elem_of_cons. now right.
  - intros x Hx. apply elem_of_cons in Hx as [->|Hx]; apply elem_of_cons;
      [now left | right; now apply IH].
Qed.

Lemma dict_del_NoDup d k :
  NoDup (dict_keys d) -> NoDup (dict_keys (dict_del d k)).
Proof.
  unfold dict_keys. induction d as [|[k0 v0] d IH]; cbn; [trivial|].
  rewrite NoDup_cons. intros [Hfresh Hnd].
  destruct (decide (k0 = k)); cbn; [assumption|].
  apply NoDup_cons. split; [|now apply IH].
  intros Hin. apply Hfresh. now apply (dict_keys_del d k).
Qed.

Lemma dict_get_del_eq d k :
  NoDup (dict_keys d) -> dict_get (dict_del d k) k = None.
Proof.
  unfold dict_keys. induction d as [|[k0 v0] d IH]; cbn; [reflexivity|].
  rewrite NoDup_cons. intros [Hfresh Hnd].
  destruct (decide (k0 = k)) as [->|Hne]; cbn.
  - now apply dict_get_None.
  - rewrite decide_False by assumption. now apply IH.
Qed.

Lemma dict_get_del_ne d k k' :
  k <> k' -> dict_get (dict_del d k) k' = dict_get d k'.
Proof.
  intros Hne. induction d as [|[k0 v0] d IH]; cbn; [reflexivity|].
  destruct (decide (k0 = k)) as [->|Hne0]; cbn.
  - now rewrite decide_False.
  - now rewrite IH.
Qed.

End DictFacts.


(** *** The Similarity Matcher *)

Lemma true_div_pos (a b : nat) :
  b <> 0%nat -> true_div a b = Return (Z.of_nat a # Pos.of_nat b).
Proof. destruct b; [congruence | reflexivity]. Qed.

Lemma size_token_set_pos (T : gset str) : T <> ∅ -> size T <> 0%nat.
Proof. intros Hne Hsz. apply Hne. now apply size_empty_iff, leibniz_equiv in Hsz. Qed.

(** With a candidate that has tokens, the scan of one topic never raises
    and finds exactly the entries that overlap. *)
Lemma scan_articles_spec (T : gset str) (articles : list entry) :
  T <> ∅ ->
  exists b, scan_articles T articles = Return b /\
            (b = true <-> Exists (overlaps T) articles).
Proof.
  intros HT. induction articles as [|a rest [b [Hscan Hb]]]; cbn.
  - exists false. split; [reflexivity|]. rewrite Exists_nil. split; [discriminate|tauto].
  - destruct (decide (token_set (entry_title a) = ∅)) as [Hempty|Hfull].
    + exists b. split; [assumption|]. rewrite Exists_cons, Hb.
      split; [tauto|]. intros [[Hne _]|?]; [contradiction|assumption].
    + rewrite true_div_pos by now apply size_token_set_pos. cbn.
      destruct (Qle_bool _ _) eqn:Hle.
      * exists true. split; [reflexivity|]. split; [intros _|reflexivity].
        apply Exists_cons. left. split; [assumption|]. now apply Qle_bool_iff.
      * exists b. split; [assumption|]. rewrite Exists_cons, Hb.
        split; [tauto|]. intros [[_ Hq]|?]; [|assumption].
        apply Qle_bool_iff in Hq. congruence.
Qed.

Lemma scan_history_spec (T : gset str) (topics : list (list entry)) :
  T <> ∅ ->
  exists b, scan_history T topics = Return b /\
            (b = true <-> Exists (Exists (overlaps T)) topics).
Proof.
  intros HT. induction topics as [|articles rest [b [Hscan Hb]]]; cbn.
  - exists false. split; [reflexivity|]. rewrite Exists_nil. split; [discriminate|tauto].
  - destruct (scan_articles_spec T articles HT) as [b1 [-> Hb1]]. cbn.
    destruct b1.
    + exists true. split; [reflexivity|]. split; [intros _|reflexivity].
      apply Exists_cons. left. now apply Hb1.
    + exists b. split; [assumption|]. rewrite Exists_cons, Hb.
      split; [tauto|]. intros [Hex|?]; [|assumption].
      apply Hb1 in Hex. discriminate.
Qed.

(** With a candidate that has no token, the scan of one topic passes the
    entries without tokens and raises at the first entry that has some. *)
Lemma scan_articles_no_tokens (articles : list entry) :
  scan_articles ∅ articles =
  if decide (Exists (fun e => token_set (entry_title e) <> ∅) articles)
  then Raise ZeroDivisionError else Return false.
Proof.
  induction articles as [|a rest IH]; cbn.
  - rewrite decide_False; [reflexivity|]. now rewrite Exists_nil.
  - destruct (decide (token_set (entry_title a) = ∅)) as [Hempty|Hfull].
    + rewrite IH. destruct (decide (Exists _ rest)) as [Hex|Hno].
      * rewrite decide_True; [reflexivity|]. now apply Exists_cons_tl.
      * rewrite decide_False; [reflexivity|]. rewrite Exists_cons. tauto.
    + rewrite decide_True by now apply Exists_cons_hd.
      now rewrite size_empty.
Qed.

Lemma scan_history_no_tokens (topics : list (list entry)) :
  scan_history ∅ topics =
  if decide (Exists (Exists (fun e => token_set (entry_title e) <> ∅)) topics)
  then Raise ZeroDivisionError else Return false.
Proof.
  induction topics as [|articles rest IH]; cbn.
  - rewrite decide_False; [reflexivity|]. now rewrite Exists_nil.
  - rewrite scan_articles_no_tokens.
    destruct (decide (Exists _ articles)) as [Hex|Hno]; cbn.
    + rewrite decide_True; [reflexivity|]. now apply Exists_cons_hd.
    + rewrite IH. destruct (decide (Exists _ rest)) as [Hex'|Hno'].
      * rewrite decide_True; [reflexivity|]. now apply Exists_cons_tl.
      * rewrite decide_False; [reflexivity|]. rewrite Exists_cons. tauto.
Qed.

(** Entries of the history, whatever their topic. *)
Lemma Exists_dict_values {V : Type} (P : V -> Prop) (d : dict str (list V)) :
  Exists (Exists P) (dict_values d) <->
  exists topic articles e, (topic, articles) ∈ d /\ e ∈ articles /\ P e.
Proof.
  unfold dict_values. rewrite Exists_exists. split.
  - intros [articles [Hin Hex]]. apply list_elem_of_fmap in Hin as [[topic arts] [-> Hin]].
    apply Exists_exists in Hex as [e [He HP]]. now exists topic, arts, e.
  - intros (topic & articles & e & Hin & He & HP). exists articles. split.
    + apply list_elem_of_fmap. now exists (topic, articles).
    + apply Exists_exists. now exists e.
Qed.

(** C4: a candidate title with at least one normalized token is a duplicate
    exactly when some historical title, under any topic of the history, has
    a non-empty normalized token set [H] with [|T ∩ H| / |T| >= 0.4], [T]
    being the candidate's token set; the call does not raise, and once an
    entry matches, the entries after it do not change the answer. *)
Theorem is_in_history_threshold (article_title : str) (h : history) :
  token_set article_title <> ∅ ->
  (exists b, is_in_history article_title h = Return b /\
     (b = true <->
      exists topic articles e,
        (topic, articles) ∈ h /\ e ∈ articles /\
        overlaps (token_set article_title) e)) /\
  (forall earlier topic articles e later_articles later_topics,
     h = earlier ++ (topic, articles ++ e :: later_articles) :: later_topics ->
     overlaps (token_set article_title) e ->
     is_in_history article_title h = Return true /\
     is_in_history article_title (earlier ++ [(topic, articles ++ [e])])
       = Return true).
Proof.
  intros HT.
  assert (Hspec : forall h', exists b, is_in_history article_title h' = Return b /\
     (b = true <-> exists topic articles e,
        (topic, articles) ∈ h' /\ e ∈ articles /\
        overlaps (token_set article_title) e)).
  { intros h'. unfold is_in_history.
    destruct (scan_history_spec (token_set article_title) (dict_values h') HT)
      as [b [Hscan Hb]].
    exists b. split; [assumption|]. now rewrite Hb, Exists_dict_values. }
  split; [apply Hspec|].
  intros earlier topic articles e later_articles later_topics -> Hov.
  split.
  - destruct (Hspec (earlier ++ (topic, articles ++ e :: later_articles) :: later_topics))
      as [b [-> Hb]].
    f_equal. apply Hb. exists topic, (articles ++ e :: later_articles), e.
    repeat split; try apply Hov.
    + apply elem_of_app. right. elem_of_head.
    + apply elem_of_app. right. elem_of_head.
  - destruct (Hspec (earlier ++ [(topic, articles ++ [e])])) as [b [-> Hb]].
    f_equal. apply Hb. exists topic, (articles ++ [e]), e.
    repeat split; try apply Hov.
    + apply elem_of_app. right. elem_of_head.
    + apply elem_of_app. right. elem_of_head.
Qed.

(** C3 (what the code does): a candidate title without any normalized token
    makes [is_in_history] raise [ZeroDivisionError] as soon as the history
    holds an entry with tokens; it returns [False] only when no entry has
    tokens. *)
Theorem is_in_history_no_tokens_raises (article_title : str) (h : history) :
  token_set article_title = ∅ ->
  (exists topic articles e,
     (topic, articles) ∈ h /\ e ∈ articles /\ token_set (entry_title e) <> ∅) ->
  is_in_history article_title h = Raise ZeroDivisionError.
Proof.
  intros HT Hex. unfold is_in_history. rewrite HT, scan_history_no_tokens.
  rewrite decide_True; [reflexivity|]. now apply Exists_dict_values.
Qed.


(** *** The Resilient Parser *)

(** C10: an input that parses as strict JSON is returned as its strict
    parse, the parse of the untouched input; no repair is applied to it. *)
Theorem safe_parse_json_strict_input (raw : str) (v : value) :
  json_loads raw = Return v -> safe_parse_json raw = Return v.
Proof.
  intros Hstrict. unfold safe_parse_json, try_return. now rewrite Hstrict.
Qed.

(** C1 (as amended): when [json.loads] fails with nothing but
    [JSONDecodeError] on the raw and on the cleaned text,
    [safe_parse_json] raises nothing and returns what the first successful
    stage of the cascade yields, whatever its shape, and the empty mapping
    when every stage fails. *)
Theorem safe_parse_json_cascade (raw : str) :
  decode_errors_only raw ->
  decode_errors_only (fix_common_json_errors (strip_wrappers raw)) ->
  safe_parse_json raw = Return (cascade raw) /\
  (Forall (fun stage => stage = None) (stages raw) ->
   safe_parse_json raw = Return (VDict [])).
Proof.
  intros Hraw Hcleaned.
  assert (Hcascade : safe_parse_json raw = Return (cascade raw)).
  { unfold safe_parse_json, cascade, stages, try_return.
    destruct (json_loads raw) as [v1|e1] eqn:H1; [reflexivity|].
    rewrite (Hraw e1 H1). cbn.
    destruct (json_loads (fix_common_json_errors (strip_wrappers raw)))
      as [v2|e2] eqn:H2; [reflexivity|].
    rewrite (Hcleaned e2 H2). cbn.
    destruct (literal_eval _) as [v3|e3]; [reflexivity|]. cbn.
    destruct (regex_fallback _) as [[v4|]|e4]; reflexivity. }
  split; [exact Hcascade|].
  intros Hfail. rewrite Hcascade. unfold cascade.
  replace (first_success (stages raw)) with (@None value); [reflexivity|].
  induction Hfail as [|stage rest -> _ IH]; [reflexivity | exact IH].
Qed.

(** *** Brace balancing *)

Lemma count_app (c : N) (s t : str) : count c (s ++ t) = (count c s + count c t)%nat.
Proof.
  induction s as [|x s IH]; cbn; [reflexivity|].
  destruct (x =? c); cbn; now rewrite IH.
Qed.

Lemma count_repeat_other (c d : N) (n : nat) :
  c <> d -> count c (repeat_char d n) = 0%nat.
Proof.
  intros Hne. unfold repeat_char. induction n as [|n IH]; cbn; [reflexivity|].
  destruct (N.eqb_spec d c); [congruence | exact IH].
Qed.

(** When no closer is in excess, [balance_braces] appends exactly the
    missing closing braces, then the missing closing brackets. *)
Lemma balance_braces_appends (text : str) :
  (count 125 text <= count 123 text)%nat ->
  (count 93 text <= count 91 text)%nat ->
  balance_braces text =
  text ++ repeat_char 125 (count 123 text - count 125 text)
       ++ repeat_char 93 (count 91 text - count 93 text).
Proof.
  intros Hbraces Hbrackets. unfold balance_braces.
  assert (Hfirst :
    (if (count 125 text <? count 123 text)%nat
     then text ++ repeat_char 125 (count 123 text - count 125 text)
     else if (count 123 text <? count 125 text)%nat
          then drop_last (count 125 text - count 123 text) (rstrip (N.eqb 125) text)
          else text)
    = text ++ repeat_char 125 (count 123 text - count 125 text)).
  { destruct (Nat.ltb_spec (count 125 text) (count 123 text)); [reflexivity|].
    destruct (Nat.ltb_spec (count 123 text) (count 125 text)); [lia|].
    replace (count 123 text - count 125 text)%nat with 0%nat by lia.
    cbn. now rewrite app_nil_r. }
  rewrite Hfirst. clear Hfirst.
  set (braced := text ++ repeat_char 125 (count 123 text - count 125 text)).
  assert (H91 : count 91 braced = count 91 text).
  { unfold braced. rewrite count_app, count_repeat_other by discriminate. lia. }
  assert (H93 : count 93 braced = count 93 text).
  { unfold braced. rewrite count_app, count_repeat_other by discriminate. lia. }
  rewrite H91, H93. unfold braced. rewrite <- app_assoc.
  destruct (Nat.ltb_spec (count 93 text) (count 91 text)); [reflexivity|].
  destruct (Nat.ltb_spec (count 91 text) (count 93 text)); [lia|].
  replace (count 91 text - count 93 text)%nat with 0%nat by lia.
  cbn. now rewrite !app_nil_r.
Qed.

(** C8 (what the code does): on a text with one closing brace too many,
    [balance_braces] strips every trailing brace and one character more;
    here the bracket before the braces goes too and is then appended
    again.  The result has lost both braces and is not balanced. *)
Theorem balance_braces_strips_too_much :
  balance_braces (lit "{'A': ['x']}}") = lit "{'A': ['x']" /\
  count 125 (balance_braces (lit "{'A': ['x']}}"))
  <> count 123 (balance_braces (lit "{'A': ['x']}}")).
Proof. split; [vm_compute; reflexivity | vm_compute; discriminate]. Qed.


(** *** The Normalizer *)

Lemma split_from_token (w cur rest : str) :
  forallb (fun c => negb (isspace c)) w = true ->
  split_from cur (w ++ rest) = split_from (rev w ++ cur) rest.
Proof.
  revert cur. induction w as [|c w IH]; intros cur Hw; [reflexivity|].
  cbn in Hw. apply andb_true_iff in Hw as [Hc Hw].
  apply negb_true_iff in Hc. cbn. rewrite Hc, IH by assumption.
  now rewrite <- app_assoc.
Qed.

(** Splitting is the inverse of joining proper tokens with one space. *)
Lemma split_join (tokens : list str) :
  forallb is_token tokens = true -> split (join (lit " ") tokens) = tokens.
Proof.
  unfold split. induction tokens as [|w rest IH]; [reflexivity|].
  cbn [forallb]. rewrite andb_true_iff. intros [Hw Hrest].
  unfold is_token in Hw. apply andb_true_iff in Hw as [Hne Hw].
  apply negb_true_iff, bool_decide_eq_false in Hne.
  assert (Hrev : rev w <> []).
  { intros Hnil. apply Hne. apply (f_equal (@rev N)) in Hnil.
    now rewrite rev_involutive in Hnil. }
  destruct rest as [|w' rest].
  - cbn [join]. rewrite <- (app_nil_r w) at 1.
    rewrite split_from_token by assumption. rewrite app_nil_r. cbn.
    destruct (rev w) eqn:Hr; [congruence|]. now rewrite <- Hr, rev_involutive.
  - change (join (lit " ") (w :: w' :: rest))
      with (w ++ 32 :: join (lit " ") (w' :: rest)).
    rewrite split_from_token by assumption. rewrite app_nil_r.
    cbn [split_from]. change (isspace 32) with true. cbn match.
    destruct (rev w) eqn:Hr; [congruence|].
    rewrite <- Hr, rev_involutive. f_equal. now apply IH.
Qed.

Lemma lower_join (tokens : list str) :
  lower (join (lit " ") tokens) = join (lit " ") (map lower tokens).
Proof.
  unfold lower. induction tokens as [|w rest IH]; [reflexivity|].
  destruct rest as [|w' rest]; [reflexivity|].
  change (join (lit " ") (w :: w' :: rest))
    with (w ++ 32 :: join (lit " ") (w' :: rest)).
  rewrite map_app. cbn [map]. rewrite IH. reflexivity.
Qed.

(** C9 (as amended): normalizing twice gives the same text as normalizing
    once for every text whose reduced tokens are proper tokens that
    lowercasing and the stem-then-lemmatize reduction leave unchanged. *)
Theorem normalize_idempotent_on_stable (x : str) :
  forallb is_token (reduced_tokens x) = true ->
  forallb is_stable (reduced_tokens x) = true ->
  normalize (normalize x) = normalize x.
Proof.
  intros Htok Hstable. unfold normalize at 1 3. fold (reduced_tokens x).
  cbn zeta. unfold normalize. fold (reduced_tokens x).
  assert (Hlow : map lower (reduced_tokens x) = reduced_tokens x).
  { clear Htok. induction (reduced_tokens x) as [|w l IH]; [reflexivity|].
    cbn in Hstable. apply andb_true_iff in Hstable as [Hw Hl].
    unfold is_stable in Hw. apply andb_true_iff in Hw as [Hw _].
    apply bool_decide_eq_true in Hw. cbn. now rewrite Hw, IH. }
  assert (Hfix : map lemmatize (map stem (reduced_tokens x)) = reduced_tokens x).
  { clear Htok Hlow. induction (reduced_tokens x) as [|w l IH]; [reflexivity|].
    cbn in Hstable. apply andb_true_iff in Hstable as [Hw Hl].
    unfold is_stable in Hw. apply andb_true_iff in Hw as [_ Hw].
    apply bool_decide_eq_true in Hw. cbn. now rewrite Hw, IH. }
  now rewrite lower_join, Hlow, split_join, Hfix.
Qed.


(** *** The Digest Reconciler *)

Lemma elem_of_dict_set {K V : Type} `{EqDecision K} (d : dict K V) k v k' v' :
  (k', v') ∈ dict_set d k v -> (k', v') ∈ d \/ (k' = k /\ v' = v).
Proof.
  induction d as [|[k0 v0] d IH]; cbn.
  - intros Hin. apply list_elem_of_singleton in Hin as [= -> ->]. now right.
  - destruct (decide (k0 = k)) as [->|Hne]; intros Hin;
      apply elem_of_cons in Hin as [[= -> ->]|Hin].
    + now right.
    + left. apply elem_of_cons. now right.
    + left. elem_of_head.
    + destruct (IH Hin) as [Hd|Hnew]; [|now right].
      left. apply elem_of_cons. now right.
Qed.

Lemma snoc_eq_middle {A : Type} (done done1 done2 : list A) (a x : A) :
  done ++ [a] = done1 ++ x :: done2 ->
  (done2 = [] /\ done = done1 /\ a = x) \/
  (exists done2', done2 = done2' ++ [a] /\ done = done1 ++ x :: done2').
Proof.
  destruct done2 as [|y done2 _] using rev_ind.
  - intros Heq. left. change (done1 ++ [x]) with (done1 ++ [x]) in Heq.
    apply app_inj_tail in Heq as [-> ->]. now repeat split.
  - intros Heq. right. exists done2.
    rewrite app_comm_cons, app_assoc in Heq.
    apply app_inj_tail in Heq as [-> ->]. now split.
Qed.

(** The inner loop of the deduplication: the set of seen forms grows by
    the forms of the titles, a kept title is one of the titles and its
    form was not seen before, and every form that was not seen before is
    kept with one of its titles. *)
Lemma dedup_titles_spec (seen : gset str) (titles : list str) :
  forall seen' kept, fold_left dedup_title titles (seen, []) = (seen', kept) ->
  (forall n, n ∈ seen' <-> n ∈ seen \/ exists u, u ∈ titles /\ normalize u = n) /\
  (forall u, u ∈ kept -> u ∈ titles /\ normalize u ∉ seen) /\
  (forall t, t ∈ titles -> normalize t ∉ seen ->
             exists u, u ∈ kept /\ normalize u = normalize t).
Proof.
  pose (P := fun (done : list str) (st : gset str * list str) =>
    (forall n, n ∈ st.1 <-> n ∈ seen \/ exists u, u ∈ done /\ normalize u = n) /\
    (forall u, u ∈ st.2 -> u ∈ done /\ normalize u ∉ seen) /\
    (forall t, t ∈ done -> normalize t ∉ seen ->
               exists u, u ∈ st.2 /\ normalize u = normalize t)).
  assert (HP : P titles (fold_left dedup_title titles (seen, []))).
  { apply fold_left_invariant.
    - split; [|split].
      + intros n. split; [now left|].
        intros [Hn|(u & Hu & _)]; [assumption | now apply elem_of_nil in Hu].
      + intros u Hu. now apply elem_of_nil in Hu.
      + intros t Ht. now apply elem_of_nil in Ht.
    - intros done t [s k] (Hs & Hk & Hall). unfold P, dedup_title.
      cbn [fst snd] in Hs, Hk, Hall.
      destruct (decide (normalize t ∈ s)) as [Hin|Hout]; cbn [fst snd].
      + split; [|split].
        * intros n. split.
          -- intros Hn. apply Hs in Hn as [Hn|(u & Hu & Hn)]; [now left|].
             right. exists u. split; [|assumption]. elem_of_front.
          -- intros [Hn|(u & Hu & Hn)]; [apply Hs; now left|].
             apply elem_of_app in Hu as [Hu|Hu].
             ++ apply Hs. right. now exists u.
             ++ apply list_elem_of_singleton in Hu as ->. now rewrite <- Hn.
        * intros u Hu. destruct (Hk u Hu) as [Hdone Hfresh].
          split; [|assumption]. elem_of_front.
        * intros t' Ht' Hfresh. apply elem_of_app in Ht' as [Ht'|Ht'];
            [now apply Hall|].
          apply list_elem_of_singleton in Ht' as ->.
          apply Hs in Hin as [Hin|(u & Hu & Hn)]; [contradiction|].
          destruct (Hall u Hu) as (u' & Hu' & Hn'); [now rewrite Hn|].
          exists u'. split; [assumption | congruence].
      + split; [|split].
        * intros n. split.
          -- intros Hn. apply elem_of_union in Hn as [Hn|Hn].
             ++ apply elem_of_singleton in Hn as ->. right. exists t.
                split; [|reflexivity]. elem_of_last.
             ++ apply Hs in Hn as [Hn|(u & Hu & Hn)]; [now left|].
                right. exists u. split; [|assumption]. elem_of_front.
          -- intros [Hn|(u & Hu & Hn)].
             ++ apply elem_of_union. right. apply Hs. now left.
             ++ apply elem_of_app in Hu as [Hu|Hu].
                ** apply elem_of_union. right. apply Hs. right. now exists u.
                ** apply list_elem_of_singleton in Hu as ->.
                   apply elem_of_union. left. now apply elem_of_singleton.
        * intros u Hu. apply elem_of_app in Hu as [Hu|Hu].
          -- destruct (Hk u Hu) as [Hdone Hfresh].
             split; [|assumption]. elem_of_front.
          -- apply list_elem_of_singleton in Hu as ->. split.
             ++ elem_of_last.
             ++ intros Hseen. apply Hout, Hs. now left.
        * intros t' Ht' Hfresh. apply elem_of_app in Ht' as [Ht'|Ht'].
          -- destruct (Hall t' Ht' Hfresh) as (u & Hu & Hn).
             exists u. split; [|assumption]. elem_of_front.
          -- apply list_elem_of_singleton in Ht' as ->. exists t.
             split; [|reflexivity]. elem_of_last. }
  intros seen' kept Heq. rewrite Heq in HP. exact HP.
Qed.

(** The deduplicated selection holds, under a topic, only titles selected
    under that topic. *)
Lemma deduplicate_headlines_subset (digest_titles : dict str (list str)) :
  forall topic kept, (topic, kept) ∈ deduplicate_headlines digest_titles ->
  exists titles, (topic, titles) ∈ digest_titles /\
                 forall u, u ∈ kept -> u ∈ titles.
Proof.
  unfold deduplicate_headlines.
  apply (fold_left_invariant dedup_topic (∅, [])
    (fun done st => forall topic kept, (topic, kept) ∈ st.2 ->
       exists titles, (topic, titles) ∈ done /\ forall u, u ∈ kept -> u ∈ titles)).
  - intros topic kept Hin. now apply elem_of_nil in Hin.
  - intros done [topic titles] [seen deduped] IH topic' kept'. unfold dedup_topic.
    destruct (fold_left dedup_title titles (seen, [])) as [seen' kept] eqn:Hloop.
    apply dedup_titles_spec in Hloop as (_ & Hkept & _). cbn [snd] in *.
    intros Hin.
    assert (Hcases : (topic', kept') ∈ deduped \/ (topic' = topic /\ kept' = kept)).
    { destruct kept; [now left | now apply elem_of_dict_set in Hin]. }
    destruct Hcases as [Hold|[-> ->]].
    + destruct (IH _ _ Hold) as (titles' & Hin' & Hsub). exists titles'.
      split; [|assumption]. elem_of_front.
    + exists titles. split.
      * elem_of_last.
      * intros u Hu. now apply Hkept.
Qed.

Lemma first_match_Some (t : str) (seen_titles : gset str)
    (articles : list article) (a : article) :
  first_match t seen_titles articles = Some a ->
  a ∈ articles /\ normalize (title a) = normalize t.
Proof.
  unfold first_match. intros Hfind. apply find_some in Hfind as [Hin Htest].
  apply andb_true_iff in Htest as [Heq _]. apply bool_decide_eq_true in Heq.
  split; [now apply list_elem_of_In | assumption].
Qed.

(** The inner loop of the rebuild selects candidate articles only, each
    for one of the titles. *)
Lemma rebuild_titles_spec (articles : list article) (titles : list str) :
  forall a, a ∈ (fold_left (rebuild_title articles) titles ([], ∅)).1 ->
  a ∈ articles /\ exists t, t ∈ titles /\ normalize (title a) = normalize t.
Proof.
  apply (fold_left_invariant (rebuild_title articles) ([], ∅)
    (fun done st => forall a, a ∈ st.1 ->
       a ∈ articles /\ exists t, t ∈ done /\ normalize (title a) = normalize t)).
  - intros a Hin. now apply elem_of_nil in Hin.
  - intros done t [selected seen_titles] IH a. unfold rebuild_title.
    destruct (first_match t seen_titles articles) as [found|] eqn:Hfind;
      cbn [fst] in *; intros Hin.
    + apply elem_of_app in Hin as [Hin|Hin].
      * destruct (IH a Hin) as (Ha & u & Hu & Hn). split; [assumption|].
        exists u. split; [|assumption]. elem_of_front.
      * apply list_elem_of_singleton in Hin as ->.
        apply first_match_Some in Hfind as [Ha Hn]. split; [assumption|].
        exists t. split; [|assumption]. elem_of_last.
    + destruct (IH a Hin) as (Ha & u & Hu & Hn). split; [assumption|].
      exists u. split; [|assumption]. elem_of_front.
Qed.

(** The rebuilt digest: every topic has articles, each a candidate of
    that topic with the normalized title of a title given for the topic. *)
Lemma rebuild_article_entries_sound (full_articles : dict str (list article))
    (digest_titles : dict str (list str)) :
  forall topic selected,
  (topic, selected) ∈ rebuild_article_entries full_articles digest_titles ->
  selected <> [] /\
  forall a, a ∈ selected ->
    a ∈ default [] (dict_get full_articles topic) /\
    exists titles t, (topic, titles) ∈ digest_titles /\ t ∈ titles /\
                     normalize (title a) = normalize t.
Proof.
  unfold rebuild_article_entries.
  apply (fold_left_invariant (rebuild_topic full_articles) []
    (fun done digest => forall topic selected, (topic, selected) ∈ digest ->
       selected <> [] /\
       forall a, a ∈ selected ->
         a ∈ default [] (dict_get full_articles topic) /\
         exists titles t, (topic, titles) ∈ done /\ t ∈ titles /\
                          normalize (title a) = normalize t)).
  - intros topic selected Hin. now apply elem_of_nil in Hin.
  - intros done [topic titles] digest IH topic' selected'. unfold rebuild_topic.
    pose proof (rebuild_titles_spec (default [] (dict_get full_articles topic)) titles)
      as Hloop.
    destruct (fold_left _ titles ([], ∅)) as [selected seen_titles].
    cbn [fst] in Hloop. intros Hin.
    assert (Hcases : (topic', selected') ∈ digest \/
                     (topic' = topic /\ selected' = selected /\ selected <> [])).
    { destruct selected as [|a0 selected]; [now left|].
      apply elem_of_dict_set in Hin as [Hin|[-> ->]]; [now left|].
      right. now repeat split. }
    destruct Hcases as [Hold|(-> & -> & Hne)].
    + destruct (IH _ _ Hold) as [Hne Hsel]. split; [assumption|].
      intros a Ha. destruct (Hsel a Ha) as (Hcand & ts & t & Hts & Ht & Hn).
      split; [assumption|]. exists ts, t. split; [|now split].
      elem_of_front.
    + split; [assumption|]. intros a Ha.
      destruct (Hloop a Ha) as (Hcand & t & Ht & Hn). split; [assumption|].
      exists titles, t. split; [|now split].
      elem_of_last.
Qed.

(** C2: every article of the reconciled digest under a topic is an article
    of that topic's candidate set whose normalized title equals that of a
    title selected for the topic; hence a selected title whose normalized
    form matches no candidate of the topic is not in the digest; and every
    topic of the digest has at least one article. *)
Theorem reconcile_only_candidates (full_articles : dict str (list article))
    (digest_titles : dict str (list str)) (topic : str)
    (selected : list article) :
  dict_get (reconcile full_articles digest_titles) topic = Some selected ->
  selected <> [] /\
  (forall a, a ∈ selected ->
     a ∈ default [] (dict_get full_articles topic) /\
     exists titles t, (topic, titles) ∈ digest_titles /\ t ∈ titles /\
                      normalize (title a) = normalize t) /\
  (forall t,
     (forall c, c ∈ default [] (dict_get full_articles topic) ->
                normalize (title c) <> normalize t) ->
     forall a, a ∈ selected -> normalize (title a) <> normalize t).
Proof.
  unfold reconcile. intros Hget. apply dict_get_elem_of in Hget.
  apply rebuild_article_entries_sound in Hget as [Hne Hsel].
  split; [assumption|]. split.
  - intros a Ha. destruct (Hsel a Ha) as (Hcand & kept & t & Hkept & Ht & Hn).
    split; [assumption|].
    apply deduplicate_headlines_subset in Hkept as (titles & Hin & Hsub).
    exists titles, t. repeat split; [assumption | now apply Hsub | assumption].
  - intros t Hnone a Ha. apply Hnone. now apply Hsel.
Qed.


(** The state of the deduplication after a selection with distinct
    topics: the forms seen are those of the titles read; a topic of the
    result keeps titles of its own and at least one; no form is kept under
    two topics; a form is kept under the first topic that has it. *)
Lemma dedup_topics_invariant (digest_titles : dict str (list str)) :
  NoDup (dict_keys digest_titles) ->
  forall seen deduped, fold_left dedup_topic digest_titles (∅, []) = (seen, deduped) ->
  (forall n, n ∈ seen <->
     exists topic titles u, (topic, titles) ∈ digest_titles /\ u ∈ titles /\
                            normalize u = n) /\
  (forall topic kept, dict_get deduped topic = Some kept ->
     kept <> [] /\
     exists titles, (topic, titles) ∈ digest_titles /\
                    forall u, u ∈ kept -> u ∈ titles) /\
  (forall tp1 k1 tp2 k2 u1 u2,
     dict_get deduped tp1 = Some k1 -> dict_get deduped tp2 = Some k2 ->
     u1 ∈ k1 -> u2 ∈ k2 -> normalize u1 = normalize u2 -> tp1 = tp2) /\
  (forall earlier topic titles later t,
     digest_titles = earlier ++ (topic, titles) :: later -> t ∈ titles ->
     (forall tp ts u, (tp, ts) ∈ earlier -> u ∈ ts -> normalize u <> normalize t) ->
     exists kept u, dict_get deduped topic = Some kept /\ u ∈ kept /\
                    normalize u = normalize t) /\
  NoDup (dict_keys deduped).
Proof.
  pose (P := fun (done : dict str (list str)) (st : gset str * dict str (list str)) =>
    NoDup (dict_keys done) ->
    (forall n, n ∈ st.1 <->
       exists topic titles u, (topic, titles) ∈ done /\ u ∈ titles /\
                              normalize u = n) /\
    (forall topic kept, dict_get st.2 topic = Some kept ->
       kept <> [] /\
       exists titles, (topic, titles) ∈ done /\ forall u, u ∈ kept -> u ∈ titles) /\
    (forall tp1 k1 tp2 k2 u1 u2,
       dict_get st.2 tp1 = Some k1 -> dict_get st.2 tp2 = Some k2 ->
       u1 ∈ k1 -> u2 ∈ k2 -> normalize u1 = normalize u2 -> tp1 = tp2) /\
    (forall earlier topic titles later t,
       done = earlier ++ (topic, titles) :: later -> t ∈ titles ->
       (forall tp ts u, (tp, ts) ∈ earlier -> u ∈ ts -> normalize u <> normalize t) ->
       exists kept u, dict_get st.2 topic = Some kept /\ u ∈ kept /\
                      normalize u = normalize t) /\
    NoDup (dict_keys st.2)).
  assert (HP : P digest_titles (fold_left dedup_topic digest_titles (∅, []))).
  { apply fold_left_invariant.
    - intros _. cbn [fst snd]. split; [|split; [|split; [|split]]].
      + intros n. split; [intros Hn; now apply elem_of_empty in Hn|].
        intros (topic & titles & u & Hin & _). now apply elem_of_nil in Hin.
      + intros topic kept [=].
      + intros tp1 k1 tp2 k2 u1 u2 [=].
      + intros earlier topic titles later t Heq. now destruct earlier.
      + apply NoDup_nil_2.
    - intros done [topic titles] [seen deduped] IH Hnd.
      unfold dict_keys in Hnd. rewrite fmap_app in Hnd.
      apply NoDup_app in Hnd as (Hnd & Hfresh & _).
      destruct (IH Hnd) as (O1 & O2 & O3 & O5 & O6). clear IH.
      cbn [fst snd] in O1, O2, O3, O5, O6.
      assert (Hnew : topic ∉ dict_keys done).
      { intros Hin. apply (Hfresh topic Hin). cbn. elem_of_head. }
      assert (Hnone : dict_get deduped topic = None).
      { destruct (dict_get deduped topic) as [k0|] eqn:Hget; [|reflexivity].
        exfalso. apply O2 in Hget as (_ & ts & Hin & _). apply Hnew.
        unfold dict_keys. apply list_elem_of_fmap. now exists (topic, ts). }
      unfold dedup_topic.
      destruct (fold_left dedup_title titles (seen, [])) as [seen' kept] eqn:Hloop.
      apply dedup_titles_spec in Hloop as (I1 & I2 & I3).
      set (deduped' := match kept with
                       | [] => deduped
                       | _ => dict_set deduped topic kept
                       end).
      cbn [fst snd].
      assert (G1 : forall tp k, dict_get deduped' tp = Some k ->
                (tp <> topic /\ dict_get deduped tp = Some k) \/
                (tp = topic /\ k = kept /\ kept <> [])).
      { intros tp k Hget. subst deduped'. destruct (decide (topic = tp)) as [<-|Hne].
        - destruct kept as [|u0 kept]; [congruence|].
          rewrite dict_get_set_eq in Hget. injection Hget as <-. now right.
        - left. split; [congruence|]. destruct kept; [assumption|].
          now rewrite dict_get_set_ne in Hget. }
      assert (G2 : forall tp k, dict_get deduped tp = Some k ->
                dict_get deduped' tp = Some k).
      { intros tp k Hget. subst deduped'. destruct kept; [assumption|].
        rewrite dict_get_set_ne; [assumption | congruence]. }
      assert (G3 : kept <> [] -> dict_get deduped' topic = Some kept).
      { intros Hne. subst deduped'. destruct kept; [congruence|].
        apply dict_get_set_eq. }
      assert (G4 : NoDup (dict_keys deduped')).
      { subst deduped'. destruct kept; [assumption | now apply dict_set_NoDup]. }
      assert (Hseen_old : forall tp k u, dict_get deduped tp = Some k -> u ∈ k ->
                normalize u ∈ seen).
      { intros tp k u Hget Hu. apply O2 in Hget as (_ & ts & Hin & Hsub).
        apply O1. exists tp, ts, u. repeat split; [assumption | now apply Hsub]. }
      clearbody deduped'.
      split; [|split; [|split; [|split]]].
      + intros n. rewrite I1, O1. split.
        * intros [(tp & ts & u & Hin & Hu & Hn)|(u & Hu & Hn)].
          -- exists tp, ts, u. repeat split; try assumption.
             elem_of_front.
          -- exists topic, titles, u. repeat split; try assumption.
             elem_of_last.
        * intros (tp & ts & u & Hin & Hu & Hn).
          apply elem_of_app in Hin as [Hin|Hin].
          -- left. now exists tp, ts, u.
          -- apply list_elem_of_singleton in Hin as [= -> ->]. right. now exists u.
      + intros tp k Hget. apply G1 in Hget as [[Hne Hget]|(-> & -> & Hne)].
        * apply O2 in Hget as (Hk & ts & Hin & Hsub). split; [assumption|].
          exists ts. split; [|assumption]. elem_of_front.
        * split; [assumption|]. exists titles. split.
          -- elem_of_last.
          -- intros u Hu. now apply I2.
      + intros tp1 k1 tp2 k2 u1 u2 Hget1 Hget2 Hu1 Hu2 Hn.
        apply G1 in Hget1 as [[Hne1 Hget1]|(-> & -> & _)];
          apply G1 in Hget2 as [[Hne2 Hget2]|(-> & -> & _)].
        * now apply (O3 tp1 k1 tp2 k2 u1 u2).
        * exfalso. apply (I2 u2 Hu2). rewrite <- Hn.
          now apply (Hseen_old tp1 k1 u1).
        * exfalso. apply (I2 u1 Hu1). rewrite Hn.
          now apply (Hseen_old tp2 k2 u2).
        * reflexivity.
      + intros earlier tp ts later t Heq Ht Hfirst.
        apply snoc_eq_middle in Heq as [(-> & -> & [= <- <-])|(later' & -> & ->)].
        * assert (Hfresh_t : normalize t ∉ seen).
          { intros Hseen. apply O1 in Hseen as (tp0 & ts0 & u & Hin & Hu & Hn).
            now apply (Hfirst tp0 ts0 u). }
          destruct (I3 t Ht Hfresh_t) as (u & Hu & Hn).
          exists kept, u. split; [|now split]. apply G3.
          intros ->. now apply elem_of_nil in Hu.
        * destruct (O5 earlier tp ts later' t eq_refl Ht Hfirst)
            as (k & u & Hget & Hu & Hn).
          exists k, u. split; [now apply G2 | now split].
      + exact G4. }
  intros Hnd seen deduped Heq. rewrite Heq in HP. exact (HP Hnd).
Qed.

(** C6: in a selection with distinct topics, a normalized title is kept
    under the first topic, in iteration order, that holds a title of that
    form and under no other topic; the pass moves no title to another
    topic; so each normalized title is under at most one topic of the
    deduplicated selection and of the digest rebuilt from it. *)
Theorem dedup_keeps_first_topic_only (full_articles : dict str (list article))
    (digest_titles : dict str (list str)) :
  NoDup (dict_keys digest_titles) ->
  let deduped := deduplicate_headlines digest_titles in
  let digest := reconcile full_articles digest_titles in
  (forall earlier topic titles later t,
     digest_titles = earlier ++ (topic, titles) :: later -> t ∈ titles ->
     (forall tp ts u, (tp, ts) ∈ earlier -> u ∈ ts -> normalize u <> normalize t) ->
     (exists kept u, dict_get deduped topic = Some kept /\ u ∈ kept /\
                     normalize u = normalize t) /\
     (forall tp kept u, dict_get deduped tp = Some kept -> u ∈ kept ->
                        normalize u = normalize t -> tp = topic)) /\
  (forall topic kept, dict_get deduped topic = Some kept ->
     exists titles, dict_get digest_titles topic = Some titles /\
                    forall u, u ∈ kept -> u ∈ titles) /\
  (forall tp1 k1 tp2 k2 u1 u2,
     dict_get deduped tp1 = Some k1 -> dict_get deduped tp2 = Some k2 ->
     u1 ∈ k1 -> u2 ∈ k2 -> normalize u1 = normalize u2 -> tp1 = tp2) /\
  (forall tp1 s1 tp2 s2 a1 a2,
     dict_get digest tp1 = Some s1 -> dict_get digest tp2 = Some s2 ->
     a1 ∈ s1 -> a2 ∈ s2 -> normalize (title a1) = normalize (title a2) ->
     tp1 = tp2).
Proof.
  intros Hnd deduped digest. subst deduped digest.
  unfold reconcile, deduplicate_headlines.
  destruct (fold_left dedup_topic digest_titles (∅, [])) as [seen deduped] eqn:Hfold.
  destruct (dedup_topics_invariant digest_titles Hnd seen deduped Hfold)
    as (_ & O2 & O3 & O5 & O6).
  cbn [snd]. split; [|split; [|split]].
  - intros earlier topic titles later t Heq Ht Hfirst.
    destruct (O5 earlier topic titles later t Heq Ht Hfirst)
      as (kept & u & Hget & Hu & Hn).
    split; [now exists kept, u|].
    intros tp kept' u' Hget' Hu' Hn'.
    apply (O3 tp kept' topic kept u' u); try assumption. congruence.
  - intros topic kept Hget. apply O2 in Hget as (_ & titles & Hin & Hsub).
    exists titles. split; [now apply elem_of_dict_get | assumption].
  - exact O3.
  - intros tp1 s1 tp2 s2 a1 a2 Hget1 Hget2 Ha1 Ha2 Hn.
    apply dict_get_elem_of, rebuild_article_entries_sound in Hget1 as [_ Hsel1].
    apply dict_get_elem_of, rebuild_article_entries_sound in Hget2 as [_ Hsel2].
    destruct (Hsel1 a1 Ha1) as (_ & k1 & t1 & Hk1 & Ht1 & Hn1).
    destruct (Hsel2 a2 Ha2) as (_ & k2 & t2 & Hk2 & Ht2 & Hn2).
    apply (O3 tp1 k1 tp2 k2 t1 t2); try assumption.
    + now apply elem_of_dict_get.
    + now apply elem_of_dict_get.
    + congruence.
Qed.


(** *** The History Store *)

Lemma last_n_length {A : Type} (n : nat) (l : list A) :
  length (last_n n l) = Nat.min n (length l).
Proof. unfold last_n. rewrite length_drop. lia. Qed.

(** [l[-n:]] is the end of [l]: what is dropped comes first. *)
Lemma last_n_suffix {A : Type} (n : nat) (l : list A) :
  l = take (length l - n) l ++ last_n n l.
Proof. unfold last_n. now rewrite take_drop. Qed.

(** The appended sequence is the old one followed by the new entries, in
    the order of the articles. *)
Lemma append_articles_app (existing_titles : gset str)
    (articles : list article) (entries : list entry) :
  fold_left (append_article existing_titles) articles entries =
  entries ++ map (fun a => Entry (title a) (pubDate a))
              (List.filter (fun a => bool_decide (normalize (title a) ∉ existing_titles))
                           articles).
Proof.
  revert entries. induction articles as [|a rest IH]; intros entries; cbn.
  - now rewrite app_nil_r.
  - rewrite IH. unfold append_article.
    destruct (decide (normalize (title a) ∈ existing_titles)) as [Hin|Hout].
    + rewrite bool_decide_eq_false_2; [reflexivity | tauto].
    + rewrite bool_decide_eq_true_2 by assumption. cbn.
      now rewrite <- app_assoc.
Qed.

Lemma appended_entries_app (h : history) (topic : str) (articles : list article) :
  appended_entries h topic articles =
  let entries := default [] (dict_get h (topic_key topic)) in
  let existing_titles : gset str :=
    list_to_set (map (fun e => normalize (entry_title e)) entries) in
  entries ++ map (fun a => Entry (title a) (pubDate a))
              (List.filter (fun a => bool_decide (normalize (title a) ∉ existing_titles))
                           articles).
Proof. unfold appended_entries. apply append_articles_app. Qed.

Lemma record_topic_get_eq (h : history) (topic : str) (articles : list article) :
  dict_get (record_topic h (topic, articles)) (topic_key topic) =
  Some (last_n 40 (appended_entries h topic articles)).
Proof.
  unfold record_topic, appended_entries. rewrite dict_get_set_eq.
  destruct (dict_get h (topic_key topic)) as [es|] eqn:Hget.
  - now rewrite Hget.
  - now rewrite dict_get_set_eq.
Qed.

Lemma record_topic_get_ne (h : history) (topic : str) (articles : list article)
    (k : str) :
  k <> topic_key topic ->
  dict_get (record_topic h (topic, articles)) k = dict_get h k.
Proof.
  intros Hne. unfold record_topic. rewrite dict_get_set_ne by congruence.
  destruct (dict_get h (topic_key topic)); [reflexivity|].
  rewrite dict_get_set_ne; [reflexivity | congruence].
Qed.

Lemma appended_entries_ext (h h' : history) (topic : str)
    (articles : list article) :
  dict_get h' (topic_key topic) = dict_get h (topic_key topic) ->
  appended_entries h' topic articles = appended_entries h topic articles.
Proof. intros Heq. unfold appended_entries. now rewrite Heq. Qed.

(** Recording leaves the keys of other topics as they are. *)
Lemma record_sent_untouched (digest : dict str (list article)) (h : history)
    (k : str) :
  k ∉ map topic_key (dict_keys digest) ->
  dict_get (record_sent digest h) k = dict_get h k.
Proof.
  unfold record_sent. revert h.
  induction digest as [|[topic articles] rest IH]; intros h Hout; [reflexivity|].
  cbn. cbn in Hout. apply not_elem_of_cons in Hout as [Hne Hout].
  rewrite IH by assumption. now apply record_topic_get_ne.
Qed.

(** Recording a digest whose topics have distinct keys: each of these keys
    gets the end of its appended sequence. *)
Lemma record_sent_get (digest : dict str (list article)) (h : history)
    (topic : str) (articles : list article) :
  NoDup (map topic_key (dict_keys digest)) ->
  (topic, articles) ∈ digest ->
  dict_get (record_sent digest h) (topic_key topic) =
  Some (last_n 40 (appended_entries h topic articles)).
Proof.
  unfold record_sent. revert h.
  induction digest as [|[topic0 articles0] rest IH]; intros h Hnd Hin.
  - now apply elem_of_nil in Hin.
  - change (NoDup (topic_key topic0 :: map topic_key (dict_keys rest))) in Hnd.
    apply NoDup_cons in Hnd as [Hfresh Hnd].
    change (fold_left record_topic ((topic0, articles0) :: rest) h)
      with (record_sent rest (record_topic h (topic0, articles0))).
    apply elem_of_cons in Hin as [[= -> ->]|Hin].
    + rewrite record_sent_untouched by assumption.
      apply record_topic_get_eq.
    + assert (Hne : topic_key topic <> topic_key topic0).
      { intros Heq. apply Hfresh. rewrite <- Heq.
        apply list_elem_of_In, in_map, list_elem_of_In.
        unfold dict_keys. apply list_elem_of_fmap. now exists (topic, articles). }
      unfold record_sent. rewrite IH by assumption. f_equal. f_equal.
      apply appended_entries_ext. now apply record_topic_get_ne.
Qed.

(** Recording keeps every sequence within 40 entries if they all were. *)
Lemma record_sent_capped (digest : dict str (list article)) (h : history) :
  (forall k es, dict_get h k = Some es -> (length es <= 40)%nat) ->
  forall k es, dict_get (record_sent digest h) k = Some es -> (length es <= 40)%nat.
Proof.
  unfold record_sent. revert h.
  induction digest as [|[topic articles] rest IH]; intros h Hcap; [exact Hcap|].
  change (fold_left record_topic ((topic, articles) :: rest) h)
    with (fold_left record_topic rest (record_topic h (topic, articles))).
  apply IH. intros k es.
  destruct (decide (k = topic_key topic)) as [->|Hne].
  - rewrite record_topic_get_eq. intros [= <-]. rewrite last_n_length. lia.
  - rewrite record_topic_get_ne by assumption. apply Hcap.
Qed.

Lemma is_recent_spec (now : Z) (e : entry) :
  is_recent now e = true <->
  exists pub_date, parsedate (entry_pubDate e) = Some pub_date /\
                   (now - thirty_days <= pub_date)%Z.
Proof.
  unfold is_recent. destruct (parsedate (entry_pubDate e)) as [pub|].
  - rewrite Z.leb_le. split; [intros Hle; now exists pub|].
    now intros (pub' & [= <-] & Hle).
  - split; [discriminate | now intros (pub' & [=] & _)].
Qed.

Lemma prune_topic_get_eq (now : Z) (h : history) (topic : str) :
  NoDup (dict_keys h) ->
  dict_get (prune_topic now h topic) topic = pruned_entries now (dict_get h topic).
Proof.
  intros Hnd. unfold prune_topic, pruned_entries.
  destruct (dict_get h topic) as [es|] eqn:Hget; cbn [default from_option id].
  - destruct (List.filter (is_recent now) es) as [|e kept];
      [now apply dict_get_del_eq | apply dict_get_set_eq].
  - cbn. now apply dict_get_del_eq.
Qed.

Lemma prune_topic_get_ne (now : Z) (h : history) (topic k : str) :
  k <> topic -> dict_get (prune_topic now h topic) k = dict_get h k.
Proof.
  intros Hne. unfold prune_topic.
  destruct (List.filter _ _);
    [apply dict_get_del_ne | apply dict_get_set_ne]; congruence.
Qed.

Lemma prune_topic_NoDup (now : Z) (h : history) (topic : str) :
  NoDup (dict_keys h) -> NoDup (dict_keys (prune_topic now h topic)).
Proof.
  intros Hnd. unfold prune_topic.
  destruct (List.filter _ _); [now apply dict_del_NoDup | now apply dict_set_NoDup].
Qed.

Lemma prune_topics_get (now : Z) (topics : list str) (h : history) (k : str) :
  NoDup topics -> NoDup (dict_keys h) ->
  dict_get (fold_left (prune_topic now) topics h) k =
  if decide (k ∈ topics) then pruned_entries now (dict_get h k) else dict_get h k.
Proof.
  revert h. induction topics as [|topic rest IH]; intros h Hnd Hh; cbn.
  - rewrite decide_False; [reflexivity | apply not_elem_of_nil].
  - apply NoDup_cons in Hnd as [Hfresh Hnd].
    rewrite IH by (try assumption; now apply prune_topic_NoDup).
    destruct (decide (k = topic)) as [->|Hne].
    + rewrite decide_False by assumption.
      rewrite decide_True by (elem_of_head).
      now apply prune_topic_get_eq.
    + rewrite prune_topic_get_ne by assumption.
      destruct (decide (k ∈ rest)) as [Hin|Hout].
      * rewrite decide_True; [reflexivity | apply elem_of_cons; now right].
      * rewrite decide_False; [reflexivity|].
        rewrite not_elem_of_cons. now split.
Qed.

(** Pruning a history: each key keeps the entries that pass the test, and
    goes when none is left. *)
Lemma prune_history_get (now : Z) (h : history) (k : str) :
  NoDup (dict_keys h) ->
  dict_get (prune_history now h) k = pruned_entries now (dict_get h k).
Proof.
  intros Hnd. unfold prune_history. rewrite prune_topics_get by assumption.
  destruct (decide (k ∈ dict_keys h)) as [Hin|Hout]; [reflexivity|].
  apply dict_get_None in Hout. now rewrite Hout.
Qed.

(** Pruning changes nothing in a history whose entries are all recent. *)
Lemma prune_history_all_recent (now : Z) (h : history) :
  all_recent now h -> prune_history now h = h.
Proof.
  intros Hall. unfold prune_history.
  assert (Hturn : forall topic, topic ∈ dict_keys h -> prune_topic now h topic = h).
  { intros topic Hin. unfold prune_topic.
    destruct (dict_get h topic) as [es|] eqn:Hget.
    - pose proof (dict_get_elem_of _ _ _ Hget) as Hitem.
      unfold all_recent in Hall. rewrite Forall_forall in Hall.
      destruct (Hall _ Hitem) as [Hne Hrecent]. cbn in Hne, Hrecent.
      cbn [default from_option id].
      assert (Hsame : List.filter (is_recent now) es = es).
      { clear -Hrecent. induction es as [|e es IH]; [reflexivity|].
        cbn in Hrecent. apply andb_true_iff in Hrecent as [He Hes].
        cbn. rewrite He. now rewrite IH. }
      rewrite Hsame. destruct es; [congruence|]. now apply dict_set_same.
    - apply dict_get_None in Hget. contradiction. }
  induction (dict_keys h) as [|topic rest IH]; [reflexivity|].
  cbn. rewrite Hturn by (elem_of_head).
  apply IH. intros topic' Hin. apply Hturn. apply elem_of_cons. now right.
Qed.

(** A key within 40 entries stays so while a digest is recorded. *)
Lemma record_sent_keeps_bound (digest : dict str (list article)) (h : history)
    (k : str) :
  (exists es, dict_get h k = Some es /\ (length es <= 40)%nat) ->
  exists es, dict_get (record_sent digest h) k = Some es /\ (length es <= 40)%nat.
Proof.
  unfold record_sent. revert h.
  induction digest as [|[topic articles] rest IH]; intros h Hbound; [exact Hbound|].
  change (fold_left record_topic ((topic, articles) :: rest) h)
    with (fold_left record_topic rest (record_topic h (topic, articles))).
  apply IH. destruct (decide (k = topic_key topic)) as [->|Hne].
  - rewrite record_topic_get_eq. eexists. split; [reflexivity|].
    rewrite last_n_length. lia.
  - now rewrite record_topic_get_ne.
Qed.

(** The key of every topic of a recorded digest is within 40 entries. *)
Lemma record_sent_bound (digest : dict str (list article)) (h : history)
    (topic : str) (articles : list article) :
  (topic, articles) ∈ digest ->
  exists es, dict_get (record_sent digest h) (topic_key topic) = Some es /\
             (length es <= 40)%nat.
Proof.
  unfold record_sent. revert h.
  induction digest as [|[topic0 articles0] rest IH]; intros h Hin.
  - now apply elem_of_nil in Hin.
  - change (fold_left record_topic ((topic0, articles0) :: rest) h)
      with (record_sent rest (record_topic h (topic0, articles0))).
    apply elem_of_cons in Hin as [[= -> ->]|Hin]; [|now apply IH].
    apply record_sent_keeps_bound. rewrite record_topic_get_eq.
    eexists. split; [reflexivity|]. rewrite last_n_length. lia.
Qed.

(** C7: after a sent digest is recorded, the key of each of its topics
    holds at most 40 entries; when the topics have distinct keys these are
    the last 40 of the key's appended sequence (the old entries followed by
    the new ones), the oldest dropped first, 40 out of 45; the other keys
    are unchanged, hence within 40 too if they were.  Pruning at [now]
    keeps, under each key, exactly the entries whose date is read and is
    not more than 30 days before [now], and removes the keys left without
    entries. *)
Theorem history_retention (digest : dict str (list article)) (h : history)
    (now : Z) :
  NoDup (dict_keys h) ->
  (forall topic articles, (topic, articles) ∈ digest ->
     exists es, dict_get (record_sent digest h) (topic_key topic) = Some es /\
                (length es <= 40)%nat) /\
  (NoDup (map topic_key (dict_keys digest)) ->
   forall topic articles, (topic, articles) ∈ digest ->
     let entries := default [] (dict_get h (topic_key topic)) in
     let existing_titles : gset str :=
       list_to_set (map (fun e => normalize (entry_title e)) entries) in
     let appended := appended_entries h topic articles in
     dict_get (record_sent digest h) (topic_key topic) = Some (last_n 40 appended)
     /\ appended =
        entries ++ map (fun a => Entry (title a) (pubDate a))
                    (List.filter (fun a => bool_decide (normalize (title a) ∉ existing_titles))
                                 articles)
     /\ appended = take (length appended - 40) appended ++ last_n 40 appended
     /\ (length appended = 45%nat -> last_n 40 appended = drop 5 appended)) /\
  (forall k, k ∉ map topic_key (dict_keys digest) ->
     dict_get (record_sent digest h) k = dict_get h k) /\
  ((forall k es, dict_get h k = Some es -> (length es <= 40)%nat) ->
   forall k es, dict_get (record_sent digest h) k = Some es -> (length es <= 40)%nat) /\
  (forall k, dict_get (prune_history now h) k = pruned_entries now (dict_get h k)) /\
  (forall k kept, dict_get (prune_history now h) k = Some kept ->
     kept <> [] /\
     exists es, dict_get h k = Some es /\
       forall e, e ∈ kept <->
         e ∈ es /\ exists pub_date, parsedate (entry_pubDate e) = Some pub_date /\
                                    (now - thirty_days <= pub_date)%Z).
Proof.
  intros Hh. split; [|split; [|split; [|split; [|split]]]].
  - intros topic articles Hin. now apply record_sent_bound with articles.
  - intros Hdigest topic articles Hin entries existing_titles appended.
    split; [|split; [|split]].
    + now apply record_sent_get.
    + apply appended_entries_app.
    + apply last_n_suffix.
    + intros Hlen. unfold last_n. now rewrite Hlen.
  - intros k Hout. now apply record_sent_untouched.
  - apply record_sent_capped.
  - intros k. now apply prune_history_get.
  - intros k kept. rewrite prune_history_get by assumption.
    unfold pruned_entries. destruct (dict_get h k) as [es|]; [|discriminate].
    destruct (List.filter (is_recent now) es) as [|e0 kept0] eqn:Hfilter;
      [discriminate|].
    intros [= <-]. split; [discriminate|]. exists es. split; [reflexivity|].
    intros e. rewrite <- Hfilter, <- is_recent_spec.
    rewrite list_elem_of_In, filter_In, <- list_elem_of_In. reflexivity.
Qed.

(** C5 (as amended): the entries of a digest are appended only after a
    successful send; the pruning runs after the send whatever its outcome.
    When the send fails, the history that is saved is the loaded history
    pruned: no entry is added to it, and it is the loaded history itself
    when every loaded entry is recent. *)
Theorem failed_send_saves_pruned_history (e : exn) (now : Z)
    (digest : dict str (list article)) (h : history) :
  send_and_save (Raise e) now digest h = prune_history now h /\
  send_and_save (Return tt) now digest h = prune_history now (record_sent digest h) /\
  (forall full_articles digest_titles saved,
     main_from_selection h full_articles digest_titles (Raise e) now = Some saved ->
     saved = prune_history now h) /\
  (NoDup (dict_keys h) ->
   forall k kept, dict_get (send_and_save (Raise e) now digest h) k = Some kept ->
     exists es, dict_get h k = Some es /\ forall x, x ∈ kept -> x ∈ es) /\
  (all_recent now h -> send_and_save (Raise e) now digest h = h).
Proof.
  split; [reflexivity|]. split; [reflexivity|]. split; [|split].
  - intros full_articles digest_titles saved. unfold main_from_selection.
    destruct (reconcile full_articles digest_titles); [discriminate|].
    now intros [= <-].
  - intros Hnd k kept. unfold send_and_save.
    rewrite prune_history_get by assumption.
    unfold pruned_entries. destruct (dict_get h k) as [es|]; [|discriminate].
    destruct (List.filter (is_recent now) es) as [|e0 kept0] eqn:Hfilter;
      [discriminate|].
    intros [= <-]. exists es. split; [reflexivity|].
    intros x. rewrite <- Hfilter, !list_elem_of_In, filter_In.
    intros [Hx _]. exact Hx.
  - intros Hall. unfold send_and_save. now apply prune_history_all_recent.
Qed.


(** *** Further facts on the built-ins *)

Lemma startswith_app (p post : str) : startswith p (p ++ post) = true.
Proof.
  induction p as [|a p IH]; [reflexivity|]. cbn. now rewrite N.eqb_refl, IH.
Qed.

Lemma startswith_spec (p s : str) :
  startswith p s = true <-> exists post, s = p ++ post.
Proof.
  split.
  - revert s. induction p as [|a p IH]; intros s Hs; [now exists s|].
    destruct s as [|b s]; [discriminate|]. cbn in Hs.
    apply andb_true_iff in Hs as [Hab Hs]. apply N.eqb_eq in Hab as ->.
    destruct (IH s Hs) as [post ->]. now exists post.
  - intros [post ->]. apply startswith_app.
Qed.

(** [sub in s] holds exactly when [s] is some text, [sub], some text. *)
Lemma contains_spec (sub s : str) :
  contains sub s = true <-> exists pre post, s = pre ++ sub ++ post.
Proof.
  induction s as [|c r IH].
  - cbn [contains]. rewrite orb_false_r, startswith_spec. split.
    + intros [post Hs]. now exists [], post.
    + intros (pre & post & Hs). symmetry in Hs.
      apply app_eq_nil in Hs as [_ Hs]. apply app_eq_nil in Hs as [-> ->].
      now exists [].
  - cbn [contains]. rewrite orb_true_iff, startswith_spec, IH. split.
    + intros [[post Hs]|(pre & post & Hs)].
      * now exists [], post.
      * exists (c :: pre), post. now rewrite Hs.
    + intros (pre & post & Hs). destruct pre as [|c' pre].
      * left. now exists post.
      * right. injection Hs as _ Hs. now exists pre, post.
Qed.

(** Deciding the comparisons of a code point with constants, from the
    bounds known on it. *)
Ltac decide_comparisons :=
  repeat match goal with
  | |- context [(?a <=? ?b)] =>
      first [ replace (a <=? b) with true by (symmetry; apply N.leb_le; lia)
            | replace (a <=? b) with false by (symmetry; apply N.leb_gt; lia) ]
  | |- context [(?a =? ?b)] =>
      first [ replace (a =? b) with true by (symmetry; apply N.eqb_eq; lia)
            | replace (a =? b) with false by (symmetry; apply N.eqb_neq; lia) ]
  end.

(** A code point that [lower] changes is a letter, in upper case before
    and in lower case after. *)
Lemma lower_char_cases (c : N) :
  lower_char c = c \/
  (lower_char c = c + 32 /\ (65 <= c <= 90 \/ 192 <= c <= 222)).
Proof.
  unfold lower_char.
  destruct ((65 <=? c) && (c <=? 90)) eqn:Hascii.
  - right. split; [reflexivity|].
    apply andb_true_iff in Hascii as [Ha Hb]. apply N.leb_le in Ha, Hb. lia.
  - destruct ((192 <=? c) && (c <=? 222) && negb (c =? 215)) eqn:Hlatin;
      [|now left].
    right. split; [reflexivity|].
    apply andb_true_iff in Hlatin as [Hlatin _].
    apply andb_true_iff in Hlatin as [Ha Hb]. apply N.leb_le in Ha, Hb. lia.
Qed.

Lemma isspace_lower_char (c : N) : isspace (lower_char c) = isspace c.
Proof.
  destruct (lower_char_cases c) as [Hsame|[Hup Hc]]; rewrite ?Hsame, ?Hup;
    [reflexivity|].
  unfold isspace. destruct Hc; decide_comparisons; reflexivity.
Qed.

Lemma lower_char_idem (c : N) : lower_char (lower_char c) = lower_char c.
Proof.
  destruct (lower_char_cases c) as [Hsame|[Hup Hc]]; rewrite ?Hsame, ?Hup;
    [reflexivity|].
  unfold lower_char. destruct Hc; decide_comparisons; reflexivity.
Qed.

Lemma lower_idem (s : str) : lower (lower s) = lower s.
Proof.
  unfold lower. rewrite map_map. apply map_ext. intros c. apply lower_char_idem.
Qed.

(** [lower] keeps the words apart: it maps the words of a text to the
    words of the lowered text. *)
Lemma split_from_lower (cur s : str) :
  split_from (lower cur) (lower s) = map lower (split_from cur s).
Proof.
  assert (Hrev : forall l, rev (lower l) = lower (rev l)).
  { intros l. unfold lower. now rewrite map_rev. }
  revert cur. induction s as [|c r IH]; intros cur.
  - destruct cur as [|x cur]; [reflexivity|].
    change (split_from (lower (x :: cur)) (lower []))
      with [rev (lower (x :: cur))].
    now rewrite Hrev.
  - change (lower (c :: r)) with (lower_char c :: lower r).
    destruct cur as [|x cur].
    + cbn [lower map split_from]. rewrite isspace_lower_char.
      destruct (isspace c); [apply (IH []) | apply (IH [c])].
    + change (lower (x :: cur)) with (lower_char x :: lower cur).
      cbn [split_from]. rewrite isspace_lower_char.
      change (lower_char x :: lower cur) with (lower (x :: cur)).
      destruct (isspace c).
      * rewrite Hrev. cbn [map]. f_equal. apply (IH []).
      * apply (IH (c :: x :: cur)).
Qed.

Lemma split_lower (s : str) : split (lower s) = map lower (split s).
Proof. apply (split_from_lower [] s). Qed.

(** [split] yields proper tokens: not empty, free of white space. *)
Lemma split_from_tokens (cur s : str) :
  forallb (fun c => negb (isspace c)) cur = true ->
  forallb is_token (split_from cur s) = true.
Proof.
  assert (Htoken : forall x cur', forallb (fun c => negb (isspace c)) (x :: cur') = true ->
                     is_token (rev (x :: cur')) = true).
  { intros x cur' Hcur. unfold is_token. apply andb_true_iff. split.
    - apply negb_true_iff, bool_decide_eq_false. intros Hnil.
      apply (f_equal (@length N)) in Hnil. rewrite length_rev in Hnil. discriminate.
    - apply forallb_forall. intros c Hc. apply in_rev in Hc.
      now apply (proj1 (forallb_forall _ _) Hcur). }
  revert cur. induction s as [|c r IH]; intros cur Hcur.
  - cbn. destruct cur as [|x cur]; [reflexivity|].
    cbn [forallb]. now rewrite Htoken.
  - cbn [split_from]. destruct (isspace c) eqn:Hc.
    + destruct cur as [|x cur]; [now apply IH|].
      cbn [forallb]. rewrite Htoken by assumption. now apply IH.
    + apply IH. cbn [forallb]. now rewrite Hc.
Qed.

Lemma split_tokens (s : str) : forallb is_token (split s) = true.
Proof. now apply split_from_tokens. Qed.

(** A text of white space has no word. *)
Lemma split_spaces (s : str) : forallb isspace s = true -> split s = [].
Proof.
  unfold split. induction s as [|c r IH]; [reflexivity|].
  cbn. intros Hs. apply andb_true_iff in Hs as [-> Hr]. now apply IH.
Qed.

(** *** The Normalizer, further *)

(** X1: [normalize] reads the words of the lowered text and nothing else:
    the case of the letters and the white space around and between the
    words do not count, and a text of white space only gives the empty
    text. *)
Theorem normalize_ignores_case_and_spacing (x : str) :
  normalize (lower x) = normalize x /\
  normalize (join (lit " ") (split x)) = normalize x /\
  (forallb isspace x = true -> normalize x = []).
Proof.
  unfold normalize. split; [|split].
  - now rewrite lower_idem.
  - now rewrite split_lower, split_join, <- split_lower by apply split_tokens.
  - intros Hx. rewrite split_lower, split_spaces by assumption. reflexivity.
Qed.


(** *** The Similarity Matcher, further *)

Lemma Qle_threshold_one (n : nat) :
  n <> 0%nat -> (MATCH_THRESHOLD <= Z.of_nat n # Pos.of_nat n)%Q.
Proof.
  intros Hn. destruct n as [|m]; [congruence|].
  unfold MATCH_THRESHOLD, Qle. cbn [Qnum Qden].
  rewrite <- Pos.of_nat_succ, Zpos_P_of_succ_nat. lia.
Qed.

(** A historical title that holds every token of the candidate passes the
    test of [is_in_history]. *)
Lemma overlaps_subset (T : gset str) (e : entry) :
  T <> ∅ -> T ⊆ token_set (entry_title e) -> overlaps T e.
Proof.
  intros HT Hsub. unfold overlaps. cbn zeta. split.
  - intros Hempty. apply HT. rewrite Hempty in Hsub.
    apply leibniz_equiv. now apply equiv_empty.
  - assert (Hcap : T ∩ token_set (entry_title e) = T)
      by now apply subseteq_intersection_1_L.
    rewrite Hcap. now apply Qle_threshold_one, size_token_set_pos.
Qed.

Lemma is_in_history_overlap (article_title : str) (h : history)
    (topic : str) (articles : list entry) (e : entry) :
  token_set article_title <> ∅ ->
  (topic, articles) ∈ h -> e ∈ articles ->
  overlaps (token_set article_title) e ->
  is_in_history article_title h = Return true.
Proof.
  intros HT Hin He Hov. unfold is_in_history.
  destruct (scan_history_spec _ (dict_values h) HT) as [b [-> Hb]].
  f_equal. apply Hb, Exists_dict_values. now exists topic, articles, e.
Qed.

(** X2: when no entry of the history has tokens - in an empty history for
    one - [is_in_history] returns [False] for every title and does not
    raise, the title without tokens included. *)
Theorem is_in_history_without_history_tokens (article_title : str) (h : history) :
  (forall topic articles e,
     (topic, articles) ∈ h -> e ∈ articles -> token_set (entry_title e) = ∅) ->
  is_in_history article_title h = Return false.
Proof.
  intros Hnone. unfold is_in_history.
  destruct (decide (token_set article_title = ∅)) as [HT|HT].
  - rewrite HT, scan_history_no_tokens. rewrite decide_False; [reflexivity|].
    rewrite Exists_dict_values. intros (topic & articles & e & Hin & He & Hne).
    apply Hne. now apply (Hnone topic articles).
  - destruct (scan_history_spec _ (dict_values h) HT) as [b [-> Hb]].
    destruct b; [|reflexivity]. exfalso.
    destruct Hb as [Hb _]. specialize (Hb eq_refl).
    apply Exists_dict_values in Hb as (topic & articles & e & Hin & He & [Hne _]).
    apply Hne. now apply (Hnone topic articles).
Qed.

(** X3: a title with tokens, all of which are tokens of one title of the
    history, under whatever topic, is a duplicate; so is a title whose
    normalized form is that of a title of the history. *)
Theorem is_in_history_finds_contained_title (article_title : str) (h : history)
    (topic : str) (articles : list entry) (e : entry) :
  token_set article_title <> ∅ ->
  (topic, articles) ∈ h -> e ∈ articles ->
  (token_set article_title ⊆ token_set (entry_title e) ->
   is_in_history article_title h = Return true) /\
  (normalize article_title = normalize (entry_title e) ->
   is_in_history article_title h = Return true).
Proof.
  intros HT Hin He. split.
  - intros Hsub. apply (is_in_history_overlap _ _ topic articles e); try assumption.
    now apply overlaps_subset.
  - intros Hsame. apply (is_in_history_overlap _ _ topic articles e); try assumption.
    apply overlaps_subset; [assumption|]. unfold token_set. now rewrite Hsame.
Qed.

(** *** The banned terms *)

(** X4: [contains_banned_keyword] holds exactly when one of the banned
    terms, as the list has it, is a piece of the normalized text; an empty
    term is a piece of every text. *)
Theorem contains_banned_keyword_spec (text : str) (banned_terms : list str) :
  (contains_banned_keyword text banned_terms = true <->
   exists banned pre post,
     banned ∈ banned_terms /\ normalize text = pre ++ banned ++ post) /\
  ([] ∈ banned_terms -> contains_banned_keyword text banned_terms = true).
Proof.
  assert (Hspec : contains_banned_keyword text banned_terms = true <->
    exists banned pre post,
      banned ∈ banned_terms /\ normalize text = pre ++ banned ++ post).
  { unfold contains_banned_keyword. cbn zeta. rewrite existsb_exists. split.
    - intros (banned & Hin & Hsub). apply contains_spec in Hsub as (pre & post & Heq).
      exists banned, pre, post. split; [now apply list_elem_of_In | assumption].
    - intros (banned & pre & post & Hin & Heq). exists banned.
      split; [now apply list_elem_of_In|]. apply contains_spec. now exists pre, post. }
  split; [exact Hspec|].
  intros Hin. apply Hspec. exists [], [], (normalize text). now split.
Qed.


(** *** The sheets of settings *)

(** A loop that, for some rows, assigns a value to a key of a [dict]. *)
Section Assignments.
Context {V : Type} (f : list str -> option (str * V)).
Context (turn : dict str V -> list str -> dict str V).
Hypothesis turn_assigns : forall d row,
  turn d row = match f row with
               | Some kv => dict_set d kv.1 kv.2
               | None => d
               end.

Lemma assignments_NoDup (rows : list (list str)) (d : dict str V) :
  NoDup (dict_keys d) -> NoDup (dict_keys (fold_left turn rows d)).
Proof using turn_assigns.
  revert d. induction rows as [|row rows IH]; intros d Hd; [exact Hd|].
  cbn. apply IH. rewrite turn_assigns.
  destruct (f row) as [kv|]; [now apply dict_set_NoDup | exact Hd].
Qed.

(** Rows that assign nothing to [k] leave its value. *)
Lemma assignments_keep (rows : list (list str)) (d : dict str V) (k : str) :
  (forall row kv, row ∈ rows -> f row = Some kv -> kv.1 <> k) ->
  dict_get (fold_left turn rows d) k = dict_get d k.
Proof using turn_assigns.
  revert d. induction rows as [|row rows IH]; intros d Hother; [reflexivity|].
  cbn. rewrite IH.
  - rewrite turn_assigns. destruct (f row) as [kv|] eqn:Hrow; [|reflexivity].
    apply dict_get_set_ne. apply (Hother row kv); [elem_of_head | assumption].
  - intros row' kv Hin. apply Hother. apply elem_of_cons. now right.
Qed.

(** The last row that assigns to [k] gives its value. *)
Lemma assignments_last (rows earlier later : list (list str)) (row : list str)
    (d : dict str V) (k : str) (v : V) :
  rows = earlier ++ row :: later -> f row = Some (k, v) ->
  (forall row' kv, row' ∈ later -> f row' = Some kv -> kv.1 <> k) ->
  dict_get (fold_left turn rows d) k = Some v.
Proof using turn_assigns.
  intros -> Hrow Hlater. rewrite fold_left_app. cbn.
  rewrite assignments_keep by assumption.
  rewrite turn_assigns, Hrow. apply dict_get_set_eq.
Qed.

(** The keys only grow, and every row that assigns leaves its key. *)
Lemma assignments_keys_grow (rows : list (list str)) (d : dict str V) (k : str) :
  k ∈ dict_keys d -> k ∈ dict_keys (fold_left turn rows d).
Proof using turn_assigns.
  revert d. induction rows as [|row rows IH]; intros d Hk; [exact Hk|].
  cbn. apply IH. rewrite turn_assigns. destruct (f row) as [kv|]; [|exact Hk].
  rewrite dict_keys_set. destruct (decide (kv.1 ∈ dict_keys d)); [exact Hk|].
  elem_of_front.
Qed.

Lemma assignments_member (rows : list (list str)) (d : dict str V)
    (row : list str) (kv : str * V) :
  row ∈ rows -> f row = Some kv -> kv.1 ∈ dict_keys (fold_left turn rows d).
Proof using turn_assigns.
  revert d. induction rows as [|row0 rows IH]; intros d Hin Hrow.
  - now apply elem_of_nil in Hin.
  - cbn. apply elem_of_cons in Hin as [<-|Hin]; [|now apply IH].
    apply assignments_keys_grow. rewrite turn_assigns, Hrow, dict_keys_set.
    destruct (decide (kv.1 ∈ dict_keys d)); [assumption|]. elem_of_last.
Qed.

(** Every value comes from a row. *)
Lemma assignments_origin (rows : list (list str)) (d : dict str V) (k : str)
    (v : V) :
  dict_get (fold_left turn rows d) k = Some v ->
  dict_get d k = Some v \/ exists row, row ∈ rows /\ f row = Some (k, v).
Proof using turn_assigns.
  revert d. induction rows as [|row rows IH]; intros d Hget; [now left|].
  cbn in Hget. apply IH in Hget as [Hget|(row' & Hin & Hrow')].
  - rewrite turn_assigns in Hget. destruct (f row) as [[k0 v0]|] eqn:Hrow;
      [|now left].
    cbn [fst snd] in Hget. destruct (decide (k0 = k)) as [->|Hne].
    + rewrite dict_get_set_eq in Hget. injection Hget as ->.
      right. exists row. split; [elem_of_head | assumption].
    + rewrite dict_get_set_ne in Hget by assumption. now left.
  - right. exists row'. split; [|assumption]. apply elem_of_cons. now right.
Qed.

End Assignments.

(** What a row of each sheet assigns. *)
Lemma overrides_row_assigns (d : dict str str) (row : list str) :
  overrides_row d row =
  match (match row with
         | c0 :: c1 :: _ => Some (lower (strip c0), lower (strip c1))
         | _ => None
         end) with
  | Some kv => dict_set d kv.1 kv.2
  | None => d
  end.
Proof. destruct row as [|c0 [|c1 rest]]; reflexivity. Qed.

Lemma weights_row_assigns (d : dict str Z) (row : list str) :
  weights_row d row =
  match (match row with
         | c0 :: c1 :: _ => option_map (fun z => (strip c0, z)) (py_int c1)
         | _ => None
         end) with
  | Some kv => dict_set d kv.1 kv.2
  | None => d
  end.
Proof.
  destruct row as [|c0 [|c1 rest]]; try reflexivity.
  cbn. now destruct (py_int c1).
Qed.

Lemma config_row_assigns (d : dict str value) (row : list str) :
  config_row d row =
  match (match row with
         | c0 :: c1 :: _ => Some (strip c0, setting_of (strip c1))
         | _ => None
         end) with
  | Some kv => dict_set d kv.1 kv.2
  | None => d
  end.
Proof.
  destruct row as [|c0 [|c1 rest]]; try reflexivity.
  unfold config_row, setting_of. cbn [fst snd].
  destruct (contains (lit ".") (strip c1)).
  - now destruct (py_float (strip c1)).
  - now destruct (py_int (strip c1)).
Qed.

(** X5: [load_overrides] returns [None] when the request or the reading
    fails, and a [dict] otherwise, empty for a sheet without rows.  The
    first row is never read.  Terms and actions are stripped and
    lowercased; of the rows of one term the last one gives the action;
    rows with less than two cells are passed; every entry comes from a
    row. *)
Theorem load_overrides_last_row_wins (header : list str)
    (rows : list (list str)) (e : exn) :
  load_overrides (Raise e) = None /\
  load_overrides (Return []) = Some [] /\
  exists overrides,
    load_overrides (Return (header :: rows)) = Some overrides /\
    NoDup (dict_keys overrides) /\
    (forall earlier term action rest later,
       rows = earlier ++ (term :: action :: rest) :: later ->
       (forall t a r, (t :: a :: r) ∈ later ->
                      lower (strip t) <> lower (strip term)) ->
       dict_get overrides (lower (strip term)) = Some (lower (strip action))) /\
    (forall k v, dict_get overrides k = Some v ->
       exists term action rest,
         (term :: action :: rest) ∈ rows /\
         k = lower (strip term) /\ v = lower (strip action)).
Proof.
  split; [reflexivity|]. split; [reflexivity|].
  exists (fold_left overrides_row rows []). split; [reflexivity|].
  split; [|split].
  - apply (assignments_NoDup _ _ overrides_row_assigns). apply NoDup_nil_2.
  - intros earlier term action rest later Hrows Hlater.
    apply (assignments_last _ _ overrides_row_assigns rows earlier later
             (term :: action :: rest)); [assumption | reflexivity |].
    intros [|t [|a r]] kv Hin; [discriminate | discriminate |].
    intros [= <-]. cbn [fst]. now apply (Hlater t a r).
  - intros k v Hget.
    apply (assignments_origin _ _ overrides_row_assigns) in Hget
      as [Hget|(row & Hin & Hrow)]; [discriminate|].
    destruct row as [|t [|a r]]; [discriminate | discriminate |].
    injection Hrow as <- <-. now exists t, a, r.
Qed.

(** X6: [load_csv_weights] returns [None] when the request or the reading
    fails.  Otherwise a name, stripped, has the weight of the last row of
    that name whose second cell [int] reads; a row whose second cell is
    not an integer is passed and does not touch the weight an earlier row
    gave; every weight comes from a row. *)
Theorem load_csv_weights_skips_unreadable (header : list str)
    (rows : list (list str)) (e : exn) :
  load_csv_weights (Raise e) = None /\
  exists weights,
    load_csv_weights (Return (header :: rows)) = Some weights /\
    NoDup (dict_keys weights) /\
    (forall earlier name cell rest later z,
       rows = earlier ++ (name :: cell :: rest) :: later ->
       py_int cell = Some z ->
       (forall n c r, (n :: c :: r) ∈ later -> strip n = strip name ->
                      py_int c = None) ->
       dict_get weights (strip name) = Some z) /\
    (forall k z, dict_get weights k = Some z ->
       exists name cell rest,
         (name :: cell :: rest) ∈ rows /\ k = strip name /\ py_int cell = Some z).
Proof.
  split; [reflexivity|].
  exists (fold_left weights_row rows []). split; [reflexivity|].
  split; [|split].
  - apply (assignments_NoDup _ _ weights_row_assigns). apply NoDup_nil_2.
  - intros earlier name cell rest later z Hrows Hcell Hlater.
    apply (assignments_last _ _ weights_row_assigns rows earlier later
             (name :: cell :: rest)); [assumption | cbn; now rewrite Hcell |].
    intros [|n [|c r]] kv Hin; [discriminate | discriminate |].
    destruct (py_int c) as [z'|] eqn:Hc; [|discriminate].
    intros [= <-]. cbn [fst]. intros Hsame.
    specialize (Hlater n c r Hin Hsame). congruence.
  - intros k z Hget.
    apply (assignments_origin _ _ weights_row_assigns) in Hget
      as [Hget|(row & Hin & Hrow)]; [discriminate|].
    destruct row as [|n [|c r]]; [discriminate | discriminate |].
    destruct (py_int c) as [z'|] eqn:Hc; [|discriminate].
    injection Hrow as <- <-. now exists n, c, r.
Qed.

(** X7: [load_config_from_sheet] returns [None] when the request or the
    reading fails.  Otherwise every row with two cells sets its key, the
    last row of a key giving the value: a [float] when the cell has a dot
    and [float] reads it, an [int] when it has no dot and [int] reads it,
    and the text of the cell itself in every other case, so that no row
    is dropped for its value. *)
Theorem load_config_keeps_every_row (header : list str)
    (rows : list (list str)) (e : exn) :
  load_config_from_sheet (Raise e) = None /\
  exists config,
    load_config_from_sheet (Return (header :: rows)) = Some config /\
    (forall key cell rest, (key :: cell :: rest) ∈ rows ->
       strip key ∈ dict_keys config) /\
    (forall earlier key cell rest later,
       rows = earlier ++ (key :: cell :: rest) :: later ->
       (forall k c r, (k :: c :: r) ∈ later -> strip k <> strip key) ->
       dict_get config (strip key) = Some (setting_of (strip cell))) /\
    (forall val, contains (lit ".") val = false -> py_int val = None ->
                 setting_of val = VStr val) /\
    (forall val, contains (lit ".") val = true -> py_float val = false ->
                 setting_of val = VStr val).
Proof.
  split; [reflexivity|].
  exists (fold_left config_row rows []). split; [reflexivity|].
  assert (Hlast : forall earlier key cell rest later,
    rows = earlier ++ (key :: cell :: rest) :: later ->
    (forall k c r, (k :: c :: r) ∈ later -> strip k <> strip key) ->
    dict_get (fold_left config_row rows []) (strip key)
    = Some (setting_of (strip cell))).
  { intros earlier key cell rest later Hrows Hlater.
    apply (assignments_last _ _ config_row_assigns rows earlier later
             (key :: cell :: rest)); [assumption | reflexivity |].
    intros [|k [|c r]] kv Hin; [discriminate | discriminate |].
    intros [= <-]. cbn [fst]. now apply (Hlater k c r). }
  split; [|split; [exact Hlast|split]].
  - intros key cell rest Hin.
    apply (assignments_member _ _ config_row_assigns rows []
             (key :: cell :: rest) (strip key, setting_of (strip cell)));
      [assumption | reflexivity].
  - intros val Hdot Hint. unfold setting_of. now rewrite Hdot, Hint.
  - intros val Hdot Hfloat. unfold setting_of. now rewrite Hdot, Hfloat.
Qed.


(** *** The preferences given to the model *)

Lemma insert_by_score_Permutation (x : str * Z) (l : list (str * Z)) :
  Permutation (insert_by_score x l) (x :: l).
Proof.
  induction l as [|y r IH]; [reflexivity|]. cbn.
  destruct (- x.2 <=? - y.2)%Z; [reflexivity|].
  rewrite IH. apply perm_swap.
Qed.

Lemma insert_by_score_sorted (x : str * Z) (l : list (str * Z)) :
  StronglySorted (fun x y : str * Z => (y.2 <= x.2)%Z) l ->
  StronglySorted (fun x y : str * Z => (y.2 <= x.2)%Z) (insert_by_score x l).
Proof.
  induction l as [|y r IH]; intros Hl; cbn.
  - constructor; [constructor | constructor].
  - apply StronglySorted_inv in Hl as [Hr Hy].
    destruct (Z.leb_spec (- x.2) (- y.2)) as [Hle|Hgt].
    + constructor; [now constructor|]. constructor; [lia|].
      eapply Forall_impl; [exact Hy|]. cbn. intros z Hz. lia.
    + constructor; [now apply IH|].
      rewrite insert_by_score_Permutation. constructor; [lia | exact Hy].
Qed.

Lemma insert_by_score_filter (score : Z) (x : str * Z) (l : list (str * Z)) :
  List.filter (fun y : str * Z => bool_decide (y.2 = score)) (insert_by_score x l) =
  List.filter (fun y : str * Z => bool_decide (y.2 = score)) (x :: l).
Proof.
  induction l as [|y r IH]; [reflexivity|]. cbn [insert_by_score].
  destruct (Z.leb_spec (- x.2) (- y.2)) as [Hle|Hgt]; [reflexivity|].
  cbn [List.filter] in *. rewrite IH.
  destruct (bool_decide_reflect (y.2 = score)) as [Hy|Hy];
    destruct (bool_decide_reflect (x.2 = score)) as [Hx|Hx];
    try reflexivity.
  lia.
Qed.

(** The sort of [build_user_preferences] ranks the items. *)
Lemma sorted_by_score_ranked (items : list (str * Z)) :
  ranked_by_score (sorted_by_score items) items.
Proof.
  unfold ranked_by_score, sorted_by_score.
  induction items as [|x l (Hperm & Hsorted & Hstable)]; cbn [foldr].
  - split; [reflexivity|]. split; [constructor | reflexivity].
  - split; [|split].
    + rewrite insert_by_score_Permutation. now constructor.
    + now apply insert_by_score_sorted.
    + intros score. rewrite insert_by_score_filter. cbn [List.filter].
      now rewrite Hstable.
Qed.

(** X8: in the text of the preferences, the topics come under their
    header by decreasing score, topics of one score in the order of the
    sheet, and so do the keywords under theirs; without topics, keywords
    and overrides the text is empty. *)
Theorem build_user_preferences_ranks_by_score (DEMOTE_FACTOR_text : str)
    (topics keywords : dict str Z) (overrides : dict str str) :
  (topics <> [] ->
   exists ranked rest,
     preference_lines DEMOTE_FACTOR_text topics keywords overrides
     = topics_header :: map score_line ranked ++ rest /\
     ranked_by_score ranked topics) /\
  (keywords <> [] ->
   exists before ranked rest,
     preference_lines DEMOTE_FACTOR_text topics keywords overrides
     = before ++ keywords_header :: map score_line ranked ++ rest /\
     ranked_by_score ranked keywords) /\
  build_user_preferences DEMOTE_FACTOR_text [] [] [] = [].
Proof.
  pose (keyword_lines := match keywords with
                         | [] => []
                         | _ => keywords_header
                                  :: map score_line (sorted_by_score keywords)
                         end).
  pose (override_lines :=
    match terms_with (lit "ban") overrides with
    | [] => []
    | banned => banned_header :: map term_line banned
    end ++
    match terms_with (lit "demote") overrides with
    | [] => []
    | demoted => demoted_header DEMOTE_FACTOR_text :: map term_line demoted
    end).
  split; [|split; [|reflexivity]].
  - intros Htopics. exists (sorted_by_score topics), (keyword_lines ++ override_lines).
    split; [|apply sorted_by_score_ranked].
    subst keyword_lines override_lines. unfold preference_lines. cbn zeta.
    destruct topics as [|t0 topics]; [congruence|].
    destruct keywords, (terms_with (lit "ban") overrides),
      (terms_with (lit "demote") overrides);
      cbn [app]; rewrite <- ?app_assoc, ?app_nil_r; reflexivity.
  - intros Hkeywords.
    exists (match topics with
            | [] => []
            | _ => topics_header :: map score_line (sorted_by_score topics)
            end), (sorted_by_score keywords), override_lines.
    split; [|apply sorted_by_score_ranked].
    subst keyword_lines override_lines. unfold preference_lines. cbn zeta.
    destruct keywords as [|k0 keywords]; [congruence|].
    destruct topics, (terms_with (lit "ban") overrides),
      (terms_with (lit "demote") overrides);
      cbn [app]; rewrite <- ?app_assoc, ?app_nil_r; reflexivity.
Qed.

Lemma terms_with_filter (action : str) (keep : str * str -> bool)
    (overrides : dict str str) :
  (forall kv, kv.2 = action -> keep kv = true) ->
  terms_with action (List.filter keep overrides) = terms_with action overrides.
Proof.
  intros Hkeep. unfold terms_with. f_equal.
  induction overrides as [|kv rest IH]; [reflexivity|]. cbn [List.filter].
  destruct (keep kv) eqn:Hkv; cbn [List.filter].
  - now rewrite IH.
  - rewrite IH. destruct (bool_decide_reflect (kv.2 = action)) as [Heq|];
      [|reflexivity].
    rewrite Hkeep in Hkv by assumption. discriminate.
Qed.

(** X9: of the overrides, [build_user_preferences] reads the terms marked
    [ban] and [demote] and no other: taking every other entry out of the
    overrides leaves the text as it is. *)
Theorem build_user_preferences_reads_ban_and_demote (DEMOTE_FACTOR_text : str)
    (topics keywords : dict str Z) (overrides : dict str str) :
  build_user_preferences DEMOTE_FACTOR_text topics keywords
    (List.filter (fun kv : str * str =>
                    bool_decide (kv.2 = lit "ban")
                    || bool_decide (kv.2 = lit "demote")) overrides)
  = build_user_preferences DEMOTE_FACTOR_text topics keywords overrides.
Proof.
  unfold build_user_preferences, preference_lines. cbn zeta.
  rewrite !terms_with_filter
    by (intros kv Hkv; apply orb_true_iff;
        first [ left; now apply bool_decide_eq_true
              | right; now apply bool_decide_eq_true ]).
  reflexivity.
Qed.


(** *** The feed of a topic *)

(** The loop of [fetch_articles_for_topic], entered with less articles
    than the cap (at least one article is taken), adds the articles of the
    next items up to the cap. *)
Lemma fetch_loop_take (time_cutoff max_articles : Z) (items : list rss_item)
    (articles : list fetched_article) :
  let cap := Z.to_nat (Z.max 1 max_articles) in
  (length articles < cap)%nat ->
  fetch_loop time_cutoff max_articles items articles =
  articles ++ take (cap - length articles) (omap (fresh_article time_cutoff) items).
Proof.
  intros cap. revert articles.
  induction items as [|item rest IH]; intros articles Hlen.
  - cbn. now rewrite take_nil, app_nil_r.
  - cbn [fetch_loop omap list_omap]. unfold fresh_article at 1.
    destruct (item_pubDate item) as [pubDate|]; [|now apply IH].
    destruct (parsedate pubDate) as [pub_dt|]; [|now apply IH].
    destruct (pub_dt <=? time_cutoff)%Z; [now apply IH|].
    rewrite length_app. cbn [length].
    destruct (Z.leb_spec max_articles (Z.of_nat (length articles + 1))) as [Hcap|Hmore].
    + replace (cap - length articles)%nat with 1%nat by (subst cap; lia).
      cbn [take]. now rewrite take_0.
    + rewrite IH by (rewrite length_app; cbn [length]; subst cap; lia).
      rewrite length_app. cbn [length].
      replace (cap - length articles)%nat with (S (cap - (length articles + 1)))
        by (subst cap; lia).
      cbn [take]. now rewrite <- app_assoc.
Qed.

Lemma fetch_articles_take (items : list rss_item) (time_cutoff max_articles : Z) :
  fetch_articles_for_topic (Return items) time_cutoff max_articles
  = take (Z.to_nat (Z.max 1 max_articles)) (omap (fresh_article time_cutoff) items).
Proof.
  unfold fetch_articles_for_topic. rewrite fetch_loop_take by (cbn; lia).
  cbn [app length]. now rewrite Nat.sub_0_r.
Qed.

(** X10: [fetch_articles_for_topic] returns, in the order of the feed,
    the first [max_articles] articles whose date is read and is after the
    cutoff; the cap is tested after an article is added, so that one
    article is returned even for a cap of zero or less; a failed request
    or parse gives the empty list. *)
Theorem fetch_articles_first_fresh (items : list rss_item)
    (time_cutoff max_articles : Z) (e : exn) :
  fetch_articles_for_topic (Return items) time_cutoff max_articles
  = take (Z.to_nat (Z.max 1 max_articles))
         (omap (fresh_article time_cutoff) items) /\
  ((1 <= max_articles)%Z ->
   (Z.of_nat (length (fetch_articles_for_topic (Return items) time_cutoff
                        max_articles)) <= max_articles)%Z) /\
  ((max_articles <= 0)%Z ->
   fetch_articles_for_topic (Return items) time_cutoff max_articles
   = take 1 (omap (fresh_article time_cutoff) items)) /\
  fetch_articles_for_topic (Raise e) time_cutoff max_articles = [].
Proof.
  split; [apply fetch_articles_take|]. split; [|split; [|reflexivity]].
  - intros Hcap. rewrite fetch_articles_take, length_take. lia.
  - intros Hcap. rewrite fetch_articles_take. f_equal. lia.
Qed.

(** X11: every article that [fetch_articles_for_topic] returns has a title
    that is not empty and a date that is read and is after the cutoff, and
    is the article of an item of the feed. *)
Theorem fetch_articles_are_fresh (response : result (list rss_item))
    (time_cutoff max_articles : Z) (a : fetched_article) :
  a ∈ fetch_articles_for_topic response time_cutoff max_articles ->
  fetched_title a <> [] /\
  (exists pub_dt, parsedate (fetched_pubDate a) = Some pub_dt /\
                  (time_cutoff < pub_dt)%Z) /\
  exists items item,
    response = Return items /\ item ∈ items /\
    item_pubDate item = Some (fetched_pubDate a) /\
    item_link item = fetched_link a /\
    (item_title item = Some (fetched_title a) \/
     (fetched_title a = lit "No title" /\
      (item_title item = None \/ item_title item = Some []))).
Proof.
  destruct response as [items|e]; [|intros Hin; now apply elem_of_nil in Hin].
  rewrite fetch_articles_take. intros Hin.
  apply elem_of_take in Hin as (i & Hin & _).
  apply list_elem_of_lookup_2 in Hin.
  apply list_elem_of_omap in Hin as (item & Hitem & Hfresh).
  unfold fresh_article in Hfresh.
  destruct (item_pubDate item) as [pubDate|] eqn:Hdate; [|discriminate].
  destruct (parsedate pubDate) as [pub_dt|] eqn:Hparse; [|discriminate].
  destruct (Z.leb_spec pub_dt time_cutoff) as [|Hafter]; [discriminate|].
  injection Hfresh as <-. cbn [fetched_title fetched_pubDate fetched_link].
  split; [|split].
  - destruct (item_title item) as [[|c t]|]; discriminate.
  - now exists pub_dt.
  - exists items, item. repeat split; try assumption; try reflexivity.
    destruct (item_title item) as [[|c t]|]; [right|left|right]; try reflexivity;
      split; auto.
Qed.


(** *** The code fences *)

Lemma lstrip_length (p : N -> bool) (s : str) :
  (length (lstrip p s) <= length s)%nat.
Proof.
  induction s as [|c r IH]; [reflexivity|]. cbn.
  destruct (p c); cbn; lia.
Qed.

(** [lstrip] leaves a text exactly when the text does not start with a
    character to strip. *)
Lemma lstrip_fixed (p : N -> bool) (s : str) :
  lstrip p s = s <-> match s with [] => True | c :: _ => p c = false end.
Proof.
  destruct s as [|c r]; [easy|]. cbn. destruct (p c) eqn:Hc.
  - split; [|discriminate]. intros Heq. exfalso.
    pose proof (lstrip_length p r) as Hlen. rewrite Heq in Hlen. cbn in Hlen. lia.
  - easy.
Qed.

Lemma lstrip_fixed_app (p : N -> bool) (s t : str) :
  s <> [] -> lstrip p s = s -> lstrip p (s ++ t) = s ++ t.
Proof.
  intros Hne Hs. apply lstrip_fixed in Hs. apply lstrip_fixed.
  destruct s as [|c r]; [congruence | exact Hs].
Qed.

Lemma rstrip_fixed_rev (p : N -> bool) (s : str) :
  rstrip p s = s -> lstrip p (rev s) = rev s.
Proof.
  unfold rstrip. intros Hs. apply (f_equal (@rev N)) in Hs.
  now rewrite rev_involutive in Hs.
Qed.

Lemma rstrip_fixed_app (p : N -> bool) (s t : str) :
  t <> [] -> rstrip p t = t -> rstrip p (s ++ t) = s ++ t.
Proof.
  intros Hne Ht. unfold rstrip. rewrite rev_app_distr.
  rewrite lstrip_fixed_app.
  - now rewrite <- rev_app_distr, rev_involutive.
  - intros Hnil. apply Hne. apply (f_equal (@rev N)) in Hnil.
    now rewrite rev_involutive in Hnil.
  - now apply rstrip_fixed_rev.
Qed.

Lemma drop_fence (s : str) : drop 3 (fence ++ s) = s.
Proof. reflexivity. Qed.

Lemma drop_json (s : str) : drop 4 (lit "json" ++ s) = s.
Proof. reflexivity. Qed.

Section Fenced.

(** A text [j] without white space at its ends, and the same text in a
    fenced block, the opening fence with or without the word [json]. *)
Variable j : str.
Hypothesis j_left : lstrip isspace j = j.
Hypothesis j_right : rstrip isspace j = j.

(** What is left once the opening fence is taken off. *)
Let opened : str := match j with [] => fence | _ => j ++ [10] ++ fence end.

Lemma strip_fenced (word : str) :
  strip (fence ++ word ++ [10] ++ j ++ [10] ++ fence)
  = fence ++ word ++ [10] ++ j ++ [10] ++ fence.
Proof using Type.
  unfold strip.
  replace (lstrip isspace (fence ++ word ++ [10] ++ j ++ [10] ++ fence))
    with (fence ++ word ++ [10] ++ j ++ [10] ++ fence) by reflexivity.
  replace (fence ++ word ++ [10] ++ j ++ [10] ++ fence)
    with ((fence ++ word ++ [10] ++ j ++ [10]) ++ fence)
    by (now rewrite <- !app_assoc).
  now apply rstrip_fixed_app.
Qed.

Lemma lstrip_newline_j :
  lstrip isspace ([10] ++ j ++ [10] ++ fence) = opened.
Proof using j_left j_right.
  subst opened.
  change (lstrip isspace ([10] ++ j ++ [10] ++ fence))
    with (lstrip isspace (j ++ [10] ++ fence)).
  destruct j as [|c r] eqn:Hj; [reflexivity|].
  rewrite <- Hj in *. apply lstrip_fixed_app; [congruence | assumption].
Qed.

Lemma sub_opening_fence_fenced :
  sub_opening_fence (fence ++ lit "json" ++ [10] ++ j ++ [10] ++ fence) = opened /\
  sub_opening_fence (fence ++ [10] ++ j ++ [10] ++ fence) = opened.
Proof using j_left j_right.
  unfold sub_opening_fence. rewrite !startswith_app, !drop_fence. split.
  - rewrite startswith_app, drop_json. apply lstrip_newline_j.
  - change (startswith (lit "json") ([10] ++ j ++ [10] ++ fence)) with false.
    apply lstrip_newline_j.
Qed.

Lemma strip_opened : strip opened = opened.
Proof using j_left j_right.
  subst opened. destruct j as [|c r] eqn:Hj; [reflexivity|]. rewrite <- Hj in *.
  unfold strip. rewrite lstrip_fixed_app by (assumption || congruence).
  replace (j ++ [10] ++ fence) with ((j ++ [10]) ++ fence)
    by (now rewrite <- app_assoc).
  now apply rstrip_fixed_app.
Qed.

Lemma sub_closing_fence_opened : sub_closing_fence opened = j.
Proof using j_left j_right.
  subst opened. unfold sub_closing_fence.
  destruct j as [|c r] eqn:Hj; [reflexivity|]. rewrite <- Hj in *.
  replace (rev (j ++ [10] ++ fence)) with (fence ++ [10] ++ rev j)
    by (rewrite !rev_app_distr, <- app_assoc; reflexivity).
  rewrite startswith_app, drop_fence.
  change (lstrip isspace ([10] ++ rev j)) with (lstrip isspace (rev j)).
  rewrite rstrip_fixed_rev by assumption. apply rev_involutive.
Qed.

Lemma strip_wrappers_fenced :
  strip_wrappers (fence ++ lit "json" ++ [10] ++ j ++ [10] ++ fence) = j /\
  strip_wrappers (fence ++ [10] ++ j ++ [10] ++ fence) = j.
Proof using j_left j_right.
  unfold strip_wrappers. cbn zeta. split.
  - rewrite strip_fenced. rewrite (proj1 sub_opening_fence_fenced).
    apply sub_closing_fence_opened.
  - pose proof (strip_fenced []) as Hstrip.
    change (fence ++ [] ++ [10] ++ j ++ [10] ++ fence)
      with (fence ++ [10] ++ j ++ [10] ++ fence) in Hstrip.
    rewrite Hstrip, (proj2 sub_opening_fence_fenced).
    apply sub_closing_fence_opened.
Qed.

Lemma prioritize_fenced :
  prioritize_with_gemini
    (Return (Some (fence ++ lit "json" ++ [10] ++ j ++ [10] ++ fence)))
  = try_return (safe_parse_json j) except_Exception (Return (VDict [])).
Proof using j_left j_right.
  unfold prioritize_with_gemini. cbn [bind].
  rewrite strip_fenced, startswith_app.
  rewrite bool_decide_eq_false_2 by discriminate. cbn [negb andb].
  rewrite (proj1 sub_opening_fence_fenced), strip_opened, sub_closing_fence_opened.
  reflexivity.
Qed.

End Fenced.

(** X12: [strip_wrappers] takes a text out of its fenced block: for a
    text without white space at its ends, put between an opening fence,
    with or without the word [json], and a closing fence, each on a line
    of its own, it returns the text. *)
Theorem strip_wrappers_unwraps_fence (j : str) :
  lstrip isspace j = j -> rstrip isspace j = j ->
  strip_wrappers (fence ++ lit "json" ++ [10] ++ j ++ [10] ++ fence) = j /\
  strip_wrappers (fence ++ [10] ++ j ++ [10] ++ fence) = j.
Proof. intros Hleft Hright. now apply strip_wrappers_fenced. Qed.

(** X13: for an answer that is a fenced block around a text without white
    space at its ends, [prioritize_with_gemini] parses the text inside the
    fences: it returns what [safe_parse_json] returns for that text, the
    strict parse when the text is strict JSON. *)
Theorem prioritize_with_gemini_unwraps_fence (j : str) :
  lstrip isspace j = j -> rstrip isspace j = j ->
  prioritize_with_gemini
    (Return (Some (fence ++ lit "json" ++ [10] ++ j ++ [10] ++ fence)))
  = try_return (safe_parse_json j) except_Exception (Return (VDict [])) /\
  (forall v, json_loads j = Return v ->
     prioritize_with_gemini
       (Return (Some (fence ++ lit "json" ++ [10] ++ j ++ [10] ++ fence)))
     = Return v).
Proof.
  intros Hleft Hright. rewrite prioritize_fenced by assumption.
  split; [reflexivity|].
  intros v Hstrict. unfold safe_parse_json, try_return. now rewrite Hstrict.
Qed.

(** X14: once the model has answered, [prioritize_with_gemini] does not
    raise: an answer without text gives the empty mapping, and so does
    every answer on which [safe_parse_json] raises, whatever the
    exception; only an exception of the call to the model goes to the
    caller. *)
Theorem prioritize_with_gemini_catches_parse_errors (text : option str) :
  (exists v, prioritize_with_gemini (Return text) = Return v) /\
  prioritize_with_gemini (Return None) = Return (VDict []) /\
  (forall raw e,
     startswith fence (strip raw) = false ->
     safe_parse_json raw = Raise e ->
     prioritize_with_gemini (Return (Some raw)) = Return (VDict [])) /\
  (forall e, prioritize_with_gemini (Raise e) = Raise e).
Proof.
  split; [|split; [reflexivity|split; [|reflexivity]]].
  - destruct text as [raw|]; [|now exists (VDict [])].
    unfold prioritize_with_gemini. cbn [bind].
    destruct (safe_parse_json _) as [v|e]; [now exists v | now exists (VDict [])].
  - intros raw e Hfence Hraise. unfold prioritize_with_gemini. cbn [bind].
    rewrite Hfence, andb_false_r, Hraise. reflexivity.
Qed.


(** *** The cleaning of the text *)

Lemma count_repeat_same (c : N) (n : nat) : count c (repeat_char c n) = n.
Proof.
  unfold repeat_char. induction n as [|n IH]; [reflexivity|].
  cbn. now rewrite N.eqb_refl, IH.
Qed.

(** A text with as many closers as openers of each kind is left as it
    is. *)
Lemma balance_braces_balanced (text : str) :
  count 125 text = count 123 text -> count 93 text = count 91 text ->
  balance_braces text = text.
Proof.
  intros Hbraces Hbrackets. rewrite balance_braces_appends by lia.
  rewrite Hbraces, Hbrackets, !Nat.sub_diag. cbn. now rewrite app_nil_r.
Qed.

(** X15: on a text where no closer is in excess, [balance_braces] only
    appends: the missing closing braces, then the missing closing
    brackets.  The result has as many closers as openers of each kind, a
    second pass leaves it as it is, and a text that is balanced already is
    returned unchanged. *)
Theorem balance_braces_appends_missing_closers (text : str) :
  (count 125 text <= count 123 text)%nat ->
  (count 93 text <= count 91 text)%nat ->
  let balanced := balance_braces text in
  balanced = text ++ repeat_char 125 (count 123 text - count 125 text)
                  ++ repeat_char 93 (count 91 text - count 93 text) /\
  count 125 balanced = count 123 balanced /\
  count 93 balanced = count 91 balanced /\
  balance_braces balanced = balanced /\
  (count 125 text = count 123 text -> count 93 text = count 91 text ->
   balanced = text).
Proof.
  intros Hbraces Hbrackets balanced.
  assert (Happend : balanced =
    text ++ repeat_char 125 (count 123 text - count 125 text)
         ++ repeat_char 93 (count 91 text - count 93 text))
    by now apply balance_braces_appends.
  assert (H125 : count 125 balanced = count 123 balanced).
  { rewrite Happend, !count_app, count_repeat_same.
    rewrite !count_repeat_other by discriminate. lia. }
  assert (H93 : count 93 balanced = count 91 balanced).
  { rewrite Happend, !count_app, count_repeat_same.
    rewrite !count_repeat_other by discriminate. lia. }
  split; [exact Happend|]. split; [exact H125|]. split; [exact H93|].
  split; [now apply balance_braces_balanced|].
  intros Hb1 Hb2. now apply balance_braces_balanced.
Qed.

(** Where the characters of each step of the cleaning come from. *)
Lemma elem_of_lstrip (p : N -> bool) (s : str) (x : N) :
  x ∈ lstrip p s -> x ∈ s.
Proof.
  induction s as [|c r IH]; [easy|]. cbn. destruct (p c); [|easy].
  intros Hx. apply elem_of_cons. right. now apply IH.
Qed.

Lemma elem_of_rstrip (p : N -> bool) (s : str) (x : N) :
  x ∈ rstrip p s -> x ∈ s.
Proof.
  unfold rstrip. intros Hx. apply list_elem_of_In, in_rev, list_elem_of_In in Hx.
  apply elem_of_lstrip in Hx. now apply list_elem_of_In, in_rev, list_elem_of_In.
Qed.

Lemma elem_of_drop_last (k : nat) (s : str) (x : N) :
  x ∈ drop_last k s -> x ∈ s.
Proof.
  unfold drop_last. intros Hx. apply elem_of_take in Hx as (i & Hx & _).
  now apply list_elem_of_lookup_2 in Hx.
Qed.

Lemma elem_of_repeat_char (c : N) (n : nat) (x : N) :
  x ∈ repeat_char c n -> x = c.
Proof. unfold repeat_char. intros Hx. now apply elem_of_replicate in Hx as [-> _]. Qed.

Lemma elem_of_balance_braces (text : str) (x : N) :
  x ∈ balance_braces text -> x ∈ text \/ x = 125 \/ x = 93.
Proof.
  unfold balance_braces. cbn zeta.
  set (braced := if (count 125 text <? count 123 text)%nat
                 then text ++ repeat_char 125 (count 123 text - count 125 text)
                 else if (count 123 text <? count 125 text)%nat
                      then drop_last (count 125 text - count 123 text)
                                     (rstrip (N.eqb 125) text)
                      else text).
  assert (Hbraced : forall y, y ∈ braced -> y ∈ text \/ y = 125).
  { intros y. subst braced. destruct (_ <? _)%nat.
    - intros Hy. apply elem_of_app in Hy as [Hy|Hy]; [now left|].
      right. now apply elem_of_repeat_char in Hy.
    - destruct (_ <? _)%nat; [|now left].
      intros Hy. left. now apply elem_of_drop_last, elem_of_rstrip in Hy. }
  clearbody braced. intros Hx.
  assert (Hcases : x ∈ braced \/ x = 93).
  { destruct (_ <? _)%nat.
    - apply elem_of_app in Hx as [Hx|Hx]; [now left|].
      right. now apply elem_of_repeat_char in Hx.
    - destruct (_ <? _)%nat; [|now left].
      left. now apply elem_of_drop_last, elem_of_rstrip in Hx. }
  destruct Hcases as [Hx' | ->]; [|now right; right].
  destruct (Hbraced x Hx') as [| ->]; [now left | right; now left].
Qed.

Lemma elem_of_sub_trailing_commas (dropping : bool) (s : str) (x : N) :
  x ∈ sub_trailing_commas_from dropping s -> x ∈ s.
Proof.
  revert dropping. induction s as [|c r IH]; intros dropping; [easy|].
  cbn. destruct dropping.
  - destruct (isspace c).
    + intros Hx. apply elem_of_cons. right. now apply IH in Hx.
    + intros Hx. apply elem_of_cons in Hx as [->|Hx]; [elem_of_head|].
      apply elem_of_cons. right. now apply IH in Hx.
  - destruct ((c =? 44) && closer_follows r).
    + intros Hx. apply elem_of_cons. right. now apply IH in Hx.
    + intros Hx. apply elem_of_cons in Hx as [->|Hx]; [elem_of_head|].
      apply elem_of_cons. right. now apply IH in Hx.
Qed.

Lemma elem_of_sub_single_quotes (prev : option N) (inside : bool) (s : str)
    (x : N) :
  x ∈ sub_single_quotes_from prev inside s -> x ∈ s \/ x = 34.
Proof.
  revert prev inside. induction s as [|c r IH]; intros prev inside.
  - intros Hx. now apply elem_of_nil in Hx.
  - assert (Hstep : forall y prev' inside',
      x ∈ y :: sub_single_quotes_from prev' inside' r ->
      y = c \/ y = 34 -> x ∈ c :: r \/ x = 34).
    { intros y prev' inside' Hx Hy. apply elem_of_cons in Hx as [->|Hx].
      - destruct Hy as [-> | ->]; [left; elem_of_head | now right].
      - apply IH in Hx as [Hx|Hx]; [|now right].
        left. apply elem_of_cons. now right. }
    cbn. destruct inside.
    + destruct (c =? 39); intros Hx; eapply Hstep; eauto.
    + destruct ((c =? 39) && after_colon_or_space prev && existsb (N.eqb 39) r);
        intros Hx; eapply Hstep; eauto.
Qed.

Lemma elem_of_sub_array_brace (inside : bool) (s : str) (x : N) :
  x ∈ sub_array_brace_from inside s -> x ∈ s \/ x = 93.
Proof.
  revert inside. induction s as [|c r IH]; intros inside.
  - intros Hx. now apply elem_of_nil in Hx.
  - assert (Hstep : forall y inside',
      x ∈ y :: sub_array_brace_from inside' r ->
      y = c \/ y = 93 -> x ∈ c :: r \/ x = 93).
    { intros y inside' Hx Hy. apply elem_of_cons in Hx as [->|Hx].
      - destruct Hy as [-> | ->]; [left; elem_of_head | now right].
      - apply IH in Hx as [Hx|Hx]; [|now right].
        left. apply elem_of_cons. now right. }
    assert (Hskip : forall inside',
      x ∈ sub_array_brace_from inside' r -> x ∈ c :: r \/ x = 93).
    { intros inside' Hx. apply IH in Hx as [Hx|Hx]; [|now right].
      left. apply elem_of_cons. now right. }
    cbn. destruct inside.
    + destruct (c =? 125); [intros Hx; eapply Hstep; eauto|].
      destruct (isspace c && brace_follows r);
        [apply Hskip | intros Hx; eapply Hstep; eauto].
    + destruct ((c =? 91) && brace_before_bracket r);
        intros Hx; eapply Hstep; eauto.
Qed.

(** X16: the text that [fix_common_json_errors] returns holds no control
    character, byte-order mark or directional mark, and no curly quote,
    whatever the text it is given. *)
Theorem fix_common_json_errors_leaves_no_control (text : str) (c : N) :
  c ∈ fix_common_json_errors text ->
  is_control c = false /\
  c <> 8220 /\ c <> 8221 /\ c <> 8216 /\ c <> 8217.
Proof.
  unfold fix_common_json_errors. cbn zeta. intros Hc.
  apply elem_of_balance_braces in Hc as [Hc | [-> | ->]];
    [|now repeat split|now repeat split].
  unfold strip_control in Hc.
  apply list_elem_of_In, filter_In in Hc as [Hc Hcontrol].
  apply negb_true_iff in Hcontrol. split; [exact Hcontrol|].
  apply list_elem_of_In in Hc.
  apply elem_of_sub_array_brace in Hc as [Hc | ->]; [|now repeat split].
  apply elem_of_sub_single_quotes in Hc as [Hc | ->]; [|now repeat split].
  apply elem_of_sub_trailing_commas in Hc.
  unfold replace_smart_quotes in Hc.
  apply list_elem_of_fmap in Hc as (c0 & -> & _).
  destruct (N.eqb_spec c0 8220), (N.eqb_spec c0 8221); cbn [orb];
    try now repeat split.
  destruct (N.eqb_spec c0 8216), (N.eqb_spec c0 8217); cbn [orb];
    now repeat split.
Qed.


(** *** The candidates of a run *)

(** [is_in_history] raises nothing but [ZeroDivisionError]. *)
Lemma is_in_history_outcomes (article_title : str) (h : history) :
  (exists b, is_in_history article_title h = Return b) \/
  is_in_history article_title h = Raise ZeroDivisionError.
Proof.
  unfold is_in_history.
  destruct (decide (token_set article_title = ∅)) as [HT|HT].
  - rewrite HT, scan_history_no_tokens. destruct (decide _); [now right|].
    left. now exists false.
  - destruct (scan_history_spec _ (dict_values h) HT) as [b [Hscan _]].
    left. now exists b.
Qed.

Lemma elem_of_terms_with (action term : str) (overrides : dict str str) :
  term ∈ terms_with action overrides <-> (term, action) ∈ overrides.
Proof.
  unfold terms_with. rewrite list_elem_of_fmap. split.
  - intros ([k v] & -> & Hin). apply list_elem_of_In, filter_In in Hin as [Hin Hv].
    apply bool_decide_eq_true in Hv. cbn in Hv. subst v. now apply list_elem_of_In.
  - intros Hin. exists (term, action). split; [reflexivity|].
    apply list_elem_of_In, filter_In. split; [now apply list_elem_of_In|].
    now apply bool_decide_eq_true.
Qed.

Lemma headlines_of_set {A : Type} (title_of : A -> str)
    (full_articles : dict str (list A)) (topic : str) (articles : list A) :
  dict_set (headlines_of title_of full_articles) topic (map title_of articles)
  = headlines_of title_of (dict_set full_articles topic articles).
Proof.
  unfold headlines_of. induction full_articles as [|[k v] rest IH]; [reflexivity|].
  cbn. destruct (decide (k = topic)); [reflexivity|]. cbn. now rewrite IH.
Qed.

Section CandidatesFacts.
Context {A : Type} (title_of : A -> str).
Context (fetch : str -> list A) (h : history) (overrides : dict str str).

Let banned_terms : list str := terms_with (lit "ban") overrides.
Let test : A -> bool := allowed_test title_of h banned_terms.

(** The comprehension returns the articles that pass the test, in their
    order, unless the test of one of them raises. *)
Lemma allowed_articles_Return (articles allowed : list A) :
  allowed_articles title_of h banned_terms articles = Return allowed ->
  allowed = List.filter test articles.
Proof.
  revert allowed. induction articles as [|a rest IH]; intros allowed.
  - now intros [= <-].
  - cbn [allowed_articles List.filter]. subst test. unfold allowed_test at 1.
    destruct (is_in_history (title_of a) h) as [duplicate|e]; [|discriminate].
    cbn [bind].
    destruct (allowed_articles title_of h banned_terms rest) as [kept|e];
      [|discriminate].
    cbn [bind]. intros [= <-]. rewrite <- (IH kept eq_refl).
    now destruct duplicate, (contains_banned_keyword (title_of a) banned_terms).
Qed.

Lemma allowed_articles_Raise (articles : list A) (e : exn) :
  allowed_articles title_of h banned_terms articles = Raise e ->
  e = ZeroDivisionError /\
  exists a, a ∈ articles /\ is_in_history (title_of a) h = Raise ZeroDivisionError.
Proof.
  induction articles as [|a rest IH]; [discriminate|].
  cbn [allowed_articles].
  destruct (is_in_history_outcomes (title_of a) h) as [[duplicate Hdup]|Hraise].
  - rewrite Hdup. cbn [bind].
    destruct (allowed_articles title_of h banned_terms rest) as [kept|e'];
      [discriminate|].
    cbn [bind]. intros [= <-]. destruct (IH eq_refl) as (He & a' & Hin & Ha').
    split; [assumption|]. exists a'. split; [|assumption].
    apply elem_of_cons. now right.
  - rewrite Hraise. cbn [bind]. intros [= <-]. split; [reflexivity|].
    exists a. split; [elem_of_head | assumption].
Qed.

Lemma allowed_articles_raises (articles : list A) (a : A) :
  a ∈ articles -> is_in_history (title_of a) h = Raise ZeroDivisionError ->
  allowed_articles title_of h banned_terms articles = Raise ZeroDivisionError.
Proof.
  intros Hin Hraise.
  destruct (allowed_articles title_of h banned_terms articles) as [allowed|e] eqn:Hall.
  - exfalso. revert allowed Hall.
    induction articles as [|a0 rest IH]; intros allowed;
      [now apply elem_of_nil in Hin|].
    cbn [allowed_articles]. apply elem_of_cons in Hin as [<-|Hin].
    + now rewrite Hraise.
    + destruct (is_in_history (title_of a0) h); [|discriminate]. cbn [bind].
      destruct (allowed_articles title_of h banned_terms rest) as [kept|];
        [|discriminate].
      intros _. now apply (IH Hin kept).
  - now apply allowed_articles_Raise in Hall as [-> _].
Qed.

(** One turn of the loop over the topics. *)
Lemma gather_topic_Return (st st' : dict str (list str) * dict str (list A))
    (topic : str) :
  gather_topic title_of fetch h overrides st topic = Return st' ->
  st' = match List.filter test (fetch topic) with
        | [] => st
        | allowed => (dict_set st.1 topic (map title_of allowed),
                      dict_set st.2 topic allowed)
        end.
Proof.
  unfold gather_topic. destruct st as [headlines_to_send full_articles].
  destruct (fetch topic) as [|a0 articles] eqn:Hfetch; [now intros [= <-]|].
  fold banned_terms.
  destruct (allowed_articles title_of h banned_terms (a0 :: articles))
    as [allowed|e] eqn:Hallowed; [|discriminate].
  cbn [bind]. apply allowed_articles_Return in Hallowed. rewrite <- Hallowed.
  destruct allowed; now intros [= <-].
Qed.

Lemma gather_topic_Raise (st : dict str (list str) * dict str (list A))
    (topic : str) (e : exn) :
  gather_topic title_of fetch h overrides st topic = Raise e ->
  e = ZeroDivisionError.
Proof.
  unfold gather_topic. destruct st as [headlines_to_send full_articles].
  destruct (fetch topic) as [|a0 articles]; [discriminate|].
  fold banned_terms.
  destruct (allowed_articles title_of h banned_terms (a0 :: articles))
    as [allowed|e'] eqn:Hallowed.
  - cbn [bind]. destruct allowed; discriminate.
  - cbn [bind]. intros [= <-]. now apply allowed_articles_Raise in Hallowed.
Qed.

(** The loop over the topics, when it raises nothing: the headlines stay
    those of the articles, the keys stay distinct, and each topic visited
    gets the articles fetched for it that pass the test, if there are
    any. *)
Lemma gather_from_Return (topics : list str)
    (st st' : dict str (list str) * dict str (list A)) :
  gather_from title_of fetch h overrides topics st = Return st' ->
  (st.1 = headlines_of title_of st.2 -> st'.1 = headlines_of title_of st'.2) /\
  (NoDup (dict_keys st.2) -> NoDup (dict_keys st'.2)) /\
  forall topic,
    dict_get st'.2 topic =
    if decide (topic ∈ topics) then
      match List.filter test (fetch topic) with
      | [] => dict_get st.2 topic
      | allowed => Some allowed
      end
    else dict_get st.2 topic.
Proof.
  revert st. induction topics as [|t rest IH]; intros st.
  - intros [= <-]. split; [easy|]. split; [easy|]. intros topic.
    rewrite decide_False; [reflexivity | apply not_elem_of_nil].
  - cbn [gather_from].
    destruct (gather_topic title_of fetch h overrides st t) as [st1|e] eqn:Hturn;
      [|discriminate].
    cbn [bind]. intros Hrest. apply gather_topic_Return in Hturn.
    destruct (IH st1 Hrest) as (Hheadlines & Hkeys & Hget). clear IH Hrest.
    assert (Hget1 : forall topic, dict_get st1.2 topic =
      if decide (topic = t) then
        match List.filter test (fetch topic) with
        | [] => dict_get st.2 topic
        | allowed => Some allowed
        end
      else dict_get st.2 topic).
    { intros topic. rewrite Hturn. destruct (decide (topic = t)) as [->|Hne].
      - destruct (List.filter test (fetch t)); [reflexivity|].
        cbn [snd]. apply dict_get_set_eq.
      - destruct (List.filter test (fetch t)); [reflexivity|].
        cbn [snd]. apply dict_get_set_ne. congruence. }
    split; [|split].
    + intros Hst. apply Hheadlines. rewrite Hturn.
      destruct (List.filter test (fetch t)); [assumption|].
      cbn [fst snd]. rewrite Hst. apply headlines_of_set.
    + intros Hst. apply Hkeys. rewrite Hturn.
      destruct (List.filter test (fetch t)); [assumption|].
      cbn [snd]. now apply dict_set_NoDup.
    + intros topic. rewrite Hget, Hget1.
      destruct (decide (topic = t)) as [->|Hne].
      * rewrite (decide_True (P := t ∈ t :: rest)) by elem_of_head.
        destruct (decide (t ∈ rest)); [|reflexivity].
        now destruct (List.filter test (fetch t)).
      * destruct (decide (topic ∈ rest)) as [Hin|Hout].
        -- rewrite decide_True; [reflexivity | apply elem_of_cons; now right].
        -- rewrite decide_False; [reflexivity|].
           rewrite not_elem_of_cons. now split.
Qed.

Lemma gather_from_Raise (topics : list str)
    (st : dict str (list str) * dict str (list A)) (e : exn) :
  gather_from title_of fetch h overrides topics st = Raise e ->
  e = ZeroDivisionError.
Proof.
  revert st. induction topics as [|t rest IH]; intros st; [discriminate|].
  cbn [gather_from].
  destruct (gather_topic title_of fetch h overrides st t) as [st1|e'] eqn:Hturn.
  - cbn [bind]. apply IH.
  - cbn [bind]. intros [= <-]. now apply gather_topic_Raise in Hturn.
Qed.

Lemma gather_from_raises (topics : list str)
    (st : dict str (list str) * dict str (list A)) (topic : str) (a : A) :
  topic ∈ topics -> a ∈ fetch topic ->
  is_in_history (title_of a) h = Raise ZeroDivisionError ->
  gather_from title_of fetch h overrides topics st = Raise ZeroDivisionError.
Proof.
  intros Hin Ha Hraise. revert st.
  induction topics as [|t rest IH]; intros st; [now apply elem_of_nil in Hin|].
  cbn [gather_from].
  destruct (gather_topic title_of fetch h overrides st t) as [st1|e] eqn:Hturn.
  - cbn [bind]. apply elem_of_cons in Hin as [->|Hin]; [|now apply IH].
    exfalso. unfold gather_topic in Hturn. destruct st as [hs full].
    destruct (fetch t) as [|a0 articles] eqn:Hfetch; [now apply elem_of_nil in Ha|].
    fold banned_terms in Hturn.
    rewrite (allowed_articles_raises (a0 :: articles) a Ha Hraise) in Hturn.
    discriminate.
  - cbn [bind]. f_equal. now apply gather_topic_Raise in Hturn.
Qed.

(** The candidates of a run that raises nothing. *)
Lemma gather_Return (topic_weights : dict str Z)
    (headlines_to_send : dict str (list str)) (full_articles : dict str (list A)) :
  gather title_of topic_weights fetch h overrides
  = Return (headlines_to_send, full_articles) ->
  headlines_to_send = headlines_of title_of full_articles /\
  NoDup (dict_keys full_articles) /\
  forall topic,
    dict_get full_articles topic =
    if decide (topic ∈ dict_keys topic_weights) then
      match List.filter test (fetch topic) with
      | [] => None
      | allowed => Some allowed
      end
    else None.
Proof.
  unfold gather. intros Hgather.
  apply gather_from_Return in Hgather as (Hheadlines & Hkeys & Hget).
  cbn [fst snd] in *. split; [now apply Hheadlines|].
  split; [apply Hkeys, NoDup_nil_2|]. exact Hget.
Qed.

End CandidatesFacts.

Lemma allowed_test_true {A : Type} (title_of : A -> str) (h : history)
    (banned_terms : list str) (a : A) :
  allowed_test title_of h banned_terms a = true <->
  is_in_history (title_of a) h = Return false /\
  contains_banned_keyword (title_of a) banned_terms = false.
Proof.
  unfold allowed_test. destruct (is_in_history (title_of a) h) as [[|]|e].
  - split; [discriminate | now intros [[=] _]].
  - rewrite negb_true_iff. split; [now split | now intros [_ ?]].
  - split; [discriminate | now intros [[=] _]].
Qed.

(** X17: when the gathering of the candidates raises nothing, the
    headlines sent to the model are, topic by topic and in the same order,
    the titles of the articles kept for the reconciliation; the topics are
    distinct, none has an empty list, and [total_headlines] counts the
    articles kept. *)
Theorem gather_headlines_are_candidate_titles {A : Type} (title_of : A -> str)
    (topic_weights : dict str Z) (fetch : str -> list A) (h : history)
    (overrides : dict str str)
    (headlines_to_send : dict str (list str)) (full_articles : dict str (list A)) :
  gather title_of topic_weights fetch h overrides
  = Return (headlines_to_send, full_articles) ->
  headlines_to_send
  = map (fun item : str * list A => (item.1, map title_of item.2)) full_articles /\
  dict_keys headlines_to_send = dict_keys full_articles /\
  NoDup (dict_keys full_articles) /\
  (forall topic articles, (topic, articles) ∈ full_articles -> articles <> []) /\
  total_headlines headlines_to_send
  = foldr Nat.add 0%nat (map (@length A) (dict_values full_articles)).
Proof.
  intros Hgather. apply gather_Return in Hgather as (Hheadlines & Hkeys & Hget).
  split; [exact Hheadlines|]. split; [|split; [exact Hkeys|split]].
  - rewrite Hheadlines. unfold headlines_of, dict_keys.
    rewrite <- list_fmap_compose. reflexivity.
  - intros topic articles Hin. apply elem_of_dict_get in Hin; [|assumption].
    rewrite Hget in Hin. destruct (decide _); [|discriminate].
    destruct (List.filter _ _); [discriminate|]. injection Hin as <-. discriminate.
  - rewrite Hheadlines. unfold total_headlines, headlines_of, dict_values.
    f_equal. rewrite <- !list_fmap_compose. apply list_fmap_ext.
    intros i [k v] _. cbn. apply length_map.
Qed.

(** X18: when the gathering raises nothing, the articles kept for a
    topic are the articles fetched for it, in their order, for which
    [is_in_history] returns [False] and [contains_banned_keyword] too; a
    topic is kept exactly when it is a topic of the sheet with at least
    one such article. *)
Theorem gather_keeps_new_unbanned_articles {A : Type} (title_of : A -> str)
    (topic_weights : dict str Z) (fetch : str -> list A) (h : history)
    (overrides : dict str str)
    (headlines_to_send : dict str (list str)) (full_articles : dict str (list A)) :
  gather title_of topic_weights fetch h overrides
  = Return (headlines_to_send, full_articles) ->
  let kept topic :=
    List.filter (allowed_test title_of h (terms_with (lit "ban") overrides))
                (fetch topic) in
  (forall topic,
     dict_get full_articles topic =
     if decide (topic ∈ dict_keys topic_weights) then
       match kept topic with
       | [] => None
       | allowed => Some allowed
       end
     else None) /\
  (forall topic allowed a,
     dict_get full_articles topic = Some allowed ->
     (a ∈ allowed <->
      a ∈ fetch topic /\
      is_in_history (title_of a) h = Return false /\
      contains_banned_keyword (title_of a) (terms_with (lit "ban") overrides)
      = false)).
Proof.
  intros Hgather kept. apply gather_Return in Hgather as (_ & _ & Hget).
  split; [exact Hget|].
  intros topic allowed a Hallowed. rewrite Hget in Hallowed.
  destruct (decide _); [|discriminate].
  destruct (List.filter _ (fetch topic)) as [|a0 l] eqn:Hfilter; [discriminate|].
  injection Hallowed as <-. rewrite <- Hfilter.
  rewrite list_elem_of_In, filter_In, <- list_elem_of_In.
  now rewrite allowed_test_true.
Qed.

(** X19: the gathering raises nothing but [ZeroDivisionError], and it
    does raise it, so that the run ends before anything is sent or saved,
    as soon as one article fetched for a topic of the sheet has a title
    without tokens while the history holds an entry with tokens. *)
Theorem gather_raises_on_title_without_tokens {A : Type} (title_of : A -> str)
    (topic_weights : dict str Z) (fetch : str -> list A) (h : history)
    (overrides : dict str str) :
  (forall e, gather title_of topic_weights fetch h overrides = Raise e ->
             e = ZeroDivisionError) /\
  (forall topic a,
     topic ∈ dict_keys topic_weights -> a ∈ fetch topic ->
     token_set (title_of a) = ∅ ->
     (exists key entries e,
        (key, entries) ∈ h /\ e ∈ entries /\ token_set (entry_title e) <> ∅) ->
     gather title_of topic_weights fetch h overrides = Raise ZeroDivisionError).
Proof.
  split.
  - intros e. apply gather_from_Raise.
  - intros topic a Htopic Ha HT Hex. unfold gather.
    apply (gather_from_raises title_of fetch h overrides _ _ topic a);
      try assumption.
    unfold is_in_history. rewrite HT, scan_history_no_tokens.
    rewrite decide_True; [reflexivity|]. now apply Exists_dict_values.
Qed.

(** X20: from the feeds to the digest: every article of the digest of a
    run was fetched in this run for the topic it stands under, a topic of
    the sheet; [is_in_history] returned [False] for its title and its
    title holds no banned term, whatever the selection that the model
    returned. *)
Theorem digest_articles_are_new_candidates (topic_weights : dict str Z)
    (fetch : str -> list article) (h : history) (overrides : dict str str)
    (headlines_to_send : dict str (list str))
    (full_articles : dict str (list article))
    (digest_titles : dict str (list str)) (topic : str)
    (selected : list article) (a : article) :
  gather title topic_weights fetch h overrides
  = Return (headlines_to_send, full_articles) ->
  dict_get (reconcile full_articles digest_titles) topic = Some selected ->
  a ∈ selected ->
  topic ∈ dict_keys topic_weights /\
  a ∈ fetch topic /\
  is_in_history (title a) h = Return false /\
  contains_banned_keyword (title a) (terms_with (lit "ban") overrides) = false /\
  exists titles t, (topic, titles) ∈ digest_titles /\ t ∈ titles /\
                   normalize (title a) = normalize t.
Proof.
  intros Hgather Hget Ha. apply gather_Return in Hgather as (_ & _ & Hfull).
  unfold reconcile in Hget. apply dict_get_elem_of in Hget.
  apply rebuild_article_entries_sound in Hget as [_ Hsel].
  destruct (Hsel a Ha) as (Hcand & kept & t & Hkept & Ht & Hn).
  rewrite Hfull in Hcand.
  destruct (decide (topic ∈ dict_keys topic_weights)) as [Htopic|];
    [|now apply elem_of_nil in Hcand].
  destruct (List.filter _ (fetch topic)) as [|a0 l] eqn:Hfilter;
    [now apply elem_of_nil in Hcand|].
  cbn [default from_option id] in Hcand. rewrite <- Hfilter in Hcand.
  apply list_elem_of_In, filter_In in Hcand as [Hfetched Htest].
  apply allowed_test_true in Htest as [Hnew Hfree].
  split; [assumption|]. split; [now apply list_elem_of_In|].
  split; [assumption|]. split; [assumption|].
  apply deduplicate_headlines_subset in Hkept as (titles & Hin & Hsub).
  exists titles, t. split; [assumption|]. split; [now apply Hsub | assumption].
Qed.

(** X21: an empty term marked [ban] bans every article: when the sheet of
    overrides has a row whose term is blank and whose action reads [ban],
    and no later row with a blank term, the gathering keeps no article,
    whatever was fetched. *)
Theorem blank_banned_term_bans_everything {A : Type} (title_of : A -> str)
    (topic_weights : dict str Z) (fetch : str -> list A) (h : history)
    (header : list str) (rows : list (list str)) (overrides : dict str str)
    (earlier later : list (list str)) (term action : str) (rest : list str)
    (headlines_to_send : dict str (list str)) (full_articles : dict str (list A)) :
  load_overrides (Return (header :: rows)) = Some overrides ->
  rows = earlier ++ (term :: action :: rest) :: later ->
  strip term = [] -> lower (strip action) = lit "ban" ->
  (forall t a r, (t :: a :: r) ∈ later -> strip t <> []) ->
  gather title_of topic_weights fetch h overrides
  = Return (headlines_to_send, full_articles) ->
  [] ∈ terms_with (lit "ban") overrides /\
  (forall text, contains_banned_keyword text (terms_with (lit "ban") overrides)
                = true) /\
  headlines_to_send = [] /\ full_articles = [].
Proof.
  intros Hload Hrows Hblank Hban Hlater Hgather.
  assert (Hterm : [] ∈ terms_with (lit "ban") overrides).
  { apply elem_of_terms_with, dict_get_elem_of.
    injection Hload as <-.
    replace (@nil N) with (lower (strip term)) by now rewrite Hblank.
    rewrite <- Hban.
    apply (assignments_last _ _ overrides_row_assigns rows earlier later
             (term :: action :: rest)); [assumption | reflexivity |].
    intros [|t [|a r]] kv Hin; [discriminate | discriminate |].
    intros [= <-]. cbn [fst]. rewrite Hblank. cbn.
    intros Hempty. apply (Hlater t a r Hin).
    unfold lower in Hempty. now apply map_eq_nil in Hempty. }
  assert (Hbanned : forall text,
    contains_banned_keyword text (terms_with (lit "ban") overrides) = true).
  { intros text. unfold contains_banned_keyword. cbn zeta.
    apply existsb_exists. exists []. split; [now apply list_elem_of_In|].
    apply contains_spec. now exists [], (normalize text). }
  split; [exact Hterm|]. split; [exact Hbanned|].
  apply gather_Return in Hgather as (Hheadlines & _ & Hget).
  assert (Hnone : full_articles = []).
  { destruct full_articles as [|[topic articles] others]; [reflexivity|].
    exfalso. specialize (Hget topic). cbn [dict_get] in Hget.
    rewrite decide_True in Hget by reflexivity.
    destruct (decide _); [|discriminate].
    destruct (List.filter _ (fetch topic)) as [|a0 l] eqn:Hfilter; [discriminate|].
    assert (Ha0 : In a0 (List.filter
                   (allowed_test title_of h (terms_with (lit "ban") overrides))
                   (fetch topic))) by (rewrite Hfilter; now left).
    apply filter_In in Ha0 as [_ Htest].
    apply allowed_test_true in Htest as [_ Hfree]. now rewrite Hbanned in Hfree. }
  split; [|exact Hnone]. rewrite Hheadlines, Hnone. reflexivity.
Qed.


(** *** The Digest Reconciler, further *)

Lemma NoDup_snoc_fresh {B : Type} (l : list B) (x : B) :
  NoDup l -> x ∉ l -> NoDup (l ++ [x]).
Proof.
  intros Hl Hx. apply NoDup_app. split; [assumption|]. split.
  - intros y Hy Hy'. apply list_elem_of_singleton in Hy'. now subst y.
  - apply NoDup_singleton.
Qed.

Lemma NoDup_map_filter {B C : Type} (f : B -> C) (p : B -> bool) (l : list B) :
  NoDup (map f l) -> NoDup (map f (List.filter p l)).
Proof.
  induction l as [|x l IH]; [easy|]. cbn. rewrite NoDup_cons. intros [Hx Hl].
  destruct (p x); [|now apply IH]. cbn. apply NoDup_cons. split; [|now apply IH].
  intros Hin. apply Hx. apply list_elem_of_fmap in Hin as (y & Hy & Hin).
  apply list_elem_of_fmap. exists y. split; [assumption|].
  now apply list_elem_of_In, filter_In, proj1, list_elem_of_In in Hin.
Qed.

Lemma find_agree {B : Type} (f g : B -> bool) (l : list B) :
  (forall x, f x = g x) -> List.find f l = List.find g l.
Proof.
  intros Hfg. induction l as [|x l IH]; [reflexivity|]. cbn.
  now rewrite Hfg, IH.
Qed.

(** The inner loop of the deduplication keeps titles of distinct
    normalized forms, all of them seen at its end. *)
Lemma dedup_titles_distinct (seen : gset str) (titles : list str) :
  forall seen' kept, fold_left dedup_title titles (seen, []) = (seen', kept) ->
  NoDup (map normalize kept) /\ forall u, u ∈ kept -> normalize u ∈ seen'.
Proof.
  pose (P := fun (done : list str) (st : gset str * list str) =>
    NoDup (map normalize st.2) /\ forall u, u ∈ st.2 -> normalize u ∈ st.1).
  assert (HP : P titles (fold_left dedup_title titles (seen, []))).
  { apply fold_left_invariant.
    - split; [apply NoDup_nil_2|]. intros u Hu. now apply elem_of_nil in Hu.
    - intros done t [s k] [Hnd Hseen]. unfold P, dedup_title.
      cbn [fst snd] in Hnd, Hseen.
      destruct (decide (normalize t ∈ s)) as [Hin|Hout]; cbn [fst snd];
        [now split|].
      split.
      + rewrite map_app. cbn [map]. apply NoDup_snoc_fresh; [assumption|].
        intros Hin. apply list_elem_of_fmap in Hin as (u & Hu & Hin).
        apply Hout. rewrite Hu. now apply Hseen.
      + intros u Hu. apply elem_of_union. apply elem_of_app in Hu as [Hu|Hu].
        * right. now apply Hseen.
        * apply list_elem_of_singleton in Hu as ->. left.
          now apply elem_of_singleton. }
  intros seen' kept Heq. rewrite Heq in HP. exact HP.
Qed.

(** Every topic of the deduplicated selection holds titles of distinct
    normalized forms. *)
Lemma deduplicate_headlines_distinct (digest_titles : dict str (list str)) :
  forall topic kept, (topic, kept) ∈ deduplicate_headlines digest_titles ->
  NoDup (map normalize kept).
Proof.
  unfold deduplicate_headlines.
  apply (fold_left_invariant dedup_topic (∅, [])
    (fun done st => forall topic kept, (topic, kept) ∈ st.2 ->
       NoDup (map normalize kept))).
  - intros topic kept Hin. now apply elem_of_nil in Hin.
  - intros done [topic titles] [seen deduped] IH topic' kept'. unfold dedup_topic.
    destruct (fold_left dedup_title titles (seen, [])) as [seen' kept] eqn:Hloop.
    apply dedup_titles_distinct in Hloop as [Hnd _]. cbn [snd] in *.
    intros Hin.
    assert (Hcases : (topic', kept') ∈ deduped \/ (topic' = topic /\ kept' = kept)).
    { destruct kept; [now left | now apply elem_of_dict_set in Hin]. }
    destruct Hcases as [Hold|[-> ->]]; [now apply (IH topic')|assumption].
Qed.

(** The inner loop of the rebuild: the forms seen are those of the
    articles selected, which are distinct; and when the titles have
    distinct normalized forms, every title that matches a candidate gets
    the first candidate that it matches. *)
Lemma rebuild_titles_distinct (articles : list article) (titles : list str) :
  let st := fold_left (rebuild_title articles) titles ([], ∅) in
  NoDup (map (fun a => normalize (title a)) st.1) /\
  (forall n, n ∈ st.2 -> exists t, t ∈ titles /\ normalize t = n) /\
  (NoDup (map normalize titles) ->
   forall t a, t ∈ titles ->
     List.find (fun c => bool_decide (normalize (title c) = normalize t)) articles
     = Some a ->
     a ∈ st.1).
Proof.
  cbn zeta.
  pose (P := fun (done : list str) (st : list article * gset str) =>
       (NoDup (map (fun a => normalize (title a)) st.1) /\
        (forall a, a ∈ st.1 -> normalize (title a) ∈ st.2)) /\
       (forall n, n ∈ st.2 -> exists t, t ∈ done /\ normalize t = n) /\
       (NoDup (map normalize done) ->
        forall t a, t ∈ done ->
          List.find (fun c => bool_decide (normalize (title c) = normalize t))
                    articles = Some a ->
          a ∈ st.1)).
  cut (P titles (fold_left (rebuild_title articles) titles ([], ∅)));
    [intros ((Hnd & _) & Hseen & Hcomplete); now repeat split|].
  apply fold_left_invariant; unfold P.
  - split; [split; [apply NoDup_nil_2|]|split].
    + intros a Ha. now apply elem_of_nil in Ha.
    + intros n Hn. now apply elem_of_empty in Hn.
    + intros _ t a Ht. now apply elem_of_nil in Ht.
  - intros done t [selected seen_titles] ((Hnd & Hin_seen) & Hseen & Hcomplete).
    cbn [fst snd] in Hnd, Hin_seen, Hseen, Hcomplete. unfold rebuild_title.
    destruct (first_match t seen_titles articles) as [found|] eqn:Hfind;
      cbn [fst snd].
    + pose proof Hfind as Htest. unfold first_match in Htest.
      apply find_some in Htest as [_ Htest].
      apply andb_true_iff in Htest as [Hsame Hfresh].
      apply bool_decide_eq_true in Hsame, Hfresh.
      split; [split|split].
      * rewrite map_app. cbn [map]. apply NoDup_snoc_fresh; [assumption|].
        intros Hin. apply list_elem_of_fmap in Hin as (a & Ha & Hin).
        apply Hfresh. rewrite <- Hsame, Ha. now apply Hin_seen.
      * intros a Ha. apply elem_of_union. apply elem_of_app in Ha as [Ha|Ha].
        -- right. now apply Hin_seen.
        -- apply list_elem_of_singleton in Ha as ->. left.
           now apply elem_of_singleton.
      * intros n Hn. apply elem_of_union in Hn as [Hn|Hn].
        -- apply elem_of_singleton in Hn as ->. exists t.
           split; [elem_of_last | reflexivity].
        -- destruct (Hseen n Hn) as (u & Hu & Hn'). exists u.
           split; [elem_of_front | assumption].
      * intros Hdistinct t' a Ht' Hfirst.
        rewrite map_app in Hdistinct. apply NoDup_app in Hdistinct as (Hdone & Hnew & _).
        apply elem_of_app in Ht' as [Ht'|Ht'].
        -- apply elem_of_app. left. now apply (Hcomplete Hdone t').
        -- apply list_elem_of_singleton in Ht' as ->.
           assert (Hunseen : normalize t ∉ seen_titles).
           { intros Hn. destruct (Hseen _ Hn) as (u & Hu & Hn').
             apply (Hnew (normalize t)); [|elem_of_head].
             apply list_elem_of_fmap. now exists u. }
           unfold first_match in Hfind.
           rewrite (find_agree _
             (fun c => bool_decide (normalize (title c) = normalize t))) in Hfind.
           ++ rewrite Hfirst in Hfind. injection Hfind as <-. elem_of_last.
           ++ intros c. rewrite (bool_decide_eq_true_2 _ Hunseen).
              apply andb_true_r.
    + split; [now split|split].
      * intros n Hn. destruct (Hseen n Hn) as (u & Hu & Hn'). exists u.
        split; [elem_of_front | assumption].
      * intros Hdistinct t' a Ht' Hfirst.
        rewrite map_app in Hdistinct. apply NoDup_app in Hdistinct as (Hdone & Hnew & _).
        apply elem_of_app in Ht' as [Ht'|Ht']; [now apply (Hcomplete Hdone t')|].
        apply list_elem_of_singleton in Ht' as ->. exfalso.
        assert (Hunseen : normalize t ∉ seen_titles).
        { intros Hn. destruct (Hseen _ Hn) as (u & Hu & Hn').
          apply (Hnew (normalize t)); [|elem_of_head].
          apply list_elem_of_fmap. now exists u. }
        unfold first_match in Hfind.
        rewrite (find_agree _
          (fun c => bool_decide (normalize (title c) = normalize t))) in Hfind.
        -- congruence.
        -- intros c. rewrite (bool_decide_eq_true_2 _ Hunseen).
           apply andb_true_r.
Qed.

(** What the rebuild gives a topic: the articles that its inner loop
    selects for the titles of the topic, when there are any. *)
Lemma rebuild_from_get (full_articles : dict str (list article))
    (digest_titles : dict str (list str)) (digest : dict str (list article))
    (topic : str) :
  NoDup (dict_keys digest_titles) ->
  dict_get (fold_left (rebuild_topic full_articles) digest_titles digest) topic =
  match dict_get digest_titles topic with
  | Some titles =>
      match (fold_left (rebuild_title (default [] (dict_get full_articles topic)))
                       titles ([], ∅)).1 with
      | [] => dict_get digest topic
      | selected => Some selected
      end
  | None => dict_get digest topic
  end.
Proof.
  revert digest. induction digest_titles as [|[t titles] rest IH]; intros digest Hnd;
    [reflexivity|].
  change (dict_keys ((t, titles) :: rest)) with (t :: dict_keys rest) in Hnd.
  apply NoDup_cons in Hnd as [Hfresh Hnd].
  cbn [fold_left dict_get]. rewrite IH by assumption.
  assert (Hturn : forall k,
    dict_get (rebuild_topic full_articles digest (t, titles)) k =
    if decide (t = k) then
      match (fold_left (rebuild_title (default [] (dict_get full_articles t)))
                       titles ([], ∅)).1 with
      | [] => dict_get digest k
      | selected => Some selected
      end
    else dict_get digest k).
  { intros k. unfold rebuild_topic.
    destruct (fold_left _ titles ([], ∅)) as [selected seen_titles]. cbn [fst].
    destruct (decide (t = k)) as [->|Hne].
    - destruct selected; [reflexivity | apply dict_get_set_eq].
    - destruct selected; [reflexivity | now apply dict_get_set_ne]. }
  rewrite Hturn. destruct (decide (t = topic)) as [->|Hne]; [|reflexivity].
  apply dict_get_None in Hfresh. now rewrite Hfresh.
Qed.

(** Every topic of the rebuilt digest holds what the inner loop selects
    for some titles given for the topic. *)
Lemma rebuild_article_entries_origin (full_articles : dict str (list article))
    (digest_titles : dict str (list str)) :
  forall topic selected,
  (topic, selected) ∈ rebuild_article_entries full_articles digest_titles ->
  exists titles, (topic, titles) ∈ digest_titles /\
    selected = (fold_left (rebuild_title (default [] (dict_get full_articles topic)))
                          titles ([], ∅)).1.
Proof.
  unfold rebuild_article_entries.
  apply (fold_left_invariant (rebuild_topic full_articles) []
    (fun done digest => forall topic selected, (topic, selected) ∈ digest ->
       exists titles, (topic, titles) ∈ done /\
         selected = (fold_left (rebuild_title (default [] (dict_get full_articles topic)))
                               titles ([], ∅)).1)).
  - intros topic selected Hin. now apply elem_of_nil in Hin.
  - intros done [topic titles] digest IH topic' selected'. unfold rebuild_topic.
    destruct (fold_left _ titles ([], ∅)) as [selected seen_titles] eqn:Hloop.
    intros Hin.
    assert (Hcases : (topic', selected') ∈ digest \/
                     (topic' = topic /\ selected' = selected)).
    { destruct selected; [now left | now apply elem_of_dict_set in Hin]. }
    destruct Hcases as [Hold|[-> ->]].
    + destruct (IH _ _ Hold) as (ts & Hts & Heq). exists ts.
      split; [elem_of_front | assumption].
    + exists titles. split; [elem_of_last|]. now rewrite Hloop.
Qed.

(** The articles of a topic of the digest have distinct normalized
    titles. *)
Lemma reconcile_distinct (full_articles : dict str (list article))
    (digest_titles : dict str (list str)) (topic : str)
    (selected : list article) :
  (topic, selected) ∈ reconcile full_articles digest_titles ->
  NoDup (map (fun a => normalize (title a)) selected).
Proof.
  unfold reconcile. intros Hin.
  apply rebuild_article_entries_origin in Hin as (titles & _ & ->).
  apply rebuild_titles_distinct.
Qed.

(** X22: no topic of the digest lists a story twice: the articles under a
    topic of the reconciled digest have normalized titles that are all
    distinct. *)
Theorem digest_topic_has_distinct_titles (full_articles : dict str (list article))
    (digest_titles : dict str (list str)) (topic : str)
    (selected : list article) :
  dict_get (reconcile full_articles digest_titles) topic = Some selected ->
  NoDup (map (fun a => normalize (title a)) selected).
Proof.
  intros Hget. apply dict_get_elem_of in Hget.
  now apply reconcile_distinct in Hget.
Qed.

(** X23: no selected headline is lost: in a selection with distinct
    topics, a title whose normalized form is under no earlier topic and
    is the form of a candidate of its topic is in the digest under that
    topic, as the first candidate of the topic with that form. *)
Theorem reconcile_keeps_matching_titles (full_articles : dict str (list article))
    (digest_titles earlier later : dict str (list str)) (topic : str)
    (titles : list str) (t : str) (a : article) :
  NoDup (dict_keys digest_titles) ->
  digest_titles = earlier ++ (topic, titles) :: later ->
  t ∈ titles ->
  (forall tp ts u, (tp, ts) ∈ earlier -> u ∈ ts -> normalize u <> normalize t) ->
  List.find (fun c => bool_decide (normalize (title c) = normalize t))
            (default [] (dict_get full_articles topic)) = Some a ->
  exists selected,
    dict_get (reconcile full_articles digest_titles) topic = Some selected /\
    a ∈ selected.
Proof.
  intros Hnd Hsplit Ht Hfirst Hfind.
  unfold reconcile, deduplicate_headlines, rebuild_article_entries.
  destruct (fold_left dedup_topic digest_titles (∅, [])) as [seen deduped] eqn:Hfold.
  destruct (dedup_topics_invariant digest_titles Hnd seen deduped Hfold)
    as (_ & _ & _ & O5 & O6).
  destruct (O5 earlier topic titles later t Hsplit Ht Hfirst)
    as (kept & u & Hkept & Hu & Hn).
  assert (Hdistinct : NoDup (map normalize kept)).
  { apply (deduplicate_headlines_distinct digest_titles topic).
    unfold deduplicate_headlines. rewrite Hfold. now apply dict_get_elem_of. }
  cbn [snd]. rewrite rebuild_from_get, Hkept by assumption.
  pose proof (rebuild_titles_distinct (default [] (dict_get full_articles topic)) kept)
    as (_ & _ & Hcomplete).
  rewrite <- Hn in Hfind. specialize (Hcomplete Hdistinct u a Hu Hfind).
  destruct (fold_left _ kept ([], ∅)) as [selected seen_titles]. cbn [fst] in *.
  destruct selected as [|a0 selected]; [now apply elem_of_nil in Hcomplete|].
  now exists (a0 :: selected).
Qed.


(** *** The History Store, further *)

Section DictAppend.
Context {K V : Type} `{EqDecision K}.
Implicit Types (d pre rest : dict K V) (k : K) (v : V).

Lemma dict_get_app_fresh pre d k :
  k ∉ dict_keys pre -> dict_get (pre ++ d) k = dict_get d k.
Proof.
  unfold dict_keys. induction pre as [|[k0 v0] pre IH]; [reflexivity|].
  cbn. rewrite not_elem_of_cons. intros [Hne Hout].
  rewrite decide_False by congruence. now apply IH.
Qed.

Lemma dict_set_app_fresh pre rest k v v' :
  k ∉ dict_keys pre ->
  dict_set (pre ++ (k, v) :: rest) k v' = pre ++ (k, v') :: rest.
Proof.
  unfold dict_keys. induction pre as [|[k0 v0] pre IH]; cbn.
  - intros _. now rewrite decide_True.
  - rewrite not_elem_of_cons. intros [Hne Hout].
    rewrite decide_False by congruence. now rewrite IH.
Qed.

Lemma dict_del_app_fresh pre rest k v :
  k ∉ dict_keys pre -> dict_del (pre ++ (k, v) :: rest) k = pre ++ rest.
Proof.
  unfold dict_keys. induction pre as [|[k0 v0] pre IH]; cbn.
  - intros _. now rewrite decide_True.
  - rewrite not_elem_of_cons. intros [Hne Hout].
    rewrite decide_False by congruence. now rewrite IH.
Qed.

End DictAppend.

Lemma filter_filter_weaker {B : Type} (f g : B -> bool) (l : list B) :
  (forall x, f x = true -> g x = true) ->
  List.filter f (List.filter g l) = List.filter f l.
Proof.
  intros Hfg. induction l as [|x l IH]; [reflexivity|]. cbn.
  destruct (g x) eqn:Hg; cbn.
  - now rewrite IH.
  - rewrite IH. destruct (f x) eqn:Hf; [|reflexivity].
    apply Hfg in Hf. congruence.
Qed.

(** An entry that is recent at a time is recent at every earlier time. *)
Lemma is_recent_earlier (now now' : Z) (e : entry) :
  (now <= now')%Z -> is_recent now' e = true -> is_recent now e = true.
Proof.
  unfold is_recent. intros Hle. destruct (parsedate (entry_pubDate e)); [|easy].
  rewrite !Z.leb_le. lia.
Qed.

(** The pruning loop, key after key: the items before the keys still to
    visit are final, the others are as they were. *)
Lemma prune_topics_omap (now : Z) (pre h : history) :
  NoDup (dict_keys (pre ++ h)) ->
  fold_left (prune_topic now) (dict_keys h) (pre ++ h)
  = pre ++ omap (pruned_item now) h.
Proof.
  revert pre. induction h as [|[k es] rest IH]; intros pre Hnd; [reflexivity|].
  assert (Hfresh : k ∉ dict_keys pre).
  { unfold dict_keys in *. rewrite fmap_app in Hnd.
    apply NoDup_app in Hnd as (_ & Hdisjoint & _).
    intros Hin. apply (Hdisjoint k Hin). cbn. elem_of_head. }
  change (dict_keys ((k, es) :: rest)) with (k :: dict_keys rest).
  cbn [fold_left omap list_omap]. unfold pruned_item at 1. cbn [fst snd].
  unfold prune_topic at 2. rewrite dict_get_app_fresh by assumption.
  cbn [dict_get]. rewrite decide_True by reflexivity.
  cbn [default from_option id].
  destruct (List.filter (is_recent now) es) as [|e0 kept] eqn:Hfilter.
  - rewrite dict_del_app_fresh by assumption. apply IH.
    unfold dict_keys in *. rewrite fmap_app in *. cbn in Hnd.
    apply NoDup_app in Hnd as (Hpre & Hdisjoint & Hrest).
    apply NoDup_cons in Hrest as [_ Hrest].
    apply NoDup_app. split; [assumption|]. split; [|assumption].
    intros x Hx Hx'. apply (Hdisjoint x Hx). apply elem_of_cons. now right.
  - rewrite dict_set_app_fresh by assumption.
    change (pre ++ (k, e0 :: kept) :: rest)
      with (pre ++ [(k, e0 :: kept)] ++ rest).
    rewrite app_assoc, IH.
    + now rewrite <- app_assoc.
    + unfold dict_keys in *. rewrite !fmap_app in *. cbn in *.
      now rewrite <- app_assoc.
Qed.

(** Pruning keeps the keys in their order and, under each key that
    stays, the recent entries in theirs. *)
Lemma prune_history_omap (now : Z) (h : history) :
  NoDup (dict_keys h) -> prune_history now h = omap (pruned_item now) h.
Proof. intros Hnd. apply (prune_topics_omap now [] h Hnd). Qed.

Lemma prune_history_NoDup (now : Z) (h : history) :
  NoDup (dict_keys h) -> NoDup (dict_keys (prune_history now h)).
Proof.
  assert (Hloop : forall topics h', NoDup (dict_keys h') ->
            NoDup (dict_keys (fold_left (prune_topic now) topics h'))).
  { induction topics as [|topic rest IH]; intros h' Hnd; [exact Hnd|].
    cbn. apply IH. now apply prune_topic_NoDup. }
  apply Hloop.
Qed.

Lemma pruned_item_later (now now' : Z) (item : str * list entry) :
  (now <= now')%Z ->
  match pruned_item now item with
  | Some kept => pruned_item now' kept
  | None => None
  end = pruned_item now' item.
Proof.
  intros Hle. destruct item as [k es]. unfold pruned_item. cbn [fst snd].
  assert (Hfilter : List.filter (is_recent now') (List.filter (is_recent now) es)
                    = List.filter (is_recent now') es).
  { apply filter_filter_weaker. intros e. now apply is_recent_earlier. }
  destruct (List.filter (is_recent now) es) as [|e0 kept] eqn:Hkept.
  - now rewrite <- Hfilter.
  - cbn [fst snd]. now rewrite Hfilter.
Qed.

Lemma omap_pruned_later (now now' : Z) (h : history) :
  (now <= now')%Z ->
  omap (pruned_item now') (omap (pruned_item now) h) = omap (pruned_item now') h.
Proof.
  intros Hle. induction h as [|item rest IH]; [reflexivity|].
  cbn [omap list_omap]. rewrite <- (pruned_item_later now now' item Hle).
  destruct (pruned_item now item) as [kept|]; [|exact IH].
  cbn [omap list_omap]. now rewrite IH.
Qed.

(** X24: pruning keeps the keys of the history in their order, with the
    recent entries of each in theirs, and takes out the keys left without
    entries; pruning at a time and then at a later time is pruning at the
    later time, and pruning twice at one time is pruning once. *)
Theorem prune_history_composes (now now' : Z) (h : history) :
  NoDup (dict_keys h) ->
  prune_history now h = omap (pruned_item now) h /\
  ((now <= now')%Z ->
   prune_history now' (prune_history now h) = prune_history now' h) /\
  prune_history now (prune_history now h) = prune_history now h.
Proof.
  intros Hnd.
  assert (Hlater : forall later, (now <= later)%Z ->
    prune_history later (prune_history now h) = prune_history later h).
  { intros later Hle.
    rewrite (prune_history_omap later (prune_history now h))
      by now apply prune_history_NoDup.
    rewrite !prune_history_omap by assumption. now apply omap_pruned_later. }
  split; [now apply prune_history_omap|]. split; [apply Hlater|].
  apply Hlater. lia.
Qed.

Lemma record_topic_NoDup (h : history) (item : str * list article) :
  NoDup (dict_keys h) -> NoDup (dict_keys (record_topic h item)).
Proof.
  intros Hnd. destruct item as [topic articles]. unfold record_topic.
  apply dict_set_NoDup. destruct (dict_get h (topic_key topic)); [assumption|].
  now apply dict_set_NoDup.
Qed.

Lemma record_sent_NoDup (digest : dict str (list article)) (h : history) :
  NoDup (dict_keys h) -> NoDup (dict_keys (record_sent digest h)).
Proof.
  unfold record_sent. revert h.
  induction digest as [|item rest IH]; intros h Hnd; [exact Hnd|].
  cbn. apply IH. now apply record_topic_NoDup.
Qed.

Lemma distinct_titles_last_n (n : nat) (entries : list entry) :
  distinct_titles entries -> distinct_titles (last_n n entries).
Proof.
  unfold distinct_titles, last_n. intros Hnd.
  change (map (fun e => normalize (entry_title e)) (drop (length entries - n) entries))
    with ((fun e => normalize (entry_title e)) <$> drop (length entries - n) entries).
  rewrite fmap_drop. eapply sublist_NoDup; [exact Hnd | apply sublist_drop].
Qed.

(** Appending the articles of a topic with distinct normalized titles
    keeps the normalized titles of the sequence distinct. *)
Lemma distinct_titles_appended (h : history) (topic : str)
    (articles : list article) :
  (forall es, dict_get h (topic_key topic) = Some es -> distinct_titles es) ->
  NoDup (map (fun a => normalize (title a)) articles) ->
  distinct_titles (appended_entries h topic articles).
Proof.
  intros Hold Hnew. rewrite appended_entries_app. cbn zeta.
  set (entries := default [] (dict_get h (topic_key topic))).
  assert (Hentries : distinct_titles entries).
  { subst entries. destruct (dict_get h (topic_key topic)) as [es|];
      [now apply Hold | apply NoDup_nil_2]. }
  unfold distinct_titles. rewrite map_app, map_map. cbn [entry_title].
  apply NoDup_app. split; [exact Hentries|]. split.
  - intros n Hn Hn'. apply list_elem_of_fmap in Hn' as (a & -> & Ha).
    apply list_elem_of_In, filter_In in Ha as [_ Ha].
    apply bool_decide_eq_true in Ha. apply Ha. now apply elem_of_list_to_set.
  - now apply NoDup_map_filter.
Qed.

Lemma record_sent_distinct (digest : dict str (list article)) (h : history) :
  (forall topic articles, (topic, articles) ∈ digest ->
     NoDup (map (fun a => normalize (title a)) articles)) ->
  (forall k es, dict_get h k = Some es -> distinct_titles es) ->
  forall k es, dict_get (record_sent digest h) k = Some es -> distinct_titles es.
Proof.
  unfold record_sent. revert h.
  induction digest as [|[topic articles] rest IH]; intros h Hdigest Hh; [exact Hh|].
  change (fold_left record_topic ((topic, articles) :: rest) h)
    with (fold_left record_topic rest (record_topic h (topic, articles))).
  apply IH.
  - intros tp arts Hin. apply (Hdigest tp). apply elem_of_cons. now right.
  - intros k es. destruct (decide (k = topic_key topic)) as [->|Hne].
    + rewrite record_topic_get_eq. intros [= <-].
      apply distinct_titles_last_n, distinct_titles_appended.
      * intros es'. apply Hh.
      * apply (Hdigest topic). elem_of_head.
    + rewrite record_topic_get_ne by assumption. apply Hh.
Qed.

Lemma prune_history_distinct (now : Z) (h : history) :
  NoDup (dict_keys h) ->
  (forall k es, dict_get h k = Some es -> distinct_titles es) ->
  forall k es, dict_get (prune_history now h) k = Some es -> distinct_titles es.
Proof.
  intros Hnd Hh k es. rewrite prune_history_get by assumption.
  unfold pruned_entries. destruct (dict_get h k) as [es0|] eqn:Hget; [|discriminate].
  destruct (List.filter (is_recent now) es0) as [|e0 kept] eqn:Hfilter;
    [discriminate|].
  intros [= <-]. rewrite <- Hfilter. unfold distinct_titles.
  apply NoDup_map_filter. now apply (Hh k).
Qed.

(** X25: the history never holds a story twice under a key: if under
    every key of the loaded history the normalized titles are distinct,
    they are so under every key of the history that a run saves, whether
    the send succeeds or fails and whatever the selection and the
    candidates. *)
Theorem saved_history_has_distinct_titles (h : history)
    (full_articles : dict str (list article))
    (digest_titles : dict str (list str)) (send : result unit) (now : Z)
    (saved : history) :
  NoDup (dict_keys h) ->
  (forall k es, dict_get h k = Some es -> distinct_titles es) ->
  main_from_selection h full_articles digest_titles send now = Some saved ->
  forall k es, dict_get saved k = Some es -> distinct_titles es.
Proof.
  intros Hnd Hh. unfold main_from_selection.
  pose proof (reconcile_distinct full_articles digest_titles) as Hdigest.
  destruct (reconcile full_articles digest_titles) as [|item digest];
    [discriminate|].
  intros [= <-]. unfold send_and_save. destruct send as [[]|e].
  - apply prune_history_distinct; [now apply record_sent_NoDup|].
    now apply record_sent_distinct.
  - now apply prune_history_distinct.
Qed.

(** The last [n] entries of a sequence hold the entries appended to it,
    when these are at most [n]. *)
Lemma elem_of_last_n_app {B : Type} (n : nat) (old new : list B) (x : B) :
  (length new <= n)%nat -> x ∈ new -> x ∈ last_n n (old ++ new).
Proof.
  intros Hlen Hx. unfold last_n. rewrite length_app.
  rewrite drop_app_le by lia. apply elem_of_app. now right.
Qed.

(** X26: an article that is sent is remembered: for an article of the
    digest with tokens in its title, for which [is_in_history] returned
    [False] on the loaded history, recent at the time of the pruning and
    under a topic of at most 40 articles, [is_in_history] returns [True]
    on the history saved after the send, for its title and for every
    title of the same normalized form. *)
Theorem sent_article_is_remembered (digest : dict str (list article))
    (h : history) (now : Z) (topic : str) (articles : list article)
    (a : article) :
  NoDup (dict_keys h) ->
  NoDup (map topic_key (dict_keys digest)) ->
  (topic, articles) ∈ digest -> a ∈ articles -> (length articles <= 40)%nat ->
  token_set (title a) <> ∅ ->
  is_in_history (title a) h = Return false ->
  is_recent now (Entry (title a) (pubDate a)) = true ->
  let saved := send_and_save (Return tt) now digest h in
  (exists kept, dict_get saved (topic_key topic) = Some kept /\
                Entry (title a) (pubDate a) ∈ kept) /\
  is_in_history (title a) saved = Return true /\
  (forall later_title, normalize later_title = normalize (title a) ->
     is_in_history later_title saved = Return true).
Proof.
  intros Hnd Hkeys Hin Ha Hlen HT Hnew Hrecent saved.
  set (entries := default [] (dict_get h (topic_key topic))).
  assert (Hunseen : normalize (title a) ∉
            (list_to_set (map (fun e => normalize (entry_title e)) entries) : gset str)).
  { intros Hseen. apply elem_of_list_to_set, list_elem_of_fmap in Hseen
      as (e & Hsame & He).
    subst entries. destruct (dict_get h (topic_key topic)) as [es|] eqn:Hget;
      [|now apply elem_of_nil in He].
    cbn [default from_option id] in He.
    assert (Hdup : is_in_history (title a) h = Return true).
    { apply (is_in_history_overlap _ _ (topic_key topic) es e); try assumption.
      - now apply dict_get_elem_of.
      - apply overlaps_subset; [assumption|]. unfold token_set. now rewrite Hsame. }
    congruence. }
  assert (Hrecorded : Entry (title a) (pubDate a)
                      ∈ last_n 40 (appended_entries h topic articles)).
  { rewrite appended_entries_app. cbn zeta. fold entries.
    apply elem_of_last_n_app.
    - rewrite length_map. etransitivity; [apply List.filter_length_le|]. exact Hlen.
    - apply list_elem_of_fmap. exists a. split; [reflexivity|].
      apply list_elem_of_In, filter_In. split; [now apply list_elem_of_In|].
      now apply bool_decide_eq_true. }
  assert (Hkept : exists kept, dict_get saved (topic_key topic) = Some kept /\
                               Entry (title a) (pubDate a) ∈ kept).
  { subst saved. unfold send_and_save.
    rewrite prune_history_get by now apply record_sent_NoDup.
    rewrite (record_sent_get digest h topic articles) by assumption.
    unfold pruned_entries.
    assert (Hfiltered : Entry (title a) (pubDate a)
              ∈ List.filter (is_recent now)
                  (last_n 40 (appended_entries h topic articles))).
    { apply list_elem_of_In, filter_In. split; [now apply list_elem_of_In|].
      exact Hrecent. }
    destruct (List.filter _ _) as [|e0 kept]; [now apply elem_of_nil in Hfiltered|].
    now exists (e0 :: kept). }
  split; [exact Hkept|].
  destruct Hkept as (kept & Hget & Hentry).
  assert (Hlater : forall later_title,
    normalize later_title = normalize (title a) ->
    is_in_history later_title saved = Return true).
  { intros later_title Hsame.
    assert (Htokens : token_set later_title = token_set (title a))
      by (unfold token_set; now rewrite Hsame).
    apply (is_in_history_overlap _ _ (topic_key topic) kept
             (Entry (title a) (pubDate a))).
    - now rewrite Htokens.
    - now apply dict_get_elem_of.
    - assumption.
    - apply overlaps_subset; [now rewrite Htokens|].
      cbn [entry_title]. now rewrite Htokens. }
  split; [now apply Hlater | exact Hlater].
Qed.


(** *** The addresses of the message *)










End Newsbot.

(** ** The properties on the sample data, with the reference models of the
    libraries *)

(** C10 on [{"A": ["x"]}]. *)
Lemma safe_parse_json_strict_input_witness :
  Json.loads sample_json = Return (VDict [(VStr (lit "A"), VList [VStr (lit "x")])]) /\
  safe_parse_json Json.loads Ast.literal_eval sample_json
  = Return (VDict [(VStr (lit "A"), VList [VStr (lit "x")])]).
Proof.
  assert (Hstrict : Json.loads sample_json
                    = Return (VDict [(VStr (lit "A"), VList [VStr (lit "x")])]))
    by (vm_compute; reflexivity).
  split; [exact Hstrict|].
  exact (safe_parse_json_strict_input Json.loads Ast.literal_eval _ _ Hstrict).
Defined.

(** C1, as stated, fails: a text that encodes a mapping from strings to
    strings is returned as that mapping, which is no mapping from strings
    to lists of strings. *)
Lemma safe_parse_json_unchecked_shape :
  ~ (forall raw, exists v,
       safe_parse_json Json.loads Ast.literal_eval raw = Return v /\
       is_selection v = true).
Proof.
  intros Hall. destruct (Hall sample_json_of_strings) as (v & Hret & Hshape).
  vm_compute in Hret. injection Hret as <-. vm_compute in Hshape. discriminate.
Qed.

(** C1 (as amended) on a text that no stage can parse. *)
Lemma safe_parse_json_cascade_witness :
  decode_errors_only Json.loads (lit "not json at all") /\
  decode_errors_only Json.loads
    (fix_common_json_errors (strip_wrappers (lit "not json at all"))) /\
  safe_parse_json Json.loads Ast.literal_eval (lit "not json at all")
  = Return (VDict []).
Proof.
  assert (Hraw : decode_errors_only Json.loads (lit "not json at all")).
  { intros e He. vm_compute in He. now injection He as <-. }
  assert (Hcleaned : decode_errors_only Json.loads
            (fix_common_json_errors (strip_wrappers (lit "not json at all")))).
  { intros e He. vm_compute in He. now injection He as <-. }
  split; [exact Hraw|]. split; [exact Hcleaned|].
  apply (safe_parse_json_cascade Json.loads Ast.literal_eval _ Hraw Hcleaned).
  vm_compute. repeat constructor.
Defined.

(** C4 at the threshold: two of the candidate's five tokens are in the
    title of the sample history. *)
Lemma is_in_history_threshold_witness :
  token_set Porter.stem WordNet.lemmatizer (lit "Chipmaker profit falls sharply today") <> ∅ /\
  is_in_history Porter.stem WordNet.lemmatizer
    (lit "Chipmaker profit falls sharply today") sample_history = Return true.
Proof.
  assert (HT : token_set Porter.stem WordNet.lemmatizer
                 (lit "Chipmaker profit falls sharply today") <> ∅).
  { intros Hempty. apply (f_equal size) in Hempty. vm_compute in Hempty. discriminate. }
  split; [exact HT|].
  destruct (is_in_history_threshold Porter.stem WordNet.lemmatizer
              (lit "Chipmaker profit falls sharply today") sample_history HT)
    as [(b & -> & Hb) _].
  f_equal. apply Hb.
  exists (lit "technology"),
         [chipmaker_entry], chipmaker_entry.
  split; [elem_of_head|].
  split; [elem_of_head|].
  split.
  - intros Hempty. apply (f_equal size) in Hempty. vm_compute in Hempty. discriminate.
  - apply Qle_bool_iff. vm_compute. reflexivity.
Defined.

(** C3 on a title of three spaces and the sample history. *)
Lemma is_in_history_no_tokens_raises_witness :
  token_set Porter.stem WordNet.lemmatizer (lit "   ") = ∅ /\
  (exists topic articles e,
     (topic, articles) ∈ sample_history /\ e ∈ articles /\
     token_set Porter.stem WordNet.lemmatizer (entry_title e) <> ∅) /\
  is_in_history Porter.stem WordNet.lemmatizer (lit "   ") sample_history
  = Raise ZeroDivisionError.
Proof.
  assert (HT : token_set Porter.stem WordNet.lemmatizer (lit "   ") = ∅)
    by reflexivity.
  assert (Hentry : exists topic articles e,
            (topic, articles) ∈ sample_history /\ e ∈ articles /\
            token_set Porter.stem WordNet.lemmatizer (entry_title e) <> ∅).
  { exists (lit "technology"), [chipmaker_entry], chipmaker_entry.
    split; [elem_of_head|]. split; [elem_of_head|].
    intros Hempty. apply (f_equal size) in Hempty. vm_compute in Hempty.
    discriminate. }
  split; [exact HT|]. split; [exact Hentry|].
  exact (is_in_history_no_tokens_raises Porter.stem WordNet.lemmatizer _ _ HT Hentry).
Defined.

(** C9, as stated, fails: the stem of [agreed] is [agre], and the stem of
    [agre] is [agr]. *)
Lemma normalize_not_idempotent :
  ~ (forall x, normalize Porter.stem WordNet.lemmatizer
                 (normalize Porter.stem WordNet.lemmatizer x)
               = normalize Porter.stem WordNet.lemmatizer x).
Proof.
  intros Hall. specialize (Hall (lit "agreed")). vm_compute in Hall. discriminate.
Qed.

(** C9 (as amended) on a title whose reduced tokens, [market] and [ralli],
    are stable. *)
Lemma normalize_idempotent_on_stable_witness :
  forallb is_token
    (reduced_tokens Porter.stem WordNet.lemmatizer (lit "Markets rally")) = true /\
  forallb (is_stable Porter.stem WordNet.lemmatizer)
    (reduced_tokens Porter.stem WordNet.lemmatizer (lit "Markets rally")) = true /\
  normalize Porter.stem WordNet.lemmatizer
    (normalize Porter.stem WordNet.lemmatizer (lit "Markets rally"))
  = normalize Porter.stem WordNet.lemmatizer (lit "Markets rally").
Proof.
  assert (Htok : forallb is_token
            (reduced_tokens Porter.stem WordNet.lemmatizer (lit "Markets rally")) = true)
    by (vm_compute; reflexivity).
  assert (Hstable : forallb (is_stable Porter.stem WordNet.lemmatizer)
            (reduced_tokens Porter.stem WordNet.lemmatizer (lit "Markets rally")) = true)
    by (vm_compute; reflexivity).
  split; [exact Htok|]. split; [exact Hstable|].
  exact (normalize_idempotent_on_stable Porter.stem WordNet.lemmatizer _ Htok Hstable).
Defined.

(** C2 on the sample selection: the topic [Biz] of the digest. *)
Lemma reconcile_only_candidates_witness :
  dict_get (reconcile Porter.stem WordNet.lemmatizer sample_candidates sample_selection)
           (lit "Biz") = Some [sample_article "Oil falls"] /\
  forall a, a ∈ [sample_article "Oil falls"] ->
    a ∈ default [] (dict_get sample_candidates (lit "Biz")) /\
    exists titles t, (lit "Biz", titles) ∈ sample_selection /\ t ∈ titles /\
      normalize Porter.stem WordNet.lemmatizer (title a)
      = normalize Porter.stem WordNet.lemmatizer t.
Proof.
  assert (Hget : dict_get (reconcile Porter.stem WordNet.lemmatizer
                             sample_candidates sample_selection) (lit "Biz")
                 = Some [sample_article "Oil falls"])
    by (vm_compute; reflexivity).
  split; [exact Hget|].
  exact (proj1 (proj2 (reconcile_only_candidates Porter.stem WordNet.lemmatizer
                         sample_candidates sample_selection (lit "Biz") _ Hget))).
Defined.

(** C6 on the sample selection: [Markets rally] and [markets rallies] have
    one normalized form, selected under [Tech] and under [Biz]. *)
Lemma dedup_keeps_first_topic_only_witness :
  NoDup (dict_keys sample_selection) /\
  (exists kept u,
     dict_get (deduplicate_headlines Porter.stem WordNet.lemmatizer sample_selection)
              (lit "Tech") = Some kept /\ u ∈ kept /\
     normalize Porter.stem WordNet.lemmatizer u
     = normalize Porter.stem WordNet.lemmatizer (lit "Markets rally")) /\
  (forall tp kept u,
     dict_get (deduplicate_headlines Porter.stem WordNet.lemmatizer sample_selection)
              tp = Some kept -> u ∈ kept ->
     normalize Porter.stem WordNet.lemmatizer u
     = normalize Porter.stem WordNet.lemmatizer (lit "Markets rally") ->
     tp = lit "Tech").
Proof.
  assert (Hnd : NoDup (dict_keys sample_selection)).
  { apply (bool_decide_unpack _). vm_compute. exact I. }
  split; [exact Hnd|].
  apply (proj1 (dedup_keeps_first_topic_only Porter.stem WordNet.lemmatizer
                  sample_candidates sample_selection Hnd)
           [] (lit "Tech")
           [lit "apple launch phones"; lit "Markets rally"; lit "made up"]
           [(lit "Biz", [lit "markets rallies"; lit "Oil falls"]);
            (lit "Sci", [lit "Oil falls"])]
           (lit "Markets rally")).
  - reflexivity.
  - apply elem_of_cons. right. elem_of_head.
  - intros tp ts u Hin. now apply elem_of_nil in Hin.
Defined.

(** C7 on a key of 44 entries that receives one more, and on the pruning of
    the sample history. *)
Lemma history_retention_witness :
  NoDup (map topic_key (dict_keys one_more)) /\
  NoDup (dict_keys full_history) /\
  NoDup (dict_keys sample_history) /\
  dict_get (record_sent Porter.stem WordNet.lemmatizer one_more full_history)
           (lit "tech")
  = Some (map numbered_entry (seq 5 39)
          ++ [Entry (lit "Apple launches phone") (lit "Tue, 03 Nov 2026 08:00:00 GMT")]) /\
  dict_get (prune_history EmailUtils.parsedate_to_datetime sample_now sample_history)
           (lit "technology")
  = Some [chipmaker_entry] /\
  dict_get (prune_history EmailUtils.parsedate_to_datetime sample_now sample_history)
           (lit "business") = None.
Proof.
  assert (Hone : NoDup (map topic_key (dict_keys one_more))).
  { apply (bool_decide_unpack _). vm_compute. exact I. }
  assert (Hfull : NoDup (dict_keys full_history)).
  { apply (bool_decide_unpack _). vm_compute. exact I. }
  assert (Hsample : NoDup (dict_keys sample_history)).
  { apply (bool_decide_unpack _). vm_compute. exact I. }
  split; [exact Hone|]. split; [exact Hfull|]. split; [exact Hsample|].
  pose proof (history_retention Porter.stem WordNet.lemmatizer
                EmailUtils.parsedate_to_datetime one_more full_history sample_now
                Hfull) as (_ & Hrecord & _).
  pose proof (history_retention Porter.stem WordNet.lemmatizer
                EmailUtils.parsedate_to_datetime [] sample_history sample_now
                Hsample) as (_ & _ & _ & _ & Hprune & _).
  split; [|split].
  - destruct (Hrecord Hone (lit "Tech") [sample_article "Apple launches phone"])
      as (Hget & _ & _ & Hdrop).
    { elem_of_head. }
    change (lit "tech") with (topic_key (lit "Tech")).
    rewrite Hget, Hdrop by (vm_compute; reflexivity).
    vm_compute. reflexivity.
  - rewrite Hprune. vm_compute. reflexivity.
  - rewrite Hprune. vm_compute. reflexivity.
Defined.

(** C5, as stated, fails: with a failed send the loaded history is still
    pruned, and the entries that are too old or have no readable date are
    not saved. *)
Lemma failed_send_still_prunes :
  ~ (forall e now h full_articles digest_titles saved,
       main_from_selection Porter.stem WordNet.lemmatizer
         EmailUtils.parsedate_to_datetime h full_articles digest_titles
         (Raise e) now = Some saved ->
       saved = h).
Proof.
  intros Hall.
  specialize (Hall OSError sample_now sample_history sample_candidates
                sample_selection
                [(lit "technology", [chipmaker_entry])]).
  assert (Hsaved : [(lit "technology", [chipmaker_entry])] = sample_history)
    by (apply Hall; vm_compute; reflexivity).
  discriminate Hsaved.
Qed.

(** ** Further properties on the sample data *)

(** X2 on a history whose only title is three spaces. *)
Lemma is_in_history_without_history_tokens_witness :
  (forall topic articles e,
     (topic, articles) ∈ blank_history -> e ∈ articles ->
     token_set Porter.stem WordNet.lemmatizer (entry_title e) = ∅) /\
  is_in_history Porter.stem WordNet.lemmatizer (lit "   ") blank_history
  = Return false /\
  is_in_history Porter.stem WordNet.lemmatizer (lit "Apple launches phone")
    blank_history = Return false.
Proof.
  assert (Hblank : forall topic articles e,
     (topic, articles) ∈ blank_history -> e ∈ articles ->
     token_set Porter.stem WordNet.lemmatizer (entry_title e) = ∅).
  { intros topic articles e Hin He.
    apply list_elem_of_singleton in Hin. injection Hin as _ ->.
    apply list_elem_of_singleton in He as ->. reflexivity. }
  split; [exact Hblank|]. split.
  - exact (is_in_history_without_history_tokens Porter.stem WordNet.lemmatizer
             _ _ Hblank).
  - exact (is_in_history_without_history_tokens Porter.stem WordNet.lemmatizer
             _ _ Hblank).
Defined.

(** X3 on a title whose two tokens are tokens of a title of the sample
    history. *)
Lemma is_in_history_finds_contained_title_witness :
  token_set Porter.stem WordNet.lemmatizer (lit "Record profits") <> ∅ /\
  token_set Porter.stem WordNet.lemmatizer (lit "Record profits")
  ⊆ token_set Porter.stem WordNet.lemmatizer (entry_title chipmaker_entry) /\
  is_in_history Porter.stem WordNet.lemmatizer (lit "Record profits")
    sample_history = Return true.
Proof.
  assert (HT : token_set Porter.stem WordNet.lemmatizer (lit "Record profits") <> ∅).
  { intros Hempty. apply (f_equal size) in Hempty. vm_compute in Hempty. discriminate. }
  assert (Hsub : token_set Porter.stem WordNet.lemmatizer (lit "Record profits")
            ⊆ token_set Porter.stem WordNet.lemmatizer (entry_title chipmaker_entry)).
  { apply (bool_decide_unpack _). vm_compute. exact I. }
  split; [exact HT|]. split; [exact Hsub|].
  assert (Htopic : (lit "technology", [chipmaker_entry]) ∈ sample_history)
    by elem_of_head.
  assert (Hentry : chipmaker_entry ∈ [chipmaker_entry]) by elem_of_head.
  exact (proj1 (is_in_history_finds_contained_title Porter.stem WordNet.lemmatizer
                  (lit "Record profits") sample_history (lit "technology")
                  [chipmaker_entry] chipmaker_entry HT Htopic Hentry) Hsub).
Defined.

(** X11 on the sample feed: the item without title, read at 09:30. *)
Lemma fetch_articles_are_fresh_witness :
  fetch_articles_for_topic EmailUtils.parsedate_to_datetime (Return sample_feed)
    sample_cutoff 10
  = [ FetchedArticle (lit "Apple launches phone")
        (Some (lit "https://news.example/1")) (lit "Tue, 03 Nov 2026 08:00:00 GMT");
      FetchedArticle (lit "No title") None (lit "Tue, 03 Nov 2026 09:30:00 GMT") ] /\
  exists pub_dt,
    EmailUtils.parsedate_to_datetime (lit "Tue, 03 Nov 2026 09:30:00 GMT")
    = Some pub_dt /\ (sample_cutoff < pub_dt)%Z.
Proof.
  assert (Hfetch : fetch_articles_for_topic EmailUtils.parsedate_to_datetime
            (Return sample_feed) sample_cutoff 10
    = [ FetchedArticle (lit "Apple launches phone")
          (Some (lit "https://news.example/1")) (lit "Tue, 03 Nov 2026 08:00:00 GMT");
        FetchedArticle (lit "No title") None (lit "Tue, 03 Nov 2026 09:30:00 GMT") ])
    by (vm_compute; reflexivity).
  split; [exact Hfetch|].
  apply (fetch_articles_are_fresh EmailUtils.parsedate_to_datetime
           (Return sample_feed) sample_cutoff 10
           (FetchedArticle (lit "No title") None (lit "Tue, 03 Nov 2026 09:30:00 GMT"))).
  rewrite Hfetch. apply elem_of_cons. right. elem_of_head.
Defined.

(** X12 on [{"A": ["x"]}] in a fenced block. *)
Lemma strip_wrappers_unwraps_fence_witness :
  lstrip isspace sample_json = sample_json /\
  rstrip isspace sample_json = sample_json /\
  strip_wrappers (fence ++ lit "json" ++ [10] ++ sample_json ++ [10] ++ fence)
  = sample_json.
Proof.
  split; [reflexivity|]. split; [reflexivity|].
  exact (proj1 (strip_wrappers_unwraps_fence sample_json eq_refl eq_refl)).
Defined.

(** X13 on [{"A": ["x"]}] in a fenced block. *)
Lemma prioritize_with_gemini_unwraps_fence_witness :
  lstrip isspace sample_json = sample_json /\
  rstrip isspace sample_json = sample_json /\
  prioritize_with_gemini Json.loads Ast.literal_eval
    (Return (Some (fence ++ lit "json" ++ [10] ++ sample_json ++ [10] ++ fence)))
  = Return (VDict [(VStr (lit "A"), VList [VStr (lit "x")])]).
Proof.
  split; [reflexivity|]. split; [reflexivity|].
  apply (proj2 (prioritize_with_gemini_unwraps_fence Json.loads Ast.literal_eval
                  sample_json eq_refl eq_refl)).
  vm_compute. reflexivity.
Defined.

(** X15 on a text that lacks a closing bracket and a closing brace. *)
Lemma balance_braces_appends_missing_closers_witness :
  (count 125 (lit "{'A': ['x'") <= count 123 (lit "{'A': ['x'"))%nat /\
  (count 93 (lit "{'A': ['x'") <= count 91 (lit "{'A': ['x'"))%nat /\
  balance_braces (lit "{'A': ['x'") = lit "{'A': ['x'}]" /\
  balance_braces (balance_braces (lit "{'A': ['x'"))
  = balance_braces (lit "{'A': ['x'").
Proof.
  assert (Hbraces : (count 125 (lit "{'A': ['x'") <= count 123 (lit "{'A': ['x'"))%nat)
    by (vm_compute; lia).
  assert (Hbrackets : (count 93 (lit "{'A': ['x'") <= count 91 (lit "{'A': ['x'"))%nat)
    by (vm_compute; lia).
  split; [exact Hbraces|]. split; [exact Hbrackets|].
  split; [vm_compute; reflexivity|].
  exact (proj1 (proj2 (proj2 (proj2
    (balance_braces_appends_missing_closers _ Hbraces Hbrackets))))).
Defined.

(** X16 on a text with curly quotes, a tab and a byte-order mark. *)
Lemma fix_common_json_errors_leaves_no_control_witness :
  fix_common_json_errors ([65279; 123; 8220; 65; 8221; 58; 9; 91; 93; 125])
  = lit "{" ++ quoted "A" ++ lit ":[]}" /\
  is_control 34 = false /\ 34 <> 8220 /\ 34 <> 8221 /\ 34 <> 8216 /\ 34 <> 8217.
Proof.
  assert (Hfix : fix_common_json_errors ([65279; 123; 8220; 65; 8221; 58; 9; 91; 93; 125])
                 = lit "{" ++ quoted "A" ++ lit ":[]}")
    by (vm_compute; reflexivity).
  split; [exact Hfix|].
  apply (fix_common_json_errors_leaves_no_control
           [65279; 123; 8220; 65; 8221; 58; 9; 91; 93; 125] 34).
  rewrite Hfix. apply elem_of_cons. right. elem_of_head.
Defined.

(** X17 on the sample run. *)
Lemma gather_headlines_are_candidate_titles_witness :
  gather Porter.stem WordNet.lemmatizer title sample_topic_weights sample_fetch
    sample_history sample_overrides
  = Return (headlines_of title sample_full_articles, sample_full_articles) /\
  dict_keys (headlines_of title sample_full_articles) = dict_keys sample_full_articles /\
  total_headlines (headlines_of title sample_full_articles) = 3%nat.
Proof.
  assert (Hgather : gather Porter.stem WordNet.lemmatizer title sample_topic_weights
            sample_fetch sample_history sample_overrides
    = Return (headlines_of title sample_full_articles, sample_full_articles))
    by (vm_compute; reflexivity).
  split; [exact Hgather|].
  pose proof (gather_headlines_are_candidate_titles Porter.stem WordNet.lemmatizer
                title sample_topic_weights sample_fetch sample_history
                sample_overrides _ _ Hgather) as (_ & Hkeys & _ & _ & Htotal).
  split; [exact Hkeys|]. rewrite Htotal. reflexivity.
Defined.

(** X18 on the sample run: under [Biz] the article with the banned term is
    not kept. *)
Lemma gather_keeps_new_unbanned_articles_witness :
  gather Porter.stem WordNet.lemmatizer title sample_topic_weights sample_fetch
    sample_history sample_overrides
  = Return (headlines_of title sample_full_articles, sample_full_articles) /\
  (sample_article "Markets Rally" ∈ sample_fetch (lit "Biz") /\
   is_in_history Porter.stem WordNet.lemmatizer
     (title (sample_article "Markets Rally")) sample_history = Return false /\
   contains_banned_keyword Porter.stem WordNet.lemmatizer
     (title (sample_article "Markets Rally"))
     (terms_with (lit "ban") sample_overrides) = false).
Proof.
  assert (Hgather : gather Porter.stem WordNet.lemmatizer title sample_topic_weights
            sample_fetch sample_history sample_overrides
    = Return (headlines_of title sample_full_articles, sample_full_articles))
    by (vm_compute; reflexivity).
  split; [exact Hgather|].
  apply (proj2 (gather_keeps_new_unbanned_articles Porter.stem WordNet.lemmatizer
                  title sample_topic_weights sample_fetch sample_history
                  sample_overrides _ _ Hgather)
           (lit "Biz") [sample_article "Markets Rally"]); [reflexivity|].
  elem_of_head.
Defined.

(** X20 on the sample run and the sample selection. *)
Lemma digest_articles_are_new_candidates_witness :
  gather Porter.stem WordNet.lemmatizer title sample_topic_weights sample_fetch
    sample_history sample_overrides
  = Return (headlines_of title sample_full_articles, sample_full_articles) /\
  dict_get (reconcile Porter.stem WordNet.lemmatizer sample_full_articles
              sample_selection) (lit "Tech")
  = Some [sample_article "Apple launches phone"; sample_article "Markets rally"] /\
  sample_article "Markets rally" ∈ sample_fetch (lit "Tech") /\
  is_in_history Porter.stem WordNet.lemmatizer
    (title (sample_article "Markets rally")) sample_history = Return false.
Proof.
  assert (Hgather : gather Porter.stem WordNet.lemmatizer title sample_topic_weights
            sample_fetch sample_history sample_overrides
    = Return (headlines_of title sample_full_articles, sample_full_articles))
    by (vm_compute; reflexivity).
  assert (Hget : dict_get (reconcile Porter.stem WordNet.lemmatizer
                             sample_full_articles sample_selection) (lit "Tech")
    = Some [sample_article "Apple launches phone"; sample_article "Markets rally"])
    by (vm_compute; reflexivity).
  split; [exact Hgather|]. split; [exact Hget|].
  destruct (digest_articles_are_new_candidates Porter.stem WordNet.lemmatizer
              sample_topic_weights sample_fetch sample_history sample_overrides
              _ _ sample_selection (lit "Tech") _ (sample_article "Markets rally")
              Hgather Hget) as (_ & Hfetched & Hnew & _).
  { apply elem_of_cons. right. elem_of_head. }
  now split.
Defined.

(** X21 on a sheet with a blank term marked [Ban]. *)
Lemma blank_banned_term_bans_everything_witness :
  load_overrides (Return ([lit "term"; lit "action"] :: blank_ban_rows))
  = Some [(lit "oil", lit "demote"); ([], lit "ban")] /\
  gather Porter.stem WordNet.lemmatizer title sample_topic_weights sample_fetch
    sample_history [(lit "oil", lit "demote"); ([], lit "ban")]
  = Return ([], []) /\
  contains_banned_keyword Porter.stem WordNet.lemmatizer (lit "Apple launches phone")
    (terms_with (lit "ban") [(lit "oil", lit "demote"); ([], lit "ban")]) = true.
Proof.
  assert (Hload : load_overrides (Return ([lit "term"; lit "action"] :: blank_ban_rows))
                  = Some [(lit "oil", lit "demote"); ([], lit "ban")])
    by (vm_compute; reflexivity).
  assert (Hgather : gather Porter.stem WordNet.lemmatizer title sample_topic_weights
            sample_fetch sample_history [(lit "oil", lit "demote"); ([], lit "ban")]
    = Return ([], [])) by (vm_compute; reflexivity).
  split; [exact Hload|]. split; [exact Hgather|].
  assert (Hlater : forall (t a : str) (r : list str),
            (t :: a :: r) ∈ (@nil (list str)) -> strip t <> []).
  { intros t a r Hin. now apply elem_of_nil in Hin. }
  exact (proj1 (proj2 (blank_banned_term_bans_everything Porter.stem
           WordNet.lemmatizer title sample_topic_weights sample_fetch
           sample_history [lit "term"; lit "action"] blank_ban_rows
           [(lit "oil", lit "demote"); ([], lit "ban")]
           [[lit "oil"; lit "demote"]] [] (lit " ") (lit "Ban") [] [] []
           Hload eq_refl eq_refl eq_refl Hlater Hgather))
         (lit "Apple launches phone")).
Defined.

(** X22 on the sample selection: the topic [Tech] of the digest. *)
Lemma digest_topic_has_distinct_titles_witness :
  dict_get (reconcile Porter.stem WordNet.lemmatizer sample_candidates
              sample_selection) (lit "Tech")
  = Some [sample_article "Apple launches phone"; sample_article "Markets rally"] /\
  NoDup (map (fun a => normalize Porter.stem WordNet.lemmatizer (title a))
             [sample_article "Apple launches phone"; sample_article "Markets rally"]).
Proof.
  assert (Hget : dict_get (reconcile Porter.stem WordNet.lemmatizer
                             sample_candidates sample_selection) (lit "Tech")
    = Some [sample_article "Apple launches phone"; sample_article "Markets rally"])
    by (vm_compute; reflexivity).
  split; [exact Hget|].
  exact (digest_topic_has_distinct_titles Porter.stem WordNet.lemmatizer
           sample_candidates sample_selection (lit "Tech") _ Hget).
Defined.

(** X23 on the sample selection: [Markets rally], selected under [Tech],
    the first topic. *)
Lemma reconcile_keeps_matching_titles_witness :
  NoDup (dict_keys sample_selection) /\
  exists selected,
    dict_get (reconcile Porter.stem WordNet.lemmatizer sample_candidates
                sample_selection) (lit "Tech") = Some selected /\
    sample_article "Markets rally" ∈ selected.
Proof.
  assert (Hnd : NoDup (dict_keys sample_selection)).
  { apply (bool_decide_unpack _). vm_compute. exact I. }
  split; [exact Hnd|].
  apply (reconcile_keeps_matching_titles Porter.stem WordNet.lemmatizer
           sample_candidates sample_selection []
           [(lit "Biz", [lit "markets rallies"; lit "Oil falls"]);
            (lit "Sci", [lit "Oil falls"])]
           (lit "Tech")
           [lit "apple launch phones"; lit "Markets rally"; lit "made up"]
           (lit "Markets rally") (sample_article "Markets rally") Hnd).
  - reflexivity.
  - apply elem_of_cons. right. elem_of_head.
  - intros tp ts u Hin. now apply elem_of_nil in Hin.
  - vm_compute. reflexivity.
Defined.

(** X24 on the sample history, pruned on 3 November and a day later. *)
Lemma prune_history_composes_witness :
  NoDup (dict_keys sample_history) /\
  prune_history EmailUtils.parsedate_to_datetime sample_now sample_history
  = [(lit "technology", [chipmaker_entry])] /\
  prune_history EmailUtils.parsedate_to_datetime (sample_now + 86400000000)
    (prune_history EmailUtils.parsedate_to_datetime sample_now sample_history)
  = prune_history EmailUtils.parsedate_to_datetime (sample_now + 86400000000)
      sample_history.
Proof.
  assert (Hsample : NoDup (dict_keys sample_history)).
  { apply (bool_decide_unpack _). vm_compute. exact I. }
  split; [exact Hsample|]. split; [vm_compute; reflexivity|].
  apply (proj1 (proj2 (prune_history_composes EmailUtils.parsedate_to_datetime
                         sample_now (sample_now + 86400000000) sample_history
                         Hsample))).
  lia.
Defined.

(** X25 on the sample run with a successful send. *)
Lemma saved_history_has_distinct_titles_witness :
  NoDup (dict_keys sample_history) /\
  (forall k es, dict_get sample_history k = Some es ->
     distinct_titles Porter.stem WordNet.lemmatizer es) /\
  exists saved,
    main_from_selection Porter.stem WordNet.lemmatizer
      EmailUtils.parsedate_to_datetime sample_history sample_candidates
      sample_selection (Return tt) sample_now = Some saved /\
    forall k es, dict_get saved k = Some es ->
      distinct_titles Porter.stem WordNet.lemmatizer es.
Proof.
  assert (Hsample : NoDup (dict_keys sample_history)).
  { apply (bool_decide_unpack _). vm_compute. exact I. }
  assert (Hdistinct : forall k es, dict_get sample_history k = Some es ->
            distinct_titles Porter.stem WordNet.lemmatizer es).
  { intros k es. unfold sample_history. cbn [dict_get].
    destruct (decide (lit "technology" = k)); [intros [= <-]|].
    - apply (bool_decide_unpack _). vm_compute. exact I.
    - destruct (decide (lit "business" = k)); [intros [= <-]|discriminate].
      apply (bool_decide_unpack _). vm_compute. exact I. }
  split; [exact Hsample|]. split; [exact Hdistinct|].
  eexists. split; [vm_compute; reflexivity|].
  apply (saved_history_has_distinct_titles Porter.stem WordNet.lemmatizer
           EmailUtils.parsedate_to_datetime sample_history sample_candidates
           sample_selection (Return tt) sample_now _ Hsample Hdistinct).
  vm_compute. reflexivity.
Defined.

(** X26 on the digest of one article, sent and saved with the sample
    history. *)
Lemma sent_article_is_remembered_witness :
  NoDup (dict_keys sample_history) /\
  NoDup (map topic_key (dict_keys one_more)) /\
  token_set Porter.stem WordNet.lemmatizer (lit "Apple launches phone") <> ∅ /\
  is_in_history Porter.stem WordNet.lemmatizer (lit "Apple launches phone")
    sample_history = Return false /\
  is_in_history Porter.stem WordNet.lemmatizer (lit "Apple launches phone")
    (send_and_save Porter.stem WordNet.lemmatizer EmailUtils.parsedate_to_datetime
       (Return tt) sample_now one_more sample_history) = Return true.
Proof.
  assert (Hsample : NoDup (dict_keys sample_history)).
  { apply (bool_decide_unpack _). vm_compute. exact I. }
  assert (Hone : NoDup (map topic_key (dict_keys one_more))).
  { apply (bool_decide_unpack _). vm_compute. exact I. }
  assert (HT : token_set Porter.stem WordNet.lemmatizer (lit "Apple launches phone") <> ∅).
  { intros Hempty. apply (f_equal size) in Hempty. vm_compute in Hempty. discriminate. }
  assert (Hnew : is_in_history Porter.stem WordNet.lemmatizer
                   (lit "Apple launches phone") sample_history = Return false)
    by (vm_compute; reflexivity).
  split; [exact Hsample|]. split; [exact Hone|]. split; [exact HT|].
  split; [exact Hnew|].
  assert (Htopic : (lit "Tech", [sample_article "Apple launches phone"]) ∈ one_more)
    by elem_of_head.
  assert (Harticle : sample_article "Apple launches phone"
                     ∈ [sample_article "Apple launches phone"]) by elem_of_head.
  assert (Hlen : (length [sample_article "Apple launches phone"] <= 40)%nat)
    by (cbn; lia).
  assert (Hrecent : is_recent EmailUtils.parsedate_to_datetime sample_now
            (Entry (title (sample_article "Apple launches phone"))
                   (pubDate (sample_article "Apple launches phone"))) = true)
    by (vm_compute; reflexivity).
  exact (proj1 (proj2 (sent_article_is_remembered Porter.stem WordNet.lemmatizer
           EmailUtils.parsedate_to_datetime one_more sample_history sample_now
           (lit "Tech") [sample_article "Apple launches phone"]
           (sample_article "Apple launches phone") Hsample Hone Htopic Harticle
           Hlen HT Hnew Hrecent))).
Defined.

(** ** The reference models and the program on known cases *)

(** Stems of words from the published vocabulary of the stemmer. *)
Example porter_vocabulary :
  map Porter.stem
    [ lit "caresses"; lit "ponies"; lit "cats"; lit "agreed"; lit "plastered";
      lit "motoring"; lit "conflated"; lit "hopping"; lit "filing"; lit "happy";
      lit "relational"; lit "triplicate"; lit "revival"; lit "adoption";
      lit "probate"; lit "controll"; lit "generalizations" ]
  = [ lit "caress"; lit "poni"; lit "cat"; lit "agre"; lit "plaster";
      lit "motor"; lit "conflat"; lit "hop"; lit "file"; lit "happi";
      lit "relat"; lit "triplic"; lit "reviv"; lit "adopt";
      lit "probat"; lit "control"; lit "gener" ].
Proof. vm_compute. reflexivity. Qed.

(** The four scenarios of the specification for the parser: strict JSON;
    a fenced Python-style mapping with a trailing comma; a mapping between
    other words; and a text with no mapping at all. *)
Example safe_parse_json_scenarios :
  let parse := safe_parse_json Json.loads Ast.literal_eval in
  let expected := Return (VDict [(VStr (lit "A"), VList [VStr (lit "x")])]) in
  parse sample_json = expected /\
  parse (lit "```json" ++ [10] ++ lit "{'A': ['x'],}" ++ [10] ++ lit "```") = expected /\
  parse (lit "garbage " ++ sample_json ++ lit " trailing junk") = expected /\
  parse (lit "not json at all") = Return (VDict []).
Proof. vm_compute. repeat split. Qed.

(** An integer literal beyond the interpreter's limit of digits: the
    [ValueError] of the strict parse is no [JSONDecodeError] and leaves
    [safe_parse_json]. *)
Example safe_parse_json_long_integer :
  safe_parse_json Json.loads Ast.literal_eval (replicate 4301 49) = Raise ValueError.
Proof. vm_compute. reflexivity. Qed.

(** The threshold of the duplicate check: two tokens out of five are
    enough, two out of six are not. *)
Example is_in_history_boundary :
  is_in_history Porter.stem WordNet.lemmatizer
    (lit "Chipmaker profit falls sharply today") sample_history = Return true /\
  is_in_history Porter.stem WordNet.lemmatizer
    (lit "Chipmaker profit falls sharply today again") sample_history = Return false.
Proof. vm_compute. split; reflexivity. Qed.

(** [load_overrides] on a sheet where a later row changes the action of a
    term: terms and actions are stripped and lowercased, the row with one
    cell is passed, the header is not read. *)
Example load_overrides_sample :
  load_overrides
    (Return [ [lit "Oil"; lit "ban"];
              [lit " Oil "; lit "Ban"]; [lit "lonely"]; [lit "Rally"; lit "demote"];
              [lit "oil"; lit " DEMOTE "; lit "note"] ])
  = Some [ (lit "oil", lit "demote"); (lit "rally", lit "demote") ].
Proof. vm_compute. reflexivity. Qed.

(** The text of the preferences for two topics of one score and one of a
    higher score, no keyword, and the sample overrides. *)
Example build_user_preferences_sample :
  build_user_preferences (lit "0.5")
    [ (lit "Tech", 3%Z); (lit "Biz", 5%Z); (lit "Sci", 3%Z) ] [] sample_overrides
  = join [10]
      [ lit "User topics (ranked 1-5 in importance):";
        lit "- Biz: 5"; lit "- Tech: 3"; lit "- Sci: 3";
        10 :: lit "Banned terms (must not appear in topics or headlines):";
        lit "- oil";
        10 :: lit "Demoted terms (consider headlines with these terms 0.5 times as important to the user, all else equal):";
        lit "- rally" ].
Proof. vm_compute. reflexivity. Qed.

(** The cap of [fetch_articles_for_topic] is tested after an article is
    added: with a cap of one, and with a cap of zero, the first fresh
    article of the sample feed is returned. *)
Example fetch_articles_for_topic_cap :
  fetch_articles_for_topic EmailUtils.parsedate_to_datetime (Return sample_feed)
    sample_cutoff 1
  = [ FetchedArticle (lit "Apple launches phone")
        (Some (lit "https://news.example/1")) (lit "Tue, 03 Nov 2026 08:00:00 GMT") ] /\
  fetch_articles_for_topic EmailUtils.parsedate_to_datetime (Return sample_feed)
    sample_cutoff 0
  = [ FetchedArticle (lit "Apple launches phone")
        (Some (lit "https://news.example/1")) (lit "Tue, 03 Nov 2026 08:00:00 GMT") ].
Proof. vm_compute. split; reflexivity. Qed.

(** A banned term is looked for in the normalized title as the sheet
    writes it: [elections] is no piece of [elect today], the normalized
    form of a title that holds the word. *)
Example contains_banned_keyword_unstemmed_term :
  normalize Porter.stem WordNet.lemmatizer (lit "Elections today") = lit "elect today" /\
  contains_banned_keyword Porter.stem WordNet.lemmatizer (lit "Elections today")
    [lit "elections"] = false /\
  contains_banned_keyword Porter.stem WordNet.lemmatizer (lit "Elections today")
    [lit "elect"] = true.
Proof. vm_compute. repeat split. Qed.

(** On an integer literal beyond the interpreter's limit of digits
    [safe_parse_json] raises [ValueError]; [prioritize_with_gemini]
    catches it and returns the empty mapping. *)
Example prioritize_with_gemini_long_integer :
  prioritize_with_gemini Json.loads Ast.literal_eval
    (Return (Some (replicate 4301 49))) = Return (VDict []).
Proof. vm_compute. reflexivity. Qed.

(** A title of white space among the articles fetched stops the sample
    run. *)
Example gather_blank_title :
  gather Porter.stem WordNet.lemmatizer title sample_topic_weights
    (fun topic => sample_fetch topic ++ [sample_article "   "])
    sample_history sample_overrides
  = Raise ZeroDivisionError.
Proof. vm_compute. reflexivity. Qed.

(** The Bcc list of a value of [MAILTO] with blanks and an empty piece. *)
Example bcc_header_sample :
  EMAIL_BCC_LIST (lit " a@x.org , ,b@y.org,  ") = [ lit "a@x.org"; lit "b@y.org" ] /\
  bcc_header (lit " a@x.org , ,b@y.org,  ") = lit "a@x.org, b@y.org".
Proof. vm_compute. split; reflexivity. Qed.
